(** * Module-map generator: the assembly, the path helpers and the oracle loop

    A shallow embedding of the TypeScript sources [src/utils.ts] (the
    directory walk in its two versions, the path normalizer and
    [sortObjectKeys]), [src/openai-tools.ts], [src/types.ts] and
    [src/module-map.ts], and the properties of the module map they build.

    - A JavaScript string is the [string] of the UTF-8 bytes of its text
      (well-formed text: no lone surrogates); an object used as a record
      is the list of its own properties in the order [Object.keys] lists
      them.
    - Node's [path] is modelled in its POSIX flavour, Node's [fs] on a tree
      of directory entries.
    - The OpenAI API is the list of the answers it is still going to give;
      [JSON.parse] is a parameter; of a reply it gives the outcome of
      the lines that read it. *)

From Stdlib Require Import String Ascii List Bool Arith NArith Lia Permutation.
Import ListNotations.
Open Scope list_scope.
Open Scope string_scope.

Set Implicit Arguments.
Set Warnings "-register-all".

(* ================================================================== *)
(** ** JavaScript strings *)
(* ================================================================== *)

Module JsString.

(** [s.startsWith(p)] *)
Definition startsWith (s p : string) : bool := String.prefix p s.

(** [s.endsWith(suf)]: some suffix of [s] is [suf]. *)
Fixpoint endsWith (s suf : string) : bool :=
  (s =? suf) ||
  match s with
  | EmptyString => false
  | String _ rest => endsWith rest suf
  end.

(** [s.includes(sub)] *)
Fixpoint includes (s sub : string) : bool :=
  String.prefix sub s ||
  match s with
  | EmptyString => false
  | String _ rest => includes rest sub
  end.

(** The scan of [s.split(sep)] for a non-empty [sep]: [cur] is the piece
    being read, [skip] counts the characters of a separator that was just
    matched and are still to be passed over. *)
Fixpoint split_go (sep : string) (skip : nat) (cur s : string) : list string :=
  match s with
  | EmptyString => [cur]
  | String c rest =>
      match skip with
      | S k => split_go sep k cur rest
      | O =>
          if String.prefix sep s
          then cur :: split_go sep (String.length sep - 1) "" rest
          else split_go sep 0 (cur ++ String c "") rest
      end
  end.

(** The pieces of [s.split("")], for text in the ASCII range; the code
    splits at separators that are not empty. *)
Fixpoint chars (s : string) : list string :=
  match s with
  | EmptyString => []
  | String c rest => String c "" :: chars rest
  end.

(** [s.split(sep)] *)
Definition split (s sep : string) : list string :=
  match sep with
  | EmptyString => chars s
  | _ => split_go sep 0 "" s
  end.

(** [pieces.join(sep)] *)
Fixpoint join (pieces : list string) (sep : string) : string :=
  match pieces with
  | [] => ""
  | [p] => p
  | p :: rest => p ++ sep ++ join rest sep
  end.

(** The white space and the line terminators that [trim] removes, by
    their UTF-8 encodings: U+0009 to U+000D and U+0020 in one byte,
    U+00A0 in two, and U+1680, U+2000 to U+200A, U+2028, U+2029, U+202F,
    U+205F, U+3000 and U+FEFF in three. *)
Definition is_space (c : ascii) : bool :=
  let n := nat_of_ascii c in
  ((9 <=? n)%nat && (n <=? 13)%nat) || (n =? 32)%nat.

Definition is_space2 (c1 c2 : ascii) : bool :=
  ((nat_of_ascii c1 =? 194) && (nat_of_ascii c2 =? 160))%nat.

Definition is_space3 (c1 c2 c3 : ascii) : bool :=
  let n1 := nat_of_ascii c1 in
  let n2 := nat_of_ascii c2 in
  let n3 := nat_of_ascii c3 in
  (((n1 =? 225) && (n2 =? 154) && (n3 =? 128))
   || ((n1 =? 226) && (n2 =? 128)
       && (((128 <=? n3) && (n3 <=? 138))
           || (n3 =? 168) || (n3 =? 169) || (n3 =? 175)))
   || ((n1 =? 226) && (n2 =? 129) && (n3 =? 159))
   || ((n1 =? 227) && (n2 =? 128) && (n3 =? 128))
   || ((n1 =? 239) && (n2 =? 187) && (n3 =? 191)))%nat.

(** [s.trimStart()] *)
Fixpoint trimStart (s : string) : string :=
  match s with
  | EmptyString => ""
  | String c1 rest1 =>
      if is_space c1 then trimStart rest1
      else
        match rest1 with
        | EmptyString => s
        | String c2 rest2 =>
            if is_space2 c1 c2 then trimStart rest2
            else
              match rest2 with
              | EmptyString => s
              | String c3 rest3 =>
                  if is_space3 c1 c2 c3 then trimStart rest3 else s
              end
        end
  end.

(** [s.trimEnd()]: the text is cut where only white space follows. *)
Fixpoint trimEnd (s : string) : string :=
  match s with
  | EmptyString => ""
  | String c rest => if trimStart s =? "" then "" else String c (trimEnd rest)
  end.

(** [s.trim()] *)
Definition trim (s : string) : string := trimEnd (trimStart s).

(** The order of [<] on strings, which compares UTF-16 code units.  On
    the UTF-8 bytes that is the order of the bytes, except that the
    characters from U+E000 to U+FFFF (lead bytes 0xEE and 0xEF) come
    after the characters beyond U+FFFF (lead bytes 0xF0 to 0xF4), which
    UTF-16 writes with surrogates. *)
Definition code_unit_rank (c : ascii) : ascii :=
  let n := nat_of_ascii c in
  if ((n =? 238) || (n =? 239))%nat then ascii_of_nat (n + 16) else c.

Fixpoint ranked (s : string) : string :=
  match s with
  | EmptyString => ""
  | String c rest => String (code_unit_rank c) (ranked rest)
  end.

(** [!(b < a)] *)
Definition leb (a b : string) : bool := String.leb (ranked a) (ranked b).

(** The double quote and the line feed. *)
Definition dq : string := String (ascii_of_nat 34) "".
Definition nl : string := String (ascii_of_nat 10) "".

(** [a === b] where [a] may be [undefined]. *)
Definition strict_eq (a : option string) (b : string) : bool :=
  match a with
  | Some s => s =? b
  | None => false
  end.

(** The property key a value is converted to in [obj[v]]. *)
Definition property_key (v : option string) : string :=
  match v with
  | Some s => s
  | None => "undefined"
  end.

End JsString.

(* ================================================================== *)
(** ** JavaScript objects used as records ([Record<string, T>]) *)
(* ================================================================== *)

Module JsObject.

(** An object is the list of its own properties, in the order
    [Object.keys] lists them: array-index keys first, by value, then the
    other keys in the order they were created. *)
Definition t (V : Type) : Type := list (string * V).

Definition empty {V : Type} : t V := [].

Definition is_digit (c : ascii) : bool :=
  ((48 <=? nat_of_ascii c)%nat && (nat_of_ascii c <=? 57)%nat)%bool.

Fixpoint digits_value (s : string) (acc : N) : option N :=
  match s with
  | EmptyString => Some acc
  | String c rest =>
      if is_digit c
      then digits_value rest (acc * 10 + (N_of_ascii c - 48))%N
      else None
  end.

(** A key is an array index when it is the canonical decimal form of an
    integer below 2^32 - 1. *)
Definition array_index (k : string) : option N :=
  match k with
  | EmptyString => None
  | String c rest =>
      if (c =? "0")%char && negb (rest =? "") then None
      else match digits_value k 0 with
           | Some n => if (n <? 4294967295)%N then Some n else None
           | None => None
           end
  end.

(** A new key [k] is listed before the existing key [k']. *)
Definition comes_before (k k' : string) : bool :=
  match array_index k with
  | None => false
  | Some i =>
      match array_index k' with
      | None => true
      | Some j => (i <? j)%N
      end
  end.

Section Ops.
Context {V : Type}.

(** [Object.keys(o)] *)
Definition keys (o : t V) : list string := map fst o.

(** [o[k]], [None] for [undefined]. *)
Fixpoint get (o : t V) (k : string) : option V :=
  match o with
  | [] => None
  | (k', v) :: rest => if k' =? k then Some v else get rest k
  end.

Definition has (o : t V) (k : string) : bool :=
  match get o k with Some _ => true | None => false end.

Fixpoint replace (k : string) (v : V) (o : t V) : t V :=
  match o with
  | [] => []
  | (k', v') :: rest =>
      if k' =? k then (k, v) :: rest else (k', v') :: replace k v rest
  end.

Fixpoint insert (k : string) (v : V) (o : t V) : t V :=
  match o with
  | [] => [(k, v)]
  | (k', v') :: rest =>
      if comes_before k k' then (k, v) :: o else (k', v') :: insert k v rest
  end.

(** [o[k] = v].  Assigning to ["__proto__"] runs the setter inherited
    from [Object.prototype] and creates no own property. *)
Definition set (o : t V) (k : string) (v : V) : t V :=
  if k =? "__proto__" then o
  else if has o k then replace k v o
  else insert k v o.

(** The pairs [(k, o[k])] for [k] of [Object.keys(o)]. *)
Definition entries (o : t V) : list (string * V) :=
  flat_map (fun k => match get o k with
                     | Some v => [(k, v)]
                     | None => []
                     end) (keys o).
End Ops.

End JsObject.

(* ================================================================== *)
(** ** Node's [path] module (POSIX flavour) *)
(* ================================================================== *)

Module Path.

(** The segment stack of [normalizeString]: empty and ["."] segments are
    skipped, [".."] pops the last segment unless there is none or it is
    [".."] itself, in which case it is kept only when [allowAboveRoot]. *)
Fixpoint normalize_go (allowAboveRoot : bool) (res_rev segs : list string)
  : list string :=
  match segs with
  | [] => rev res_rev
  | seg :: rest =>
      if (seg =? "") || (seg =? ".") then normalize_go allowAboveRoot res_rev rest
      else if seg =? ".." then
        match res_rev with
        | last :: res' =>
            if last =? ".."
            then normalize_go allowAboveRoot
                   (if allowAboveRoot then ".." :: res_rev else res_rev) rest
            else normalize_go allowAboveRoot res' rest
        | [] =>
            normalize_go allowAboveRoot
              (if allowAboveRoot then [".."] else []) rest
        end
      else normalize_go allowAboveRoot (seg :: res_rev) rest
  end.

Definition normalizeSegments (path : string) (allowAboveRoot : bool) : list string :=
  normalize_go allowAboveRoot [] (JsString.split path "/").

Definition normalizeString (path : string) (allowAboveRoot : bool) : string :=
  JsString.join (normalizeSegments path allowAboveRoot) "/".

(** [path.normalize(p)] *)
Definition normalize (path : string) : string :=
  if path =? "" then "."
  else
    let isAbsolute := JsString.startsWith path "/" in
    let trailingSeparator := JsString.endsWith path "/" in
    let path' := normalizeString path (negb isAbsolute) in
    if path' =? "" then
      if isAbsolute then "/" else if trailingSeparator then "./" else "."
    else
      let path'' := if trailingSeparator then path' ++ "/" else path' in
      if isAbsolute then "/" ++ path'' else path''.

(** [path.join(...args)] *)
Definition join (args : list string) : string :=
  match filter (fun arg => negb (arg =? "")) args with
  | [] => "."
  | parts => normalize (JsString.join parts "/")
  end.

(** The backwards scan of [path.dirname]: [rev_tail] holds the characters
    at indices [i], [i-1], ..., [1]. *)
Fixpoint dirname_scan (rev_tail : list ascii) (i : nat) (matchedSlash : bool)
  : option nat :=
  match rev_tail with
  | [] => None
  | c :: rest =>
      if (c =? "/")%char
      then if matchedSlash then dirname_scan rest (i - 1) true else Some i
      else dirname_scan rest (i - 1) false
  end.

(** [path.dirname(p)] *)
Definition dirname (path : string) : string :=
  if path =? "" then "."
  else
    let hasRoot := JsString.startsWith path "/" in
    match dirname_scan (rev (tl (list_ascii_of_string path)))
            (String.length path - 1) true with
    | None => if hasRoot then "/" else "."
    | Some e =>
        if hasRoot && (e =? 1)%nat then "//" else String.substring 0 e path
    end.

End Path.

(* ================================================================== *)
(** ** The file system seen through Node's [fs] module *)
(* ================================================================== *)

(** [error.code] of a failed system call. *)
Inductive FsCode := ENOENT | ENOTDIR | EISDIR | EEXIST | ENXIO.

(** [error.syscall] *)
Inductive Syscall := Scandir | Open | Read | Mkdir.

(** What the program can throw. *)
Inductive JsError :=
| MissingApiKey                  (* 'OpenAI API key not found. ...' *)
| ApiFailure (msg : string)      (* the client rejects: network, auth, ... *)
| ToolNotFound (toolName : string)
| SyntaxError                    (* JSON.parse *)
| TypeError                      (* a property read on undefined or null *)
| InvalidArgType                 (* [path.join] of a value that is no string *)
| FsError (code : FsCode) (syscall : Syscall) (path : string).

Inductive Result (A : Type) :=
| Ok (a : A)
| Throw (e : JsError).
Arguments Ok {A} a.
Arguments Throw {A} e.

Module Fs.

(** A directory entry: a regular file with its text, a directory with its
    entries in [readdir] order, or something that is neither (a socket, a
    link that is not followed, ...). *)
Inductive Entry :=
| File (name : string) (text : string)
| Directory (name : string) (children : list Entry)
| Other (name : string).

(** [entry.name] *)
Definition entry_name (e : Entry) : string :=
  match e with
  | File n _ => n
  | Directory n _ => n
  | Other n => n
  end.

(** The whole file system: the entries of ["/"], which is also the
    working directory relative paths start from. *)
Definition t := list Entry.

Fixpoint find_entry (n : string) (entries : list Entry) : option Entry :=
  match entries with
  | [] => None
  | e :: rest => if entry_name e =? n then Some e else find_entry n rest
  end.

(** What a path denotes: the root, an entry, or nothing. *)
Inductive Node :=
| Root
| At (e : Entry).

Fixpoint walk (entries : list Entry) (segs : list string) : option Entry :=
  match segs with
  | [] => None
  | [seg] => find_entry seg entries
  | seg :: rest =>
      match find_entry seg entries with
      | Some (Directory _ children) => walk children rest
      | _ => None
      end
  end.

Definition is_directory (n : Node) : bool :=
  match n with
  | Root => true
  | At (Directory _ _) => true
  | At _ => false
  end.

(** Path resolution: the parent of the root is the root, and a trailing
    separator demands a directory.  The path is normalised first, so [..]
    cancels the component before it without looking it up: that is the
    system's answer when that component is a directory of the tree, and
    the tree has no links. *)
Definition lookup (fs : t) (path : string) : option Node :=
  if path =? "" then None
  else
    let found :=
      match Path.normalizeSegments path false with
      | [] => Some Root
      | segs => option_map At (walk fs segs)
      end in
    match found with
    | Some n =>
        if JsString.endsWith path "/" && negb (is_directory n) then None
        else Some n
    | None => None
    end.

(** Why the directories on the way to the last component cannot be passed:
    one is missing, or is no directory. *)
Fixpoint parent_failure (entries : list Entry) (segs : list string)
  : option FsCode :=
  match segs with
  | [] => None
  | [_] => None
  | seg :: rest =>
      match find_entry seg entries with
      | Some (Directory _ children) => parent_failure children rest
      | Some _ => Some ENOTDIR
      | None => Some ENOENT
      end
  end.

(** [error.code] when [path] cannot be opened as a regular file;
    [creating] when the file is opened for writing. *)
Definition open_failure (creating : bool) (fs : t) (path : string) : FsCode :=
  if path =? "" then ENOENT
  else
    let segs := Path.normalizeSegments path false in
    match parent_failure fs segs with
    | Some code => code
    | None =>
        match segs with
        | [] => EISDIR
        | _ =>
            match walk fs segs with
            | Some (Directory _ _) => EISDIR
            | Some (File _ _) => ENOTDIR
            | Some (Other _) =>
                if JsString.endsWith path "/" then ENOTDIR else ENXIO
            | None =>
                if creating && JsString.endsWith path "/" then EISDIR
                else ENOENT
            end
        end
    end.

(** [error.code] when [dir] cannot be listed. *)
Definition scandir_failure (fs : t) (dir : string) : FsCode :=
  let segs := Path.normalizeSegments dir false in
  match parent_failure fs segs with
  | Some code => code
  | None =>
      match walk fs segs with
      | Some _ => ENOTDIR
      | None => ENOENT
      end
  end.

(** [fs.existsSync(path)] *)
Definition existsSync (fs : t) (path : string) : bool :=
  match lookup fs path with Some _ => true | None => false end.

(** [fs.readdirSync(dir, { withFileTypes: true })] *)
Definition readdirSync (fs : t) (dir : string) : Result (list Entry) :=
  match lookup fs dir with
  | Some Root => Ok fs
  | Some (At (Directory _ children)) => Ok children
  | _ => Throw (FsError (scandir_failure fs dir) Scandir dir)
  end.

(** [fs.readFileSync(path, 'utf-8')] *)
Definition readFileSync (fs : t) (path : string) : Result string :=
  match lookup fs path with
  | Some (At (File _ text)) => Ok text
  | _ =>
      match open_failure false fs path with
      | EISDIR => Throw (FsError EISDIR Read path)
      | code => Throw (FsError code Open path)
      end
  end.

(** Replace the first entry called [n]. *)
Fixpoint replace_entry (n : string) (e' : Entry) (entries : list Entry)
  : list Entry :=
  match entries with
  | [] => []
  | e :: rest =>
      if entry_name e =? n then e' :: rest else e :: replace_entry n e' rest
  end.

(** Create the directories along [segs] that are missing; [None] when a
    component exists and is no directory.  A new entry is listed last. *)
Fixpoint make_directories (entries : list Entry) (segs : list string)
  : option (list Entry) :=
  match segs with
  | [] => Some entries
  | seg :: rest =>
      match find_entry seg entries with
      | Some (Directory _ children) =>
          option_map
            (fun children' => replace_entry seg (Directory seg children') entries)
            (make_directories children rest)
      | Some _ => None
      | None =>
          option_map
            (fun children' => (entries ++ [Directory seg children'])%list)
            (make_directories [] rest)
      end
  end.

(** [fs.mkdirSync(dir, { recursive: true })] *)
Definition mkdirSync (fs : t) (dir : string) : Result t :=
  if dir =? "" then Throw (FsError ENOENT Mkdir dir)
  else
    let segs := Path.normalizeSegments dir false in
    match make_directories fs segs with
    | Some fs' => Ok fs'
    | None =>
        match parent_failure fs segs with
        | Some _ => Throw (FsError ENOTDIR Mkdir dir)
        | None => Throw (FsError EEXIST Mkdir dir)
        end
    end.

(** Put a regular file with [text] at [segs]: the parent must be a
    directory, and what is there already a regular file. *)
Fixpoint write_at (entries : list Entry) (segs : list string) (text : string)
  : option (list Entry) :=
  match segs with
  | [] => None
  | [seg] =>
      match find_entry seg entries with
      | Some (File _ _) => Some (replace_entry seg (File seg text) entries)
      | Some _ => None
      | None => Some (entries ++ [File seg text])%list
      end
  | seg :: rest =>
      match find_entry seg entries with
      | Some (Directory _ children) =>
          option_map
            (fun children' => replace_entry seg (Directory seg children') entries)
            (write_at children rest text)
      | _ => None
      end
  end.

(** [fs.writeFileSync(path, text, 'utf-8')] *)
Definition writeFileSync (fs : t) (path text : string) : Result t :=
  if (path =? "") || JsString.endsWith path "/"
  then Throw (FsError (open_failure true fs path) Open path)
  else
    match write_at fs (Path.normalizeSegments path false) text with
    | Some fs' => Ok fs'
    | None => Throw (FsError (open_failure true fs path) Open path)
    end.

End Fs.

(* ================================================================== *)
(** ** [src/types.ts] *)
(* ================================================================== *)

Inductive Role := system | user | assistant | tool.

Record Message := {
  role : Role;
  content : string;
  name : option string
}.

Record Conversation := { messages : list Message }.

(** [interface Module] *)
Record ModuleEntry := {
  description : option string;
  calling : JsObject.t string;
  callers : JsObject.t string
}.

Record ModuleMap := { modules : JsObject.t ModuleEntry }.

(** [interface OpenAITool].  [parameters] maps a parameter name to its
    JSON-schema fragment; [execute] receives the parsed arguments. *)
Record ParameterSchema := {
  param_type : string;
  param_description : string;
  param_optional : bool
}.

Definition ToolArguments := JsObject.t string.

Record OpenAITool := {
  tool_name : string;
  tool_description : string;
  tool_parameters : JsObject.t ParameterSchema;
  tool_execute : ToolArguments -> Result string
}.

(* ================================================================== *)
(** ** [src/openai-tools.ts] *)
(* ================================================================== *)

(** [toolCall.function.name] and [toolCall.function.arguments] *)
Record ToolCall := {
  call_name : string;
  call_arguments : string
}.

(** [response.choices[i].message] *)
Record AssistantMessage := {
  reply_content : option string;
  reply_tool_calls : option (list ToolCall)
}.

(** One answer of [openai.chat.completions.create]. *)
Inductive ApiOutcome :=
| ApiRejects (msg : string)
| ApiResponse (choices : list AssistantMessage).

Record FunctionSchema := {
  fn_name : string;
  fn_description : string;
  fn_properties : JsObject.t ParameterSchema;
  fn_required : list string
}.

(** The argument of [openai.chat.completions.create]. *)
Record Request := {
  req_model : string;
  req_messages : list (Role * string);
  req_tools : option (list FunctionSchema);
  req_tool_choice : option string;
  req_response_format : option string
}.

(** The process and its surroundings: the disk, whether the module-level
    [openai] client was built, the answers the API is still going to give
    (once they are used up the API is unreachable) and the requests sent so
    far. *)
Record World := {
  disk : Fs.t;
  openai : bool;
  pending : list ApiOutcome;
  sent : list Request
}.

(** Computations that read and change the world and may throw. *)
Definition M (A : Type) : Type := World -> World * Result A.

Definition ret {A : Type} (a : A) : M A := fun w => (w, Ok a).

Definition throw {A : Type} (e : JsError) : M A := fun w => (w, Throw e).

Definition bind {A B : Type} (m : M A) (k : A -> M B) : M B :=
  fun w =>
    match m w with
    | (w', Ok a) => k a w'
    | (w', Throw e) => (w', Throw e)
    end.

Definition lift {A : Type} (r : Result A) : M A := fun w => (w, r).

Notation "x <- m ;; k" := (bind m (fun x => k))
  (at level 61, m at next level, right associativity).

(** [for (const x of xs) { acc = body(acc, x) }] with a body that may throw. *)
Fixpoint forOf {A S : Type} (body : S -> A -> M S) (xs : list A) (acc : S) : M S :=
  match xs with
  | [] => ret acc
  | x :: rest => acc' <- body acc x ;; forOf body rest acc'
  end.

(** [createTool(name, description, parameters, executeFn)] *)
Definition createTool (name description : string)
    (parameters : JsObject.t ParameterSchema)
    (executeFn : ToolArguments -> Result string) : OpenAITool :=
  {| tool_name := name;
     tool_description := description;
     tool_parameters := parameters;
     tool_execute := executeFn |}.

(** [createConversation(systemPrompt?)] *)
Definition createConversation (systemPrompt : option string) : Conversation :=
  match systemPrompt with
  | None | Some EmptyString => {| messages := [] |}
  | Some prompt =>
      {| messages := [ {| role := system; content := prompt; name := None |} ] |}
  end.

(** [addUserMessage(conversation, content)] *)
Definition addUserMessage (conversation : Conversation) (text : string) : Conversation :=
  {| messages :=
       (messages conversation ++
        [ {| role := user; content := text; name := None |} ])%list |}.

(** [value || fallback] for a string that may be null, undefined or empty. *)
Definition orElse (value : option string) (fallback : string) : string :=
  match value with
  | None | Some EmptyString => fallback
  | Some s => s
  end.

Definition openaiToolOf (t : OpenAITool) : FunctionSchema :=
  {| fn_name := tool_name t;
     fn_description := tool_description t;
     fn_properties := tool_parameters t;
     fn_required :=
       map fst
         (filter (fun '(_, schema) => negb (param_optional schema))
                 (JsObject.entries (tool_parameters t))) |}.

(** The [messages] sent to the API: tool messages become user messages. *)
Definition apiMessageOf (msg : Message) : Role * string :=
  match role msg with
  | system => (system, content msg)
  | user => (user, content msg)
  | assistant => (assistant, content msg)
  | tool =>
      (user, "Tool " ++ orElse (name msg) "unknown" ++ " response: " ++ content msg)
  end.

Definition requestOf (conversation : Conversation) (tools : list OpenAITool)
    (forceJSON : option bool) : Request :=
  let openaiTools := map openaiToolOf tools in
  {| req_model := "gpt-4.1-mini-2025-04-14";
     req_messages := map apiMessageOf (messages conversation);
     req_tools := match openaiTools with [] => None | _ => Some openaiTools end;
     req_tool_choice := match openaiTools with [] => None | _ => Some "auto" end;
     req_response_format :=
       match forceJSON with
       | Some true => Some "json_object"
       | _ => None
       end |}.

(** [toolMap.get(toolName)] for the map filled by [tools.forEach]: a later
    tool replaces an earlier one of the same name. *)
Definition toolMapGet (tools : list OpenAITool) (toolName : string) : option OpenAITool :=
  find (fun t => tool_name t =? toolName) (rev tools).

Section OpenAI.

(** [JSON.parse] on the arguments of a tool call; [None] when it throws. *)
Variable JSON_parse_arguments : string -> option ToolArguments.

(** The loop over [assistantMessage.tool_calls]. *)
Fixpoint runToolCalls (tools : list OpenAITool) (calls : list ToolCall)
    (updatedConversation : Conversation) : Result Conversation :=
  match calls with
  | [] => Ok updatedConversation
  | toolCall :: rest =>
      let toolName := call_name toolCall in
      match toolMapGet tools toolName with
      | None => Throw (ToolNotFound toolName)
      | Some t =>
          match JSON_parse_arguments (call_arguments toolCall) with
          | None => Throw SyntaxError
          | Some args =>
              match tool_execute t args with
              | Throw e => Throw e
              | Ok toolResult =>
                  runToolCalls tools rest
                    {| messages :=
                         (messages updatedConversation ++
                          [ {| role := tool; content := toolResult;
                               name := Some toolName |} ])%list |}
              end
          end
      end
  end.

(** [callOpenAI], by recursion on the answers the API still has to give.
    [client] tells whether the [openai] client exists. *)
Fixpoint callOpenAI_from (client : bool) (answers : list ApiOutcome)
    (requests : list Request) (conversation : Conversation)
    (tools : list OpenAITool) (forceJSON : option bool)
  : (list ApiOutcome * list Request) * Result (string * Conversation) :=
  if negb client then ((answers, requests), Throw MissingApiKey)
  else
    let requests' := (requests ++ [requestOf conversation tools forceJSON])%list in
    match answers with
    | [] => (([], requests'), Throw (ApiFailure "Connection error."))
    | ApiRejects msg :: rest => ((rest, requests'), Throw (ApiFailure msg))
    | ApiResponse choices :: rest =>
        match choices, messages conversation with
        | [], _ => ((rest, requests'), Throw TypeError)
        | _ :: _, [] => ((rest, requests'), Throw TypeError)
        | assistantMessage :: _, _ :: _ =>
            let updatedConversation :=
              {| messages :=
                   (messages conversation ++
                    [ {| role := assistant;
                         content := orElse (reply_content assistantMessage) "";
                         name := None |} ])%list |} in
            match reply_tool_calls assistantMessage with
            | Some (toolCall :: moreCalls) =>
                match runToolCalls tools (toolCall :: moreCalls) updatedConversation with
                | Throw e => ((rest, requests'), Throw e)
                | Ok updatedConversation' =>
                    callOpenAI_from client rest requests' updatedConversation' tools None
                end
            | _ =>
                ((rest, requests'),
                 Ok (orElse (reply_content assistantMessage) "", updatedConversation))
            end
        end
    end.

(** [callOpenAI(conversation, tools, forceJSON?)]: the response text and
    the updated conversation. *)
Definition callOpenAI (conversation : Conversation) (tools : list OpenAITool)
    (forceJSON : option bool) : M (string * Conversation) :=
  fun w =>
    let '((answers, requests), r) :=
      callOpenAI_from (openai w) (pending w) (sent w) conversation tools forceJSON in
    ({| disk := disk w; openai := openai w; pending := answers; sent := requests |}, r).

End OpenAI.

(* ================================================================== *)
(** ** [src/utils.ts] *)
(* ================================================================== *)

(** [path.relative(directory, path.join(dir, entry.name))], where [relDir]
    is [dir] relative to [directory] (empty for [directory] itself). *)
Definition relativeTo (relDir entryName : string) : string :=
  if relDir =? "" then entryName else relDir ++ "/" ++ entryName.

(** The test on a file name in [traverseDirectory], as the current
    [utils.ts] has it. *)
Definition eligibleName (n : string) : bool :=
  (JsString.endsWith n ".ts" || JsString.endsWith n ".tsx")
  && negb (JsString.endsWith n ".d.ts")
  && negb (JsString.endsWith n ".test.ts")
  && negb (JsString.endsWith n ".config.ts").

(** The same test in the earlier [utils.ts], where config files pass. *)
Definition eligibleNameEarlier (n : string) : bool :=
  (JsString.endsWith n ".ts" || JsString.endsWith n ".tsx")
  && negb (JsString.endsWith n ".d.ts")
  && negb (JsString.endsWith n ".test.ts").

(** The test on a directory name in [traverseDirectory]. *)
Definition visibleDirectory (n : string) : bool :=
  negb (JsString.startsWith n ".") && negb (n =? "node_modules").

(** One iteration of the loop of [traverseDirectory], with the test on
    file names as a parameter; the recursive call reads the entries of the
    sub-directory. *)
Fixpoint traverseEntry (eligible : string -> bool) (relDir : string)
    (entry : Fs.Entry) : list string :=
  let relativePath := relativeTo relDir (Fs.entry_name entry) in
  match entry with
  | Fs.Directory n children =>
      if visibleDirectory n
      then flat_map (traverseEntry eligible relativePath) children
      else []
  | Fs.File n _ =>
      if eligible n then [relativePath] else []
  | Fs.Other _ => []
  end.

Definition traverseDirectory (eligible : string -> bool) (relDir : string)
    (entries : list Fs.Entry) : list string :=
  flat_map (traverseEntry eligible relDir) entries.

(** [getTypescriptFiles(directory)] *)
Definition getTypescriptFiles (fs : Fs.t) (directory : string) : Result (list string) :=
  match Fs.readdirSync fs directory with
  | Ok entries => Ok (traverseDirectory eligibleName "" entries)
  | Throw e => Throw e
  end.

(** [getTypescriptFiles(directory)] of the earlier [utils.ts]. *)
Definition getTypescriptFilesEarlier (fs : Fs.t) (directory : string)
  : Result (list string) :=
  match Fs.readdirSync fs directory with
  | Ok entries => Ok (traverseDirectory eligibleNameEarlier "" entries)
  | Throw e => Throw e
  end.

(** [getFileContent(directory, filePath)] *)
Definition getFileContent (fs : Fs.t) (directory filePath : string) : Result string :=
  Fs.readFileSync fs (Path.join [directory; filePath]).

(** The candidates [possiblePaths] of [resolveImportPath]. *)
Definition possiblePaths (resolvedPath : string) : list string :=
  [ resolvedPath;
    resolvedPath ++ ".ts";
    resolvedPath ++ ".tsx";
    Path.join [resolvedPath; "index.ts"];
    Path.join [resolvedPath; "index.tsx"] ].

Definition resolvedPathOf (importPath importingFilePath : string) : string :=
  let importingDir := Path.dirname importingFilePath in
  Path.normalize (Path.join [importingDir; importPath]).

(** [resolveImportPath(importPath, importingFilePath, baseDirectory)] *)
Definition resolveImportPath (fs : Fs.t)
    (importPath importingFilePath baseDirectory : string) : string :=
  if negb (JsString.startsWith importPath ".") then importPath
  else
    let resolvedPath := resolvedPathOf importPath importingFilePath in
    match find (fun possiblePath =>
                  Fs.existsSync fs (Path.join [baseDirectory; possiblePath]))
               (possiblePaths resolvedPath) with
    | Some possiblePath => possiblePath
    | None => resolvedPath ++ ".ts"
    end.

(** [Array.prototype.sort()] on strings: ascending by code unit. *)
Fixpoint sort_insert (k : string) (sorted : list string) : list string :=
  match sorted with
  | [] => [k]
  | k' :: rest =>
      if JsString.leb k k' then k :: sorted else k' :: sort_insert k rest
  end.

Definition sort (l : list string) : list string :=
  fold_right sort_insert [] l.

(** [sortObjectKeys(obj)] *)
Definition sortObjectKeys {V : Type} (obj : JsObject.t V) : JsObject.t V :=
  fold_left
    (fun result key =>
       match JsObject.get obj key with
       | Some v => JsObject.set result key v
       | None => result
       end)
    (sort (JsObject.keys obj)) JsObject.empty.

Section Yaml.

(** [yaml.dump(moduleMap, { indent: 2, lineWidth: 100, noRefs: true })] *)
Variable yaml_dump : ModuleMap -> string.

(** [saveMapAsYaml(moduleMap, outputPath)], returning the disk it leaves. *)
Definition saveMapAsYaml (fs : Fs.t) (moduleMap : ModuleMap) (outputPath : string)
  : Result Fs.t :=
  let outputDir := Path.dirname outputPath in
  let made :=
    if negb (Fs.existsSync fs outputDir) then Fs.mkdirSync fs outputDir
    else Ok fs in
  match made with
  | Ok fs' => Fs.writeFileSync fs' outputPath (yaml_dump moduleMap)
  | Throw e => Throw e
  end.

End Yaml.

(** [[...new Set(modules)]]: the first occurrence of every element, in
    order; [seen] holds what the set has already. *)
Fixpoint dedupe (seen l : list string) : list string :=
  match l with
  | [] => []
  | x :: rest =>
      if existsb (String.eqb x) seen then dedupe seen rest
      else x :: dedupe (x :: seen) rest
  end.

Section ImportExtraction.

(** [line.match(/from\s+['"](.+?)['"]/)]: the first capture group of the
    match, [None] when the line does not match. *)
Variable match_from : string -> option string.

(** What one iteration of the loop of [extractCalledModules] pushes. *)
Definition calledModulesOf (fs : Fs.t) (directory filePath line : string)
  : list string :=
  match match_from line with
  | Some importPath =>
      if importPath =? "" then []
      else if negb (JsString.startsWith importPath ".")
              && negb (JsString.startsWith importPath "/") then []
      else if negb (filePath =? "") then
        let resolvedPath := resolveImportPath fs importPath filePath directory in
        if negb (resolvedPath =? importPath) then [resolvedPath] else []
      else [importPath]
  | None => []
  end.

(** [extractCalledModules(importLines, directory, filePath)]; the default
    of [filePath] is the empty string. *)
Definition extractCalledModules (fs : Fs.t)
    (importLines directory filePath : string) : list string :=
  if importLines =? "" then []
  else
    dedupe []
      (flat_map (calledModulesOf fs directory filePath)
                (JsString.split importLines JsString.nl)).

End ImportExtraction.

(** [s.replace(/`/g, '')] *)
Fixpoint removeTicks (s : string) : string :=
  match s with
  | EmptyString => ""
  | String c rest =>
      if (c =? "`")%char then removeTicks rest else String c (removeTicks rest)
  end.

Section DescriptionExtraction.

(** [response.match(/description:?\s*(.*?)(?:\n|$)/i)]: the first capture
    group of the match, [None] when there is no match. *)
Variable match_description : string -> option string.

(** [s.replace(/^[#\s*-]+/, '')] *)
Variable strip_markers : string -> string.

(** [extractDescription(response)] *)
Definition extractDescription (response : string) : Result string :=
  if response =? "" then Ok ""
  else
    let fromParagraphs :=
      match JsString.split response (JsString.nl ++ JsString.nl) with
      | paragraph :: _ =>
          Ok (JsString.trim (removeTicks (strip_markers paragraph)))
      | [] =>
          match JsString.split response JsString.nl with
          | line :: _ => Ok (JsString.trim line)
          | [] => Throw TypeError
          end
      end in
    match match_description response with
    | Some description =>
        if description =? "" then fromParagraphs
        else Ok (JsString.trim description)
    | None => fromParagraphs
    end.

End DescriptionExtraction.


(* ================================================================== *)
(** ** [src/module-map.ts]: the graph assembly *)
(* ================================================================== *)

(** What [const {description, modules} = JSON.parse(response) as
    ReturnFormat] binds when [Object.keys(modules)] can be taken: the cast
    checks nothing, so [description] is [None] ([undefined]) for a reply
    that has none.  A value that is no string is carried like one: the
    code never looks into it. *)
Record ReturnFormat := {
  rf_description : option string;
  rf_modules : JsObject.t string
}.

(** The outcomes of lines 87 to 91 on a response. *)
Inductive ParsedReply :=
| NotJson                  (* [JSON.parse] throws a SyntaxError *)
| NoModules                (* no object, or [modules] is [undefined] or
                              [null]: a TypeError *)
| Parsed (r : ReturnFormat).

(** [moduleDescriptions]: a property may hold [undefined]. *)
Definition Descriptions := JsObject.t (option string).

(** The key [`${file}->${modulePath}`] of [callingReasons]. *)
Definition edgeKey (file modulePath : string) : string :=
  file ++ "->" ++ modulePath.

(** [const [module1, module2] = pathPairs.split("->")] *)
Definition decodeKey (pathPairs : string) : option string * option string :=
  let parts := JsString.split pathPairs "->" in
  (nth_error parts 0, nth_error parts 1).

(** The second half of the analysis loop body: store the description and
    one [callingReasons] entry per key of [modules]. *)
Definition recordEdge (file : string) (callingReasons : JsObject.t string)
    (entry : string * string) : JsObject.t string :=
  let '(modulePath, reason) := entry in
  JsObject.set callingReasons (edgeKey file modulePath) reason.

Definition recordAnalysis (file : string) (r : ReturnFormat)
    (st : JsObject.t string * Descriptions)
  : JsObject.t string * Descriptions :=
  let '(callingReasons, moduleDescriptions) := st in
  (fold_left (recordEdge file) (JsObject.entries (rf_modules r)) callingReasons,
   JsObject.set moduleDescriptions file (rf_description r)).

(** One iteration of the inner loop of the assembly, for [file]. *)
Definition edgeStep (file : string)
    (acc : JsObject.t string * JsObject.t string) (entry : string * string)
  : JsObject.t string * JsObject.t string :=
  let '(calls, callers) := acc in
  let '(pathPairs, reason) := entry in
  let '(module1, module2) := decodeKey pathPairs in
  if JsString.strict_eq module1 file
  then (JsObject.set calls (JsString.property_key module2) reason, callers)
  else if JsString.strict_eq module2 file
  then (calls, JsObject.set callers (JsString.property_key module1) reason)
  else (calls, callers).

(** The inner loop of the assembly: [calls] and [callers] of [file]. *)
Definition edgesOf (callingReasons : JsObject.t string) (file : string)
  : JsObject.t string * JsObject.t string :=
  fold_left (edgeStep file) (JsObject.entries callingReasons)
    (JsObject.empty, JsObject.empty).

(** The value stored in [moduleMap.modules[file]]. *)
Definition moduleEntryOf (callingReasons : JsObject.t string)
    (moduleDescriptions : Descriptions) (file : string) : ModuleEntry :=
  let '(calls, callers) := edgesOf callingReasons file in
  {| description :=
       match JsObject.get moduleDescriptions file with
       | Some description => description
       | None => None
       end;
     calling := calls;
     callers := callers |}.

(** The second loop of [createModuleMap]. *)
Definition assemble (files : list string)
    (callingReasons : JsObject.t string) (moduleDescriptions : Descriptions)
  : ModuleMap :=
  {| modules :=
       fold_left
         (fun ms file =>
            JsObject.set ms file
              (moduleEntryOf callingReasons moduleDescriptions file))
         files JsObject.empty |}.

(* ================================================================== *)
(** ** [src/module-map.ts]: the analysis loop and [createModuleMap] *)
(* ================================================================== *)

Import JsString (dq, nl).

Definition code_name (code : FsCode) : string :=
  match code with
  | ENOENT => "ENOENT"
  | ENOTDIR => "ENOTDIR"
  | EISDIR => "EISDIR"
  | EEXIST => "EEXIST"
  | ENXIO => "ENXIO"
  end.

Definition code_text (code : FsCode) : string :=
  match code with
  | ENOENT => "no such file or directory"
  | ENOTDIR => "not a directory"
  | EISDIR => "illegal operation on a directory"
  | EEXIST => "file already exists"
  | ENXIO => "no such device or address"
  end.

Definition syscall_name (syscall : Syscall) : string :=
  match syscall with
  | Scandir => "scandir"
  | Open => "open"
  | Read => "read"
  | Mkdir => "mkdir"
  end.

(** [error.message].  The tool below is its one user, and what its [try]
    block can throw is an [InvalidArgType] or an [FsError]; the wording of
    a [SyntaxError] and of a [TypeError] depends on the text parsed and on
    the property read: they stand here by the first word of V8's texts. *)
Definition errorMessage (e : JsError) : string :=
  match e with
  | MissingApiKey =>
      "OpenAI API key not found. Please set the OPENAI_API_KEY environment variable."
  | ApiFailure msg => msg
  | ToolNotFound toolName => "Tool " ++ dq ++ toolName ++ dq ++ " not found"
  | SyntaxError => "Unexpected "
  | TypeError => "Cannot "
  | InvalidArgType =>
      "The " ++ dq ++ "path" ++ dq
      ++ " argument must be of type string. Received undefined"
  | FsError code syscall path =>
      code_name code ++ ": " ++ code_text code ++ ", " ++ syscall_name syscall
      ++ match syscall with
         | Read => ""
         | _ => " '" ++ path ++ "'"
         end
  end.

(** [createGetImportLinesTool(directory)] *)
Definition createGetImportLinesTool (fs : Fs.t) (directory : string) : OpenAITool :=
  createTool
    "get_import_lines"
    "Get all import lines from a TypeScript file"
    [ ("filePath",
       {| param_type := "string";
          param_description :=
            "Path to the TypeScript file relative to the base directory";
          param_optional := false |}) ]
    (fun args =>
       let read :=
         match JsObject.get args "filePath" with
         | Some filePath => getFileContent fs directory filePath
         | None => Throw InvalidArgType
         end in
       match read with
       | Ok text =>
           let lines := JsString.split text nl in
           let importLines :=
             filter (fun line =>
                       let trimmed := JsString.trim line in
                       JsString.startsWith trimmed "import"
                       && negb (JsString.startsWith trimmed "//")
                       && negb (JsString.startsWith trimmed "/*")) lines in
           Ok (JsString.join
                 (map (fun line => "<import_line>" ++ line ++ "</import_line>")
                      importLines) nl)
       | Throw e => Ok ("Error getting import lines: " ++ errorMessage e)
       end).

(** The user message of the analysis: the template literal of
    [createModuleMap]. *)
Definition analysisPrompt (files : list string) (file text : string) : string :=
  "I'm going to give you the contents of a TypeScript file. in <content> tags.
      I want you to return in JSON format a description of the file's purpose.
      All the modules that are imported in the file and why they are imported.

      <example>
      {
        " ++ dq ++ "description" ++ dq ++ ": " ++ dq ++
  "This file exports a function that takes an object and returns a string." ++ dq ++ ",
        " ++ dq ++ "modules" ++ dq ++ ": {
          " ++ dq ++ "file.ts" ++ dq ++ ": " ++ dq ++
  "We use file.ts to read the contents of a file." ++ dq ++ "
          " ++ dq ++ "cats.ts" ++ dq ++ ": " ++ dq ++
  "cats.ts tells us facts about cats." ++ dq ++ "
          }
        }
      }
      </example>

      Do not include imports for 3rd parties here are the only files you can use:
      <files>
      " ++ JsString.join (map (fun f => "<file>" ++ f ++ "</file>") files) nl ++ "
      </files>

      Very important: the import statements may be relative to the current file.
      So if we are in src/animals/cats.ts and we are importing ../utils/read.ts
      Then the module needs to read src/utils/read.ts. not ../utils/read.ts.

      <filename>" ++ file ++ "</filename>
      <content>
      " ++ text ++ "
      </content>
      ".

Definition getDisk : M Fs.t := fun w => (w, Ok (disk w)).

Section ModuleMap.

Variable JSON_parse_arguments : string -> option ToolArguments.

(** [JSON.parse(response)], taken apart into [description] and
    [modules]. *)
Variable JSON_parse_reply : string -> ParsedReply.

(** The first half of the body of the analysis loop: read the file, ask
    the oracle, parse its answer. *)
Definition askOracle (fs : Fs.t) (directory : string) (files : list string)
    (tools : list OpenAITool) (file : string) : M ReturnFormat :=
  text <- lift (getFileContent fs directory file) ;;
  let conversation :=
    addUserMessage (createConversation None) (analysisPrompt files file text) in
  answer <- callOpenAI JSON_parse_arguments conversation tools (Some true) ;;
  match JSON_parse_reply (fst answer) with
  | NotJson => throw SyntaxError
  | NoModules => throw TypeError
  | Parsed r => ret r
  end.

(** The body of the first loop of [createModuleMap]. *)
Definition analyseFile (fs : Fs.t) (directory : string) (files : list string)
    (tools : list OpenAITool)
    (st : JsObject.t string * Descriptions) (file : string)
  : M (JsObject.t string * Descriptions) :=
  r <- askOracle fs directory files tools file ;;
  ret (recordAnalysis file r st).

(** [createModuleMap(directory)] *)
Definition createModuleMap (directory : string) : M ModuleMap :=
  fs <- getDisk ;;
  files <- lift (getTypescriptFiles fs directory) ;;
  let tools := [createGetImportLinesTool fs directory] in
  st <- forOf (analyseFile fs directory files tools) files
          (JsObject.empty, JsObject.empty) ;;
  ret (assemble files (fst st) (snd st)).

(** The oracle's parsed answers of a run, file by file, for stating what
    the map holds. *)
Fixpoint askAll (ask : string -> M ReturnFormat) (files : list string)
  : M (list (string * ReturnFormat)) :=
  match files with
  | [] => ret []
  | file :: rest =>
      r <- ask file ;;
      answers <- askAll ask rest ;;
      ret ((file, r) :: answers)
  end.

Definition oracleAnswers (directory : string) : M (list (string * ReturnFormat)) :=
  fs <- getDisk ;;
  files <- lift (getTypescriptFiles fs directory) ;;
  askAll (askOracle fs directory files [createGetImportLinesTool fs directory]) files.

End ModuleMap.


(* ================================================================== *)
(** ** Vocabulary of the statements *)
(* ================================================================== *)

(** A regular file named [n] lies in the tree [entries] below the chain of
    directories [dirs]. *)
Inductive locatedIn : list Fs.Entry -> list string -> string -> Prop :=
| located_here (entries : list Fs.Entry) (n text : string) :
    In (Fs.File n text) entries -> locatedIn entries [] n
| located_below (entries : list Fs.Entry) (d : string)
    (children : list Fs.Entry) (dirs : list string) (n : string) :
    In (Fs.Directory d children) entries ->
    locatedIn children dirs n ->
    locatedIn entries (d :: dirs) n.

(** The path, relative to the directory walked, of the file [n] below the
    directories [dirs]. *)
Definition relativePathOf (dirs : list string) (n : string) : string :=
  fold_left relativeTo (dirs ++ [n])%list "".

(** What one step of the walk lists: the eligible files reachable through
    visible directories, each under its relative path. *)
Definition walkSpec (eligible : string -> bool) (entries : list Fs.Entry)
    (rel p : string) : Prop :=
  exists dirs n,
    locatedIn entries dirs n /\
    forallb visibleDirectory dirs = true /\
    eligible n = true /\
    p = fold_left relativeTo (dirs ++ [n])%list rel.

(** The answers of a run folded into [callingReasons] and
    [moduleDescriptions], and the map assembled from them. *)
Definition recordAll (answers : list (string * ReturnFormat))
    (st : JsObject.t string * Descriptions)
  : JsObject.t string * Descriptions :=
  fold_left (fun st fr => recordAnalysis (fst fr) (snd fr) st) answers st.

Definition moduleMapOf (answers : list (string * ReturnFormat)) : ModuleMap :=
  let st := recordAll answers (JsObject.empty, JsObject.empty) in
  assemble (map fst answers) (fst st) (snd st).

(** Ascending order of strings by code unit, as [sort()] gives it. *)
Fixpoint isSorted (l : list string) : bool :=
  match l with
  | [] => true
  | a :: rest =>
      match rest with
      | [] => true
      | b :: _ => JsString.leb a b && isSorted rest
      end
  end.

(** The claim that the forward views stay inside the enumerated set. *)
Definition callingWithin (files : list string) (m : ModuleMap) : Prop :=
  forall A e B,
    JsObject.get (modules m) A = Some e ->
    In B (JsObject.keys (calling e)) -> In B files.

(** [fs.statSync(path).isDirectory()], false when nothing is there. *)
Definition isDirectorySync (fs : Fs.t) (path : string) : bool :=
  match Fs.lookup fs path with
  | Some n => Fs.is_directory n
  | None => false
  end.

(** The exclusions as the specification words them: declaration, test and
    config suffixes for every source extension. *)
Definition excludedForAnyExtension (n : string) : bool :=
  existsb (fun ext =>
             JsString.endsWith n (".d." ++ ext)
             || JsString.endsWith n (".test." ++ ext)
             || JsString.endsWith n (".config." ++ ext))
          ["ts"; "tsx"].

(** A path segment that [normalizeString] keeps as it is. *)
Definition cleanSegment (seg : string) : bool :=
  negb ((seg =? "") || (seg =? ".") || (seg =? "..")).

(** A name a directory entry can have. *)
Definition properName (n : string) : bool :=
  cleanSegment n && negb (JsString.includes n "/").

Fixpoint distinct (names : list string) : bool :=
  match names with
  | [] => true
  | n :: rest => negb (existsb (String.eqb n) rest) && distinct rest
  end.

(** An entry as a file system presents it: proper names, and no name
    twice in a directory. *)
Fixpoint wellFormed (e : Fs.Entry) : bool :=
  properName (Fs.entry_name e) &&
  match e with
  | Fs.Directory _ children =>
      distinct (map Fs.entry_name children) && forallb wellFormed children
  | _ => true
  end.

Definition wellFormedTree (entries : list Fs.Entry) : bool :=
  distinct (map Fs.entry_name entries) && forallb wellFormed entries.

(** Nothing but directories stands on the way along [segs]. *)
Fixpoint passable (entries : list Fs.Entry) (segs : list string) : bool :=
  match segs with
  | [] => true
  | seg :: rest =>
      match Fs.find_entry seg entries with
      | Some (Fs.Directory _ children) => passable children rest
      | Some _ => false
      | None => true
      end
  end.

(** At [segs] there is a regular file or nothing. *)
Definition writable (entries : list Fs.Entry) (segs : list string) : bool :=
  match Fs.walk entries segs with
  | Some (Fs.File _ _) | None => true
  | Some _ => false
  end.

(* ================================================================== *)
(** ** Sample projects and oracles *)
(* ================================================================== *)

Module Sample.

(** An oracle whose answers are read off a table instead of parsed: a
    response the table does not list is no JSON. *)
Definition replyTable (table : list (string * ReturnFormat)) (response : string)
  : ParsedReply :=
  match JsObject.get table response with
  | Some r => Parsed r
  | None => NotJson
  end.

Definition noArguments (arguments : string) : option ToolArguments := None.

Definition says (response : string) : ApiOutcome :=
  ApiResponse [ {| reply_content := Some response; reply_tool_calls := None |} ].

Definition worldOf (fs : Fs.t) (answers : list ApiOutcome) : World :=
  {| disk := fs; openai := true; pending := answers; sent := [] |}.

Definition run (table : list (string * ReturnFormat)) (directory : string)
    (w : World) : Result ModuleMap :=
  snd (createModuleMap noArguments (replyTable table) directory w).

(** One file that imports a package. *)
Definition packageUser : World :=
  worldOf [ Fs.Directory "app" [ Fs.File "a.ts" "import React from 'react'" ] ]
          [ says "A" ].

Definition packageUserTable : list (string * ReturnFormat) :=
  [ ("A", {| rf_description := Some "renders the page";
             rf_modules := [ ("react", "draws the components") ] |}) ].

(** Two files, the first importing the second with a relative path. *)
Definition relativeImport : World :=
  worldOf [ Fs.Directory "app"
              [ Fs.Directory "src"
                  [ Fs.File "a.ts" "import { b } from './b'";
                    Fs.File "b.ts" "export const b = 1" ] ] ]
          [ says "A"; says "B" ].

Definition relativeImportTable : list (string * ReturnFormat) :=
  [ ("A", {| rf_description := Some "entry point";
             rf_modules := [ ("./b", "uses helper") ] |});
    ("B", {| rf_description := Some "helper"; rf_modules := [] |}) ].

(** The scenario of the specification: [a.ts] imports [b.ts]. *)
Definition twoFiles : World :=
  worldOf [ Fs.Directory "app"
              [ Fs.File "a.ts" "import { b } from './b'";
                Fs.File "b.ts" "export const b = 1" ] ]
          [ says "A"; says "B" ].

Definition twoFilesTable : list (string * ReturnFormat) :=
  [ ("A", {| rf_description := Some "entry point";
             rf_modules := [ ("b.ts", "uses helper") ] |});
    ("B", {| rf_description := Some "helper"; rf_modules := [] |}) ].

Definition twoFilesMap : ModuleMap :=
  {| modules :=
       [ ("a.ts", {| description := Some "entry point";
                     calling := [ ("b.ts", "uses helper") ];
                     callers := [] |});
         ("b.ts", {| description := Some "helper";
                     calling := [];
                     callers := [ ("a.ts", "uses helper") ] |}) ] |}.

(** A file for which the oracle lists the file itself. *)
Definition selfImport : World :=
  worldOf [ Fs.Directory "app" [ Fs.File "a.ts" "import * as self from './a'" ] ]
          [ says "A" ].

Definition selfImportTable : list (string * ReturnFormat) :=
  [ ("A", {| rf_description := Some "refers to itself";
             rf_modules := [ ("a.ts", "imports itself") ] |}) ].

(** A directory listed before a file: the walk descends first. *)
Definition nested : World :=
  worldOf [ Fs.Directory "app"
              [ Fs.Directory "a" [ Fs.File "z.ts" "" ];
                Fs.File "a.ts" "" ] ]
          [ says "E"; says "E" ].

Definition nestedTable : list (string * ReturnFormat) :=
  [ ("E", {| rf_description := Some "empty"; rf_modules := [] |}) ].

(** A component with its test, both in TSX. *)
Definition components : Fs.t :=
  [ Fs.Directory "app"
      [ Fs.File "Button.tsx" "export const Button = 1";
        Fs.File "Button.test.tsx" "test('renders', () => {})";
        Fs.File "Button.test.ts" "test('clicks', () => {})" ] ].

(** A file without extension next to a source file of the same stem. *)
Definition sameStem : Fs.t :=
  [ Fs.Directory "app"
      [ Fs.Directory "src"
          [ Fs.File "a.ts" "import { b } from './b'";
            Fs.File "b" "#!/bin/sh";
            Fs.File "b.ts" "export const b = 1" ] ] ].

(** A directory with an index file, as the repository's test imagines it. *)
Definition withIndex : Fs.t :=
  [ Fs.Directory "test"
      [ Fs.Directory "dir"
          [ Fs.Directory "src"
              [ Fs.File "file.ts" "import { c } from './component'";
                Fs.Directory "component" [ Fs.File "index.ts" "" ] ] ] ] ].

(** The layout of the specification's example. *)
Definition animals : Fs.t :=
  [ Fs.Directory "app"
      [ Fs.Directory "src"
          [ Fs.Directory "animals" [ Fs.File "cats.ts" "" ];
            Fs.Directory "utils" [ Fs.File "read.ts" "" ] ] ] ].

(** An oracle that first asks for the import lines of [a.ts]. *)
Definition asksForImports : World :=
  worldOf [ Fs.Directory "app" [ Fs.File "a.ts" "import { b } from './b'" ] ]
          [ ApiResponse
              [ {| reply_content := None;
                   reply_tool_calls :=
                     Some [ {| call_name := "get_import_lines";
                               call_arguments := "a.ts" |} ] |} ];
            says "It imports b." ].

(** Tool arguments that are the bare path. *)
Definition pathArgument (arguments : string) : option ToolArguments :=
  Some [ ("filePath", arguments) ].

Definition question : Conversation :=
  addUserMessage (createConversation None) "What does a.ts import?".

(** The project of [twoFiles] with an oracle that answers only once. *)
Definition oracleGone : World :=
  worldOf (disk twoFiles) [ says "A" ].

(** A project with a build configuration and a dependency directory. *)
Definition configured : Fs.t :=
  [ Fs.Directory "app"
      [ Fs.File "jest.config.ts" "export default {}";
        Fs.File "index.ts" "import { f } from './lib/f'";
        Fs.Directory "lib"
          [ Fs.File "f.ts" "export const f = 1";
            Fs.File "f.d.ts" "export declare const f: number";
            Fs.Directory "node_modules" [ Fs.File "dep.ts" "" ] ];
        Fs.Directory ".cache" [ Fs.File "stale.ts" "" ] ] ].

(** A project without TypeScript sources, and no API key. *)
Definition noSources : World :=
  {| disk := [ Fs.Directory "app" [ Fs.File "README.md" "# app";
                                    Fs.File "index.js" "" ] ];
     openai := false; pending := []; sent := [] |}.

(** The project of [twoFiles], without API key. *)
Definition noKey : World :=
  {| disk := disk twoFiles; openai := false; pending := []; sent := [] |}.

(** An oracle that calls a tool nobody registered. *)
Definition asksUnknownTool : World :=
  worldOf (disk twoFiles)
          [ ApiResponse
              [ {| reply_content := None;
                   reply_tool_calls :=
                     Some [ {| call_name := "read_file";
                               call_arguments := "a.ts" |} ] |} ] ].

(** A file with a comment, two import lines and a line of code. *)
Definition commented : Fs.t :=
  [ Fs.Directory "app"
      [ Fs.Directory "src"
          [ Fs.File "a.ts"
              ("// entry" ++ JsString.nl ++
               "import { b } from './b'" ++ JsString.nl ++
               "  import c from './c'" ++ JsString.nl ++
               "export const a = b + c") ] ] ].

(** A matcher of import clauses read off a table of lines. *)
Definition fromClause (table : list (string * string)) (line : string)
  : option string :=
  JsObject.get table line.

(** An oracle that names a path with ["->"] in it. *)
Definition arrowTarget : World :=
  worldOf [ Fs.Directory "app" [ Fs.File "a.ts" "import y from 'x->y.ts'" ] ]
          [ says "A" ].

Definition arrowTargetTable : list (string * ReturnFormat) :=
  [ ("A", {| rf_description := Some "uses a generated module";
             rf_modules := [ ("x->y.ts", "why") ] |}) ].

(** A reply that is JSON and has no [description]. *)
Definition modulesOnly : string :=
  "{" ++ JsString.dq ++ "modules" ++ JsString.dq ++ ":{}}".

Definition undescribed : World :=
  worldOf [ Fs.Directory "app" [ Fs.File "a.ts" "export const a = 1" ] ]
          [ says modulesOnly ].

Definition undescribedTable : list (string * ReturnFormat) :=
  [ (modulesOnly, {| rf_description := None; rf_modules := [] |}) ].

(** An oracle all of whose replies are the JSON text [null]. *)
Definition allNull (response : string) : ParsedReply := NoModules.

End Sample.

(* ================================================================== *)
(** * Properties *)
(* ================================================================== *)

(** ** Strings *)

Lemma append_nil_r (s : string) : s ++ "" = s.
Proof. induction s as [|c s IH]; simpl; [reflexivity | now rewrite IH]. Qed.

Lemma append_assoc (a b c : string) : (a ++ b) ++ c = a ++ b ++ c.
Proof. induction a as [|x a IH]; simpl; [reflexivity | now rewrite IH]. Qed.

Lemma append_snoc (cur : string) (c : ascii) (s : string) :
  (cur ++ String c "") ++ s = cur ++ String c s.
Proof. now rewrite append_assoc. Qed.

Lemma prefix_cons (a : ascii) (p : string) (b : ascii) (s : string) :
  String.prefix (String a p) (String b s) = (a =? b)%char && String.prefix p s.
Proof.
  simpl. destruct (ascii_dec a b) as [-> | Hab].
  - now rewrite Ascii.eqb_refl.
  - apply Ascii.eqb_neq in Hab. now rewrite Hab.
Qed.

Lemma prefix_nil (s : string) : String.prefix "" s = true.
Proof. now destruct s. Qed.

(** Where ["->"] starts a string. *)
Lemma prefix_arrow (c : ascii) (s : string) :
  String.prefix "->" (String c s) =
  (c =? "-")%char && match s with
                     | String d _ => (d =? ">")%char
                     | EmptyString => false
                     end.
Proof.
  rewrite prefix_cons, (Ascii.eqb_sym "-" c). f_equal.
  destruct s as [|d s]; [reflexivity|].
  now rewrite prefix_cons, prefix_nil, andb_true_r, Ascii.eqb_sym.
Qed.

Lemma includes_cons (c : ascii) (s sub : string) :
  JsString.includes (String c s) sub = false ->
  String.prefix sub (String c s) = false /\ JsString.includes s sub = false.
Proof. simpl. intros H. now apply orb_false_iff in H. Qed.

(** A piece without ["->"] followed by ["->"] is cut off as it is. *)
Lemma split_go_arrow (a cur b : string) :
  JsString.includes a "->" = false ->
  JsString.split_go "->" 0 cur (a ++ "->" ++ b)
  = (cur ++ a) :: JsString.split_go "->" 0 "" b.
Proof.
  revert cur. induction a as [|c a IH]; intros cur H.
  - rewrite append_nil_r.
    change ("" ++ "->" ++ b) with (String "-" (String ">" b)).
    cbn [JsString.split_go]. rewrite prefix_arrow. reflexivity.
  - apply includes_cons in H. destruct H as [Hp Hi].
    change (String c a ++ "->" ++ b) with (String c (a ++ "->" ++ b)).
    cbn [JsString.split_go].
    assert (Hno : String.prefix "->" (String c (a ++ "->" ++ b)) = false).
    { rewrite prefix_arrow in *. destruct a as [|d a]; simpl in *.
      - apply andb_false_intro2. reflexivity.
      - exact Hp. }
    rewrite Hno, IH by exact Hi. now rewrite append_snoc.
Qed.

(** A string without ["->"] is a single piece. *)
Lemma split_go_whole (b cur : string) :
  JsString.includes b "->" = false ->
  JsString.split_go "->" 0 cur b = [cur ++ b].
Proof.
  revert cur. induction b as [|c b IH]; intros cur H.
  - now rewrite append_nil_r.
  - apply includes_cons in H. destruct H as [Hp Hi].
    cbn [JsString.split_go]. rewrite Hp, IH by exact Hi.
    now rewrite append_snoc.
Qed.

(** [split] always yields a first piece. *)
Lemma split_go_first (sep : string) (skip : nat) (cur s : string) :
  exists first rest, JsString.split_go sep skip cur s = first :: rest.
Proof.
  revert skip cur. induction s as [|c s IH]; intros skip cur;
    cbn [JsString.split_go].
  - eauto.
  - destruct skip as [|k]; [destruct (String.prefix sep (String c s))|];
      eauto; apply IH.
Qed.

Lemma decodeKey_first (k : string) :
  exists m1, fst (decodeKey k) = Some m1.
Proof.
  unfold decodeKey, JsString.split.
  destruct (split_go_first "->" 0 "" k) as (first & rest & E).
  rewrite E. simpl. eauto.
Qed.

(** The round trip of the edge key, for a source without ["->"]: the
    target comes back cut at its first ["->"]. *)
Lemma decodeKey_edgeKey_source (source target : string) :
  JsString.includes source "->" = false ->
  fst (decodeKey (edgeKey source target)) = Some source /\
  snd (decodeKey (edgeKey source target)) = fst (decodeKey target).
Proof.
  intros Hs. unfold decodeKey, edgeKey, JsString.split.
  rewrite split_go_arrow by exact Hs.
  destruct (split_go_first "->" 0 "" target) as (first & rest & E).
  rewrite E. now simpl.
Qed.

Lemma decodeKey_edgeKey (source target : string) :
  JsString.includes source "->" = false ->
  JsString.includes target "->" = false ->
  decodeKey (edgeKey source target) = (Some source, Some target).
Proof.
  intros Hs Ht. unfold decodeKey, edgeKey, JsString.split.
  rewrite split_go_arrow by exact Hs.
  rewrite split_go_whole by exact Ht. reflexivity.
Qed.

Lemma endsWith_refl (s : string) : JsString.endsWith s s = true.
Proof. destruct s; simpl; now rewrite ?String.eqb_refl, ?Ascii.eqb_refl. Qed.

Lemma endsWith_app (a b suf : string) :
  JsString.endsWith b suf = true -> JsString.endsWith (a ++ b) suf = true.
Proof.
  intros H. induction a as [|c a IH]; simpl; [exact H|].
  rewrite IH. now rewrite orb_true_r.
Qed.

(** ** Objects *)

Section ObjectFacts.
Context {V : Type}.
Implicit Types (o : JsObject.t V) (k : string) (v : V).

Lemma has_cons_ne k0 v0 o k :
  (k0 =? k) = false -> JsObject.has ((k0, v0) :: o) k = JsObject.has o k.
Proof. unfold JsObject.has. simpl. now intros ->. Qed.

Lemma has_in_keys o k : JsObject.has o k = true <-> In k (JsObject.keys o).
Proof.
  unfold JsObject.has. induction o as [|[k0 v0] o IH]; simpl.
  - split; [discriminate | tauto].
  - destruct (String.eqb_spec k0 k) as [-> | Hne].
    + split; auto.
    + rewrite IH. split; [auto | intros [H | H]; [contradiction | exact H]].
Qed.

Lemma get_replace o k v k' :
  JsObject.has o k = true ->
  JsObject.get (JsObject.replace k v o) k' =
  if k =? k' then Some v else JsObject.get o k'.
Proof.
  induction o as [|[k0 v0] o IH]; [discriminate|].
  intros H. simpl. destruct (String.eqb_spec k0 k) as [-> | Hne].
  - simpl. now destruct (k =? k').
  - rewrite has_cons_ne in H by now apply String.eqb_neq.
    simpl. rewrite IH by exact H.
    destruct (String.eqb_spec k0 k') as [-> | Hne']; [|reflexivity].
    apply String.eqb_neq in Hne. rewrite String.eqb_sym in Hne. now rewrite Hne.
Qed.

Lemma get_insert o k v k' :
  JsObject.has o k = false ->
  JsObject.get (JsObject.insert k v o) k' =
  if k =? k' then Some v else JsObject.get o k'.
Proof.
  induction o as [|[k0 v0] o IH]; [reflexivity|].
  intros H. simpl.
  destruct (String.eqb_spec k0 k) as [-> | Hne].
  { unfold JsObject.has in H. simpl in H. now rewrite String.eqb_refl in H. }
  rewrite has_cons_ne in H by now apply String.eqb_neq.
  destruct (JsObject.comes_before k k0); simpl; [reflexivity|].
  rewrite IH by exact H.
  destruct (String.eqb_spec k0 k') as [-> | Hne']; [|reflexivity].
  apply String.eqb_neq in Hne. rewrite String.eqb_sym in Hne. now rewrite Hne.
Qed.

(** Reading after writing. *)
Lemma get_set o k v k' :
  JsObject.get (JsObject.set o k v) k' =
  if k =? "__proto__" then JsObject.get o k'
  else if k =? k' then Some v else JsObject.get o k'.
Proof.
  unfold JsObject.set. destruct (k =? "__proto__"); [reflexivity|].
  destruct (JsObject.has o k) eqn:H.
  - now apply get_replace.
  - now apply get_insert.
Qed.

Lemma get_set_same o k v :
  k <> "__proto__" -> JsObject.get (JsObject.set o k v) k = Some v.
Proof.
  intros H. rewrite get_set. apply String.eqb_neq in H.
  now rewrite H, String.eqb_refl.
Qed.

Lemma get_set_other o k v k' :
  k <> k' -> JsObject.get (JsObject.set o k v) k' = JsObject.get o k'.
Proof.
  intros H. rewrite get_set. apply String.eqb_neq in H. rewrite H.
  now destruct (k =? "__proto__").
Qed.

Lemma keys_replace o k v : JsObject.keys (JsObject.replace k v o) = JsObject.keys o.
Proof.
  unfold JsObject.keys.
  induction o as [|[k0 v0] o IH]; [reflexivity|]. simpl.
  destruct (String.eqb_spec k0 k) as [-> | Hne]; simpl; [reflexivity|].
  now rewrite IH.
Qed.

Lemma in_keys_insert o k v k' :
  In k' (JsObject.keys (JsObject.insert k v o)) <->
  k' = k \/ In k' (JsObject.keys o).
Proof.
  unfold JsObject.keys. induction o as [|[k0 v0] o IH]; simpl.
  - intuition.
  - destruct (JsObject.comes_before k k0); simpl.
    + intuition.
    + rewrite IH. intuition.
Qed.

(** A key that is no array index is listed last when it is created. *)
Lemma keys_insert_plain o k v :
  JsObject.array_index k = None ->
  JsObject.keys (JsObject.insert k v o) = (JsObject.keys o ++ [k])%list.
Proof.
  intros H. unfold JsObject.keys.
  induction o as [|[k0 v0] o IH]; [reflexivity|]. simpl.
  unfold JsObject.comes_before. rewrite H. simpl. now rewrite IH.
Qed.

(** The keys after a write. *)
Lemma in_keys_set o k v k' :
  In k' (JsObject.keys (JsObject.set o k v)) <->
  (k <> "__proto__" /\ k' = k) \/ In k' (JsObject.keys o).
Proof.
  unfold JsObject.set. destruct (String.eqb_spec k "__proto__") as [-> | Hp].
  - intuition.
  - destruct (JsObject.has o k) eqn:H.
    + rewrite keys_replace. apply has_in_keys in H.
      split; [auto | intros [[_ ->] | Hin]; assumption].
    + rewrite in_keys_insert. intuition.
Qed.

Lemma in_keys_set_old o k v k' :
  In k' (JsObject.keys o) -> In k' (JsObject.keys (JsObject.set o k v)).
Proof. intros H. apply in_keys_set. now right. Qed.

Lemma keys_set_plain o k v :
  k <> "__proto__" -> JsObject.array_index k = None ->
  JsObject.has o k = false ->
  JsObject.keys (JsObject.set o k v) = (JsObject.keys o ++ [k])%list.
Proof.
  intros Hp Hi Hh. unfold JsObject.set. apply String.eqb_neq in Hp.
  rewrite Hp, Hh. now apply keys_insert_plain.
Qed.

Lemma get_in_keys o k v : JsObject.get o k = Some v -> In k (JsObject.keys o).
Proof.
  intros H. apply has_in_keys. unfold JsObject.has. now rewrite H.
Qed.

Lemma in_keys_get o k : In k (JsObject.keys o) -> exists v, JsObject.get o k = Some v.
Proof.
  intros H. apply has_in_keys in H. unfold JsObject.has in H.
  destruct (JsObject.get o k) as [v|]; [eauto | discriminate].
Qed.

(** [entries] pairs each key with the value read at it. *)
Lemma in_entries o k v :
  In (k, v) (JsObject.entries o) <->
  In k (JsObject.keys o) /\ JsObject.get o k = Some v.
Proof.
  unfold JsObject.entries. rewrite in_flat_map. split.
  - intros (k0 & Hin & H). destruct (JsObject.get o k0) as [v0|] eqn:E.
    + destruct H as [H | []]. injection H as -> ->. auto.
    + destruct H.
  - intros [Hin E]. exists k. split; [exact Hin|]. rewrite E. now left.
Qed.

End ObjectFacts.

(** ** The assembly *)

Section AssemblyFacts.
Variable entryFor : string -> ModuleEntry.

Let store (ms : JsObject.t ModuleEntry) (file : string) :=
  JsObject.set ms file (entryFor file).

Lemma store_all_get (files : list string) (ms : JsObject.t ModuleEntry) (f : string) :
  JsObject.get (fold_left store files ms) f =
  if existsb (String.eqb f) files && negb (f =? "__proto__")
  then Some (entryFor f) else JsObject.get ms f.
Proof.
  revert ms. induction files as [|x files IH]; intros ms; [reflexivity|].
  simpl. rewrite IH. unfold store. rewrite get_set.
  destruct (existsb (String.eqb f) files);
    destruct (String.eqb_spec f x); destruct (String.eqb_spec f "__proto__");
    destruct (String.eqb_spec x "__proto__"); destruct (String.eqb_spec x f);
    simpl; congruence.
Qed.

Lemma store_all_keys (files : list string) (ms : JsObject.t ModuleEntry) (p : string) :
  In p (JsObject.keys (fold_left store files ms)) <->
  (In p files /\ p <> "__proto__") \/ In p (JsObject.keys ms).
Proof.
  revert ms. induction files as [|x files IH]; intros ms; simpl.
  - tauto.
  - rewrite IH. unfold store. rewrite in_keys_set.
    split.
    + intros [[H1 H2] | [[H1 ->] | H]]; auto.
    + intros [[[-> | H1] H2] | H]; auto.
Qed.

(** Entries are created in the order of [files]. *)
Lemma store_all_order (files : list string) (ms : JsObject.t ModuleEntry) :
  NoDup files ->
  (forall f, In f files ->
     f <> "__proto__" /\ JsObject.array_index f = None /\ JsObject.has ms f = false) ->
  JsObject.keys (fold_left store files ms) = (JsObject.keys ms ++ files)%list.
Proof.
  revert ms. induction files as [|x files IH]; intros ms Hnd Hall; simpl.
  - now rewrite app_nil_r.
  - inversion Hnd as [|? ? Hx Hnd']; subst.
    destruct (Hall x (or_introl eq_refl)) as (Hp & Hi & Hh).
    rewrite IH; [| exact Hnd' |].
    + unfold store. rewrite keys_set_plain by assumption.
      now rewrite <- app_assoc.
    + intros f Hf. destruct (Hall f (or_intror Hf)) as (Hp' & Hi' & Hh').
      repeat split; try assumption.
      unfold store, JsObject.has. rewrite get_set_other.
      * exact Hh'.
      * intros ->. contradiction.
Qed.
End AssemblyFacts.

Lemma existsb_eqb_in (f : string) (files : list string) :
  existsb (String.eqb f) files = true <-> In f files.
Proof.
  rewrite existsb_exists. split.
  - intros (x & Hin & E). apply String.eqb_eq in E. now subst.
  - intros H. exists f. split; [exact H | apply String.eqb_refl].
Qed.

Lemma assemble_get (files : list string) (cr : JsObject.t string) (md : Descriptions) (f : string) :
  In f files -> f <> "__proto__" ->
  JsObject.get (modules (assemble files cr md)) f = Some (moduleEntryOf cr md f).
Proof.
  intros Hin Hp. unfold assemble. simpl.
  rewrite (store_all_get (moduleEntryOf cr md)).
  apply existsb_eqb_in in Hin. apply String.eqb_neq in Hp.
  now rewrite Hin, Hp.
Qed.

Lemma assemble_get_inv (files : list string) (cr : JsObject.t string) (md : Descriptions)
    (f : string) (e : ModuleEntry) :
  JsObject.get (modules (assemble files cr md)) f = Some e ->
  In f files /\ e = moduleEntryOf cr md f.
Proof.
  unfold assemble. simpl. rewrite (store_all_get (moduleEntryOf cr md)).
  destruct (existsb (String.eqb f) files) eqn:Ex; simpl.
  - destruct (f =? "__proto__"); simpl; [discriminate|].
    intros [= <-]. split; [now apply existsb_eqb_in | reflexivity].
  - discriminate.
Qed.

Lemma assemble_keys (files : list string) (cr : JsObject.t string) (md : Descriptions) (p : string) :
  In p (JsObject.keys (modules (assemble files cr md))) <->
  In p files /\ p <> "__proto__".
Proof.
  unfold assemble. simpl. rewrite (store_all_keys (moduleEntryOf cr md)).
  simpl. tauto.
Qed.

Lemma calling_moduleEntryOf (cr : JsObject.t string) (md : Descriptions) (f : string) :
  calling (moduleEntryOf cr md f) = fst (edgesOf cr f).
Proof. unfold moduleEntryOf. now destruct (edgesOf cr f). Qed.

Lemma callers_moduleEntryOf (cr : JsObject.t string) (md : Descriptions) (f : string) :
  callers (moduleEntryOf cr md f) = snd (edgesOf cr f).
Proof. unfold moduleEntryOf. now destruct (edgesOf cr f). Qed.

Lemma description_moduleEntryOf (cr : JsObject.t string) (md : Descriptions) (f : string) :
  description (moduleEntryOf cr md f)
  = match JsObject.get md f with Some d => d | None => None end.
Proof. unfold moduleEntryOf. now destruct (edgesOf cr f). Qed.

(** The forward view of [A] and the reverse view of [B] agree on the edge
    from [A] to [B] after every iteration, for distinct [A] and [B]. *)
Lemma edgeStep_agree (A B : string) (entries : list (string * string))
    (accA accB : JsObject.t string * JsObject.t string) :
  A <> B -> B <> "__proto__" -> A <> "__proto__" -> B <> "undefined" ->
  JsObject.get (fst accA) B = JsObject.get (snd accB) A ->
  JsObject.get (fst (fold_left (edgeStep A) entries accA)) B =
  JsObject.get (snd (fold_left (edgeStep B) entries accB)) A.
Proof.
  intros HAB HB HA HU. revert accA accB.
  induction entries as [|[k r] entries IH]; intros [cA xA] [cB xB] H0;
    [exact H0|].
  cbn [fold_left]. apply IH. clear IH.
  unfold edgeStep. cbn [fst snd] in H0.
  destruct (decodeKey_first k) as (m1 & E1).
  destruct (decodeKey k) as [o1 m2]. cbn [fst] in E1. subst o1.
  cbn [JsString.strict_eq].
  destruct (String.eqb_spec m1 A) as [-> | H1A].
  - (* the key starts at A *)
    assert (EAB : (A =? B) = false) by now apply String.eqb_neq.
    rewrite EAB. cbn [fst JsString.property_key].
    destruct m2 as [y|]; cbn [JsString.strict_eq JsString.property_key].
    + destruct (String.eqb_spec y B) as [-> | HyB]; cbn [fst snd].
      * now rewrite !get_set_same.
      * now rewrite get_set_other.
    + cbn [snd]. rewrite get_set_other by congruence. exact H0.
  - destruct (JsString.strict_eq m2 A); cbn [fst];
      (destruct (String.eqb_spec m1 B) as [-> | H1B]; cbn [snd]; [exact H0|]);
      (destruct (JsString.strict_eq m2 B); cbn [snd JsString.property_key];
       [now rewrite get_set_other | exact H0]).
Qed.

(** ** The directory walk *)

Lemma Entry_nested_ind (P : Fs.Entry -> Prop) :
  (forall n text, P (Fs.File n text)) ->
  (forall n children, Forall P children -> P (Fs.Directory n children)) ->
  (forall n, P (Fs.Other n)) ->
  forall e, P e.
Proof.
  intros Hfile Hdir Hother. fix IH 1. intros [n text | n children | n].
  - apply Hfile.
  - apply Hdir. induction children as [|c children IHc]; constructor.
    + apply IH.
    + exact IHc.
  - apply Hother.
Qed.

Lemma locatedIn_split (entries : list Fs.Entry) (dirs : list string) (n : string) :
  locatedIn entries dirs n <->
  exists e, In e entries /\ locatedIn [e] dirs n.
Proof.
  split.
  - intros H. destruct H as [entries n text Hin | entries d ch dirs n Hin Hsub].
    + exists (Fs.File n text). split; [exact Hin|].
      apply located_here with text. now left.
    + exists (Fs.Directory d ch). split; [exact Hin|].
      apply located_below with ch; [now left | exact Hsub].
  - intros (e & Hin & H). inversion H as [? ? text H1 | ? d ch ? ? H1 Hsub]; subst.
    + destruct H1 as [-> | []]. now apply located_here with text.
    + destruct H1 as [-> | []]. now apply located_below with ch.
Qed.

Lemma relativeTo_fold_snoc (dirs : list string) (n rel : string) :
  fold_left relativeTo (dirs ++ [n])%list rel
  = relativeTo (fold_left relativeTo dirs rel) n.
Proof. now rewrite fold_left_app. Qed.

Lemma traverseDirectory_of_entries (eligible : string -> bool)
    (entries : list Fs.Entry) :
  Forall (fun e => forall rel p,
            In p (traverseEntry eligible rel e) <-> walkSpec eligible [e] rel p)
         entries ->
  forall rel p,
    In p (traverseDirectory eligible rel entries) <-> walkSpec eligible entries rel p.
Proof.
  intros Hall rel p. unfold traverseDirectory. rewrite in_flat_map.
  rewrite Forall_forall in Hall. split.
  - intros (e & Hin & Hp). apply (Hall e Hin) in Hp.
    destruct Hp as (dirs & n & Hloc & Hvis & Hel & ->).
    exists dirs, n. repeat split; try assumption.
    apply locatedIn_split. eauto.
  - intros (dirs & n & Hloc & Hvis & Hel & ->).
    apply locatedIn_split in Hloc. destruct Hloc as (e & Hin & Hloc).
    exists e. split; [exact Hin|]. apply (Hall e Hin).
    exists dirs, n. auto.
Qed.

Lemma traverseEntry_spec (eligible : string -> bool) (e : Fs.Entry)
    (rel p : string) :
  In p (traverseEntry eligible rel e) <-> walkSpec eligible [e] rel p.
Proof.
  revert rel p. induction e as [n text | d children IH | n] using Entry_nested_ind;
    intros rel p.
  - (* a regular file *)
    cbn [traverseEntry Fs.entry_name]. split.
    + destruct (eligible n) eqn:El; [|intros []].
      intros [<- | []]. exists [], n. repeat split; try assumption.
      apply located_here with text. now left.
    + intros (dirs & m & Hloc & Hvis & Hel & ->).
      inversion Hloc as [? ? t H1 | ? ? ? ? ? H1 ?]; subst.
      * destruct H1 as [[= <- <-] | []]. rewrite Hel. now left.
      * destruct H1 as [H1 | []]. discriminate.
  - (* a directory *)
    cbn [traverseEntry Fs.entry_name].
    pose proof (traverseDirectory_of_entries IH) as Hsub.
    unfold traverseDirectory in Hsub. split.
    + destruct (visibleDirectory d) eqn:Vis; [|intros []].
      intros Hp. apply Hsub in Hp.
      destruct Hp as (dirs & m & Hloc & Hvis & Hel & ->).
      exists (d :: dirs), m. repeat split.
      * apply located_below with children; [now left | exact Hloc].
      * cbn [forallb]. now rewrite Vis.
      * exact Hel.
    + intros (dirs & m & Hloc & Hvis & Hel & ->).
      inversion Hloc as [? ? t H1 | ? ? ? ? ? H1 Hin]; subst.
      * destruct H1 as [H1 | []]. discriminate.
      * destruct H1 as [[= <- <-] | []].
        cbn [forallb] in Hvis. apply andb_true_iff in Hvis.
        destruct Hvis as [Vis Hvis]. rewrite Vis.
        apply Hsub. exists dirs0, m. auto.
  - (* neither a file nor a directory *)
    cbn [traverseEntry]. split; [intros []|].
    intros (dirs & m & Hloc & _).
    inversion Hloc as [? ? t H1 | ? ? ? ? ? H1 ?]; subst;
      destruct H1 as [H1 | []]; discriminate.
Qed.

Lemma traverseDirectory_spec (eligible : string -> bool)
    (entries : list Fs.Entry) (rel p : string) :
  In p (traverseDirectory eligible rel entries) <-> walkSpec eligible entries rel p.
Proof.
  apply traverseDirectory_of_entries. apply Forall_forall.
  intros e _. apply traverseEntry_spec.
Qed.

Lemma endsWith_split (s suf : string) :
  JsString.endsWith s suf = true -> exists pre, s = pre ++ suf.
Proof.
  induction s as [|c s IH]; simpl.
  - rewrite orb_false_r. intros H. exists "".
    destruct suf; [reflexivity | discriminate].
  - intros H. apply orb_true_iff in H. destruct H as [H | H].
    + exists "". simpl. symmetry.
      change ((String c s =? suf) = true) in H. now apply String.eqb_eq in H.
    + destruct (IH H) as (pre & ->). now exists (String c pre).
Qed.

Lemma digits_value_not_digit (pre suf : string) (c : ascii) (acc : N) :
  JsObject.is_digit c = false ->
  JsObject.digits_value (pre ++ String c suf) acc = None.
Proof.
  intros Hc. revert acc. induction pre as [|d pre IH]; intros acc; simpl.
  - now rewrite Hc.
  - destruct (JsObject.is_digit d); [apply IH | reflexivity].
Qed.

Lemma array_index_not_digit (pre suf : string) (c : ascii) :
  JsObject.is_digit c = false ->
  JsObject.array_index (pre ++ String c suf) = None.
Proof.
  intros Hc. unfold JsObject.array_index.
  destruct (pre ++ String c suf) as [|x rest] eqn:E; [reflexivity|].
  rewrite <- E, digits_value_not_digit by exact Hc.
  now destruct ((x =? "0")%char && negb (rest =? "")).
Qed.

(** A path with a TypeScript extension is an ordinary property key. *)
Lemma typescript_path_plain (p : string) :
  JsString.endsWith p ".ts" || JsString.endsWith p ".tsx" = true ->
  p <> "__proto__" /\ p <> "undefined" /\ JsObject.array_index p = None.
Proof.
  intros H. repeat split.
  - intros ->. discriminate.
  - intros ->. discriminate.
  - apply orb_true_iff in H.
    destruct H as [H | H]; apply endsWith_split in H; destruct H as (pre & ->);
      now apply array_index_not_digit.
Qed.

Lemma relativeTo_suffix (rel n suf : string) :
  JsString.endsWith n suf = true -> JsString.endsWith (relativeTo rel n) suf = true.
Proof.
  intros H. unfold relativeTo. destruct (rel =? ""); [exact H|].
  rewrite <- append_assoc. now apply endsWith_app.
Qed.

(** Every enumerated path has a TypeScript extension. *)
Lemma traverseDirectory_extension (entries : list Fs.Entry) (rel p : string) :
  In p (traverseDirectory eligibleName rel entries) ->
  JsString.endsWith p ".ts" || JsString.endsWith p ".tsx" = true.
Proof.
  intros H. apply traverseDirectory_spec in H.
  destruct H as (dirs & n & _ & _ & Hel & ->).
  rewrite relativeTo_fold_snoc. unfold eligibleName in Hel.
  repeat (apply andb_true_iff in Hel; destruct Hel as [Hel _]).
  apply orb_true_iff in Hel. apply orb_true_iff.
  destruct Hel as [H | H]; [left | right]; now apply relativeTo_suffix.
Qed.

Lemma getTypescriptFiles_plain (fs : Fs.t) (directory : string)
    (files : list string) (p : string) :
  getTypescriptFiles fs directory = Ok files -> In p files ->
  p <> "__proto__" /\ p <> "undefined" /\ JsObject.array_index p = None.
Proof.
  unfold getTypescriptFiles. destruct (Fs.readdirSync fs directory); [|discriminate].
  intros [= <-] Hin. apply typescript_path_plain.
  eapply traverseDirectory_extension; eassumption.
Qed.

(** ** The analysis loop *)

Lemma includes_app (a s sub : string) :
  String.prefix sub s = true -> JsString.includes (a ++ s) sub = true.
Proof.
  intros H. induction a as [|c a IH]; simpl.
  - destruct s; simpl in *; now rewrite H.
  - rewrite IH. apply orb_true_r.
Qed.

Lemma edgeKey_not_proto (file modulePath : string) :
  edgeKey file modulePath <> "__proto__".
Proof.
  intros E.
  assert (H : JsString.includes (edgeKey file modulePath) "->" = true).
  { unfold edgeKey. apply includes_app.
    change ("->" ++ modulePath) with (String "-" (String ">" modulePath)).
    rewrite prefix_arrow. reflexivity. }
  rewrite E in H. discriminate.
Qed.

Lemma recordEdge_fold_keys (file : string) (edges : list (string * string))
    (cr : JsObject.t string) (k : string) :
  In k (JsObject.keys (fold_left (recordEdge file) edges cr)) <->
  In k (JsObject.keys cr) \/
  exists p v, In (p, v) edges /\ k = edgeKey file p.
Proof.
  revert cr. induction edges as [|[p v] edges IH]; intros cr; cbn [fold_left].
  - split; [auto | intros [H | (p & v & [] & _)]; exact H].
  - rewrite IH. unfold recordEdge at 1. rewrite in_keys_set. split.
    + intros [[[_ ->] | H] | (p' & v' & Hin & ->)].
      * right. exists p, v. split; [now left | reflexivity].
      * now left.
      * right. exists p', v'. split; [now right | reflexivity].
    + intros [H | (p' & v' & [[= -> ->] | Hin] & ->)].
      * left. now right.
      * left. left. split; [apply edgeKey_not_proto | reflexivity].
      * right. eauto.
Qed.

Lemma entries_keys {V : Type} (o : JsObject.t V) (k : string) :
  (exists v, In (k, v) (JsObject.entries o)) <-> In k (JsObject.keys o).
Proof.
  split.
  - intros (v & H). now apply in_entries in H.
  - intros H. destruct (in_keys_get _ _ H) as (v & E).
    exists v. apply in_entries. auto.
Qed.

Lemma recordAll_cons (f : string) (r : ReturnFormat)
    (answers : list (string * ReturnFormat))
    (st : JsObject.t string * Descriptions) :
  recordAll ((f, r) :: answers) st = recordAll answers (recordAnalysis f r st).
Proof. reflexivity. Qed.

(** The keys of [callingReasons] are the edge keys of the reported paths. *)
Lemma recordAll_keys (answers : list (string * ReturnFormat))
    (st : JsObject.t string * Descriptions) (k : string) :
  In k (JsObject.keys (fst (recordAll answers st))) <->
  In k (JsObject.keys (fst st)) \/
  exists f r p, In (f, r) answers /\ In p (JsObject.keys (rf_modules r)) /\
                k = edgeKey f p.
Proof.
  revert st. induction answers as [|[f r] answers IH]; intros [cr md].
  - simpl. split; [auto | intros [H | (f & r & p & [] & _)]; exact H].
  - rewrite recordAll_cons, IH. cbn [recordAnalysis fst].
    rewrite recordEdge_fold_keys. split.
    + intros [[H | (p & v & Hin & ->)] | (f' & r' & p & Hin & Hp & ->)].
      * now left.
      * right. exists f, r, p. repeat split; [now left|].
        apply entries_keys. eauto.
      * right. exists f', r', p. repeat split; [now right | exact Hp].
    + intros [H | (f' & r' & p & [[= -> ->] | Hin] & Hp & ->)].
      * left. now left.
      * left. right. apply entries_keys in Hp. destruct Hp as (v & Hv). eauto.
      * right. eauto 6.
Qed.

(** The description stored for an analysed file is one the oracle gave. *)
Lemma recordAll_description (answers : list (string * ReturnFormat))
    (st : JsObject.t string * Descriptions) (f : string) :
  f <> "__proto__" ->
  (exists r, In (f, r) answers /\
     JsObject.get (snd (recordAll answers st)) f = Some (rf_description r)) \/
  (~ In f (map fst answers) /\
     JsObject.get (snd (recordAll answers st)) f = JsObject.get (snd st) f).
Proof.
  intros Hp. revert st. induction answers as [|[f0 r0] answers IH]; intros [cr md].
  - right. split; [intros [] | reflexivity].
  - rewrite recordAll_cons.
    destruct (IH (recordAnalysis f0 r0 (cr, md))) as [(r & Hin & E) | (Hnot & E)].
    + left. exists r. split; [now right | exact E].
    + destruct (String.eqb_spec f0 f) as [-> | Hne].
      * left. exists r0. split; [now left|].
        rewrite E. cbn [recordAnalysis snd]. now rewrite get_set_same.
      * right. split.
        -- simpl. intros [H | H]; [contradiction | now apply Hnot].
        -- rewrite E. cbn [recordAnalysis snd]. now rewrite get_set_other.
Qed.

(** ** The edges of one file *)

Lemma edgeStep_calls_mono (file : string) (entries : list (string * string))
    (acc : JsObject.t string * JsObject.t string) (x : string) :
  In x (JsObject.keys (fst acc)) ->
  In x (JsObject.keys (fst (fold_left (edgeStep file) entries acc))).
Proof.
  revert acc. induction entries as [|[k r] entries IH]; intros [calls callers] H;
    [exact H|].
  cbn [fold_left]. apply IH. unfold edgeStep.
  destruct (decodeKey k) as [m1 m2].
  destruct (JsString.strict_eq m1 file); [now apply in_keys_set_old|].
  now destruct (JsString.strict_eq m2 file).
Qed.

(** An edge key that decodes to [(file, p)] puts [p] among the keys of the
    forward view of [file]. *)
Lemma edgeStep_calls_intro (file p : string) (entries : list (string * string))
    (acc : JsObject.t string * JsObject.t string) (k v : string) :
  In (k, v) entries -> decodeKey k = (Some file, Some p) -> p <> "__proto__" ->
  In p (JsObject.keys (fst (fold_left (edgeStep file) entries acc))).
Proof.
  intros Hin Hd Hp. revert acc.
  induction entries as [|[k0 r0] entries IH]; intros [calls callers];
    [destruct Hin|].
  cbn [fold_left]. destruct Hin as [[= -> ->] | Hin]; [|now apply IH].
  apply edgeStep_calls_mono. unfold edgeStep. rewrite Hd.
  cbn [JsString.strict_eq JsString.property_key]. rewrite String.eqb_refl.
  cbn [fst]. apply in_keys_set. now left.
Qed.

(** Where the keys of the two views come from. *)
Lemma edgeStep_calls_keys (file : string) (entries : list (string * string))
    (acc : JsObject.t string * JsObject.t string) (x : string) :
  In x (JsObject.keys (fst (fold_left (edgeStep file) entries acc))) ->
  In x (JsObject.keys (fst acc)) \/
  exists k v, In (k, v) entries /\ fst (decodeKey k) = Some file /\
              JsString.property_key (snd (decodeKey k)) = x.
Proof.
  revert acc. induction entries as [|[k r] entries IH]; intros [calls callers] H;
    [now left|].
  cbn [fold_left] in H. apply IH in H.
  destruct H as [H | (k' & v' & Hin & H1 & H2)].
  - unfold edgeStep in H. destruct (decodeKey k) as [m1 m2] eqn:Hd.
    destruct m1 as [m1|]; cbn [JsString.strict_eq] in H.
    + destruct (String.eqb_spec m1 file) as [-> | Hne].
      * cbn [fst] in H. apply in_keys_set in H. destruct H as [[_ ->] | H].
        -- right. exists k, r. rewrite Hd. repeat split. now left.
        -- now left.
      * left. now destruct (JsString.strict_eq m2 file).
    + left. now destruct (JsString.strict_eq m2 file).
  - right. exists k', v'. repeat split; [now right | assumption | assumption].
Qed.

Lemma edgeStep_callers_keys (file : string) (entries : list (string * string))
    (acc : JsObject.t string * JsObject.t string) (x : string) :
  In x (JsObject.keys (snd (fold_left (edgeStep file) entries acc))) ->
  In x (JsObject.keys (snd acc)) \/
  exists k v, In (k, v) entries /\ fst (decodeKey k) = Some x /\
              snd (decodeKey k) = Some file.
Proof.
  revert acc. induction entries as [|[k r] entries IH]; intros [calls callers] H;
    [now left|].
  cbn [fold_left] in H. apply IH in H.
  destruct H as [H | (k' & v' & Hin & H1 & H2)].
  - unfold edgeStep in H. destruct (decodeKey_first k) as (m1 & E1).
    destruct (decodeKey k) as [o1 m2] eqn:Hd. cbn [fst] in E1. subst o1.
    destruct (JsString.strict_eq (Some m1) file); [now left|].
    destruct m2 as [m2|]; cbn [JsString.strict_eq] in H; [|now left].
    destruct (String.eqb_spec m2 file) as [-> | Hne]; [|now left].
    cbn [snd JsString.property_key] in H. apply in_keys_set in H.
    destruct H as [[_ ->] | H]; [|now left].
    right. exists k, r. rewrite Hd. repeat split. now left.
  - right. exists k', v'. repeat split; [now right | assumption | assumption].
Qed.

(** ** Runs of [createModuleMap] *)

Lemma bind_unfold {A B : Type} (m : M A) (k : A -> M B) (w : World) :
  bind m k w = match m w with
               | (w', Ok a) => k a w'
               | (w', Throw e) => (w', Throw e)
               end.
Proof. reflexivity. Qed.

Section RunFacts.
Variable JSON_parse_arguments : string -> option ToolArguments.
Variable JSON_parse_reply : string -> ParsedReply.

Let create := createModuleMap JSON_parse_arguments JSON_parse_reply.
Let answersOf := oracleAnswers JSON_parse_arguments JSON_parse_reply.
Let ask := askOracle JSON_parse_arguments JSON_parse_reply.

Lemma forOf_analyseFile (fs : Fs.t) (directory : string) (files : list string)
    (tools : list OpenAITool) (todo : list string)
    (st : JsObject.t string * Descriptions) (w : World) :
  forOf (analyseFile JSON_parse_arguments JSON_parse_reply fs directory files tools)
    todo st w
  = match askAll (ask fs directory files tools) todo w with
    | (w', Ok answers) => (w', Ok (recordAll answers st))
    | (w', Throw e) => (w', Throw e)
    end.
Proof.
  revert st w. induction todo as [|file todo IH]; intros st w; [reflexivity|].
  cbn [forOf askAll]. rewrite !bind_unfold. unfold analyseFile at 1. fold ask.
  rewrite bind_unfold.
  destruct (ask fs directory files tools file w) as [w1 [r | e]]; [|reflexivity].
  unfold ret at 1. rewrite IH, bind_unfold.
  destruct (askAll (ask fs directory files tools) todo w1) as [w2 [answers | e]];
    reflexivity.
Qed.

Lemma askAll_files (oracle : string -> M ReturnFormat) (files : list string)
    (w w' : World) (answers : list (string * ReturnFormat)) :
  askAll oracle files w = (w', Ok answers) -> map fst answers = files.
Proof.
  revert w answers. induction files as [|file files IH]; intros w answers.
  - intros [= <- <-]. reflexivity.
  - cbn [askAll]. rewrite bind_unfold.
    destruct (oracle file w) as [w1 [r | e]]; [|discriminate].
    rewrite bind_unfold.
    destruct (askAll oracle files w1) as [w2 [rest | e]] eqn:E; [|discriminate].
    intros [= <- <-]. simpl. f_equal. eapply IH, E.
Qed.

(** The map of a run is the map assembled from the oracle's answers. *)
Lemma createModuleMap_oracleAnswers (directory : string) (w : World) :
  create directory w
  = match answersOf directory w with
    | (w', Ok answers) => (w', Ok (moduleMapOf answers))
    | (w', Throw e) => (w', Throw e)
    end.
Proof.
  unfold create, answersOf, createModuleMap, oracleAnswers.
  rewrite !bind_unfold. unfold getDisk. rewrite !bind_unfold. unfold lift.
  destruct (getTypescriptFiles (disk w) directory) as [files | e]; [|reflexivity].
  rewrite bind_unfold, forOf_analyseFile. fold ask.
  destruct (askAll _ files w) as [w1 [answers | e]] eqn:E; [|reflexivity].
  unfold ret, moduleMapOf. now rewrite (askAll_files _ _ _ E).
Qed.

Lemma createModuleMap_ok (directory : string) (w w' : World) (m : ModuleMap) :
  create directory w = (w', Ok m) <->
  exists answers, answersOf directory w = (w', Ok answers) /\ m = moduleMapOf answers.
Proof.
  rewrite createModuleMap_oracleAnswers.
  destruct (answersOf directory w) as [w1 [answers | e]]; split.
  - intros [= <- <-]. eauto.
  - intros (a & [= <- <-] & ->). reflexivity.
  - discriminate.
  - intros (a & [=] & _).
Qed.

Lemma oracleAnswers_files (directory : string) (w w' : World)
    (answers : list (string * ReturnFormat)) :
  answersOf directory w = (w', Ok answers) ->
  getTypescriptFiles (disk w) directory = Ok (map fst answers).
Proof.
  unfold answersOf, oracleAnswers. rewrite !bind_unfold. unfold getDisk, lift.
  destruct (getTypescriptFiles (disk w) directory) as [files | e]; [|discriminate].
  intros H. now rewrite (askAll_files _ _ _ H).
Qed.

(** A successful run, taken apart. *)
Lemma createModuleMap_inv (directory : string) (w w' : World) (m : ModuleMap)
    (files : list string) :
  create directory w = (w', Ok m) ->
  getTypescriptFiles (disk w) directory = Ok files ->
  exists answers,
    answersOf directory w = (w', Ok answers) /\
    map fst answers = files /\
    m = assemble files
          (fst (recordAll answers (JsObject.empty, JsObject.empty)))
          (snd (recordAll answers (JsObject.empty, JsObject.empty))).
Proof.
  intros Hrun Hfiles. apply createModuleMap_ok in Hrun.
  destruct Hrun as (answers & Hans & ->).
  pose proof (oracleAnswers_files _ _ Hans) as H. rewrite Hfiles in H.
  injection H as ->. exists answers. repeat split. exact Hans.
Qed.

End RunFacts.

(* ================================================================== *)
(** * The module map *)
(* ================================================================== *)

Section MapProperties.
Variable JSON_parse_arguments : string -> option ToolArguments.
Variable JSON_parse_reply : string -> ParsedReply.

Let create := createModuleMap JSON_parse_arguments JSON_parse_reply.
Let answersOf := oracleAnswers JSON_parse_arguments JSON_parse_reply.

(** The edge from [A] to [B] is seen alike from both ends when [A] and
    [B] are distinct enumerated files. *)
Lemma forward_reverse_agree_distinct (directory : string) (w w' : World)
    (m : ModuleMap) (files : list string) (A B : string) :
  create directory w = (w', Ok m) ->
  getTypescriptFiles (disk w) directory = Ok files ->
  In A files -> In B files -> A <> B ->
  exists eA eB,
    JsObject.get (modules m) A = Some eA /\
    JsObject.get (modules m) B = Some eB /\
    forall reason,
      JsObject.get (calling eA) B = Some reason <->
      JsObject.get (callers eB) A = Some reason.
Proof.
  intros Hrun Hfiles HA HB HAB.
  destruct (createModuleMap_inv _ _ _ _ Hrun Hfiles) as (answers & _ & _ & ->).
  destruct (getTypescriptFiles_plain _ _ A Hfiles HA) as (HAp & _ & _).
  destruct (getTypescriptFiles_plain _ _ B Hfiles HB) as (HBp & HBu & _).
  eexists. eexists. split; [now apply assemble_get|].
  split; [now apply assemble_get|].
  intros reason. rewrite calling_moduleEntryOf, callers_moduleEntryOf.
  unfold edgesOf.
  now rewrite (@edgeStep_agree A B _ (JsObject.empty, JsObject.empty)
                 (JsObject.empty, JsObject.empty) HAB HBp HAp HBu eq_refl).
Qed.

(** A path the oracle lists for a file is the target of an edge key of
    [callingReasons] as it was written, and, when neither path contains
    ["->"], a key of the forward view of that file. *)
Lemma reported_path_kept (answers : list (string * ReturnFormat))
    (file : string) (r : ReturnFormat) (modulePath : string) :
  In (file, r) answers ->
  In modulePath (JsObject.keys (rf_modules r)) ->
  let st := recordAll answers (JsObject.empty, JsObject.empty) in
  In (edgeKey file modulePath) (JsObject.keys (fst st)) /\
  (JsString.includes file "->" = false ->
   JsString.includes modulePath "->" = false ->
   modulePath <> "__proto__" ->
   In modulePath (JsObject.keys (calling (moduleEntryOf (fst st) (snd st) file)))).
Proof.
  intros Hin Hpath st.
  assert (Hk : In (edgeKey file modulePath) (JsObject.keys (fst st))).
  { apply recordAll_keys. right. exists file, r, modulePath. auto. }
  split; [exact Hk|]. intros Hf Hp Hproto.
  rewrite calling_moduleEntryOf. unfold edgesOf.
  apply entries_keys in Hk. destruct Hk as (v & Hv).
  eapply edgeStep_calls_intro; [exact Hv | | exact Hproto].
  now apply decodeKey_edgeKey.
Qed.

(** The description of every entry is the [description] of the parsed
    answer for that file, [undefined] when that answer has none: nothing
    is made up, and nothing is checked. *)
Lemma descriptions_come_from_oracle (directory : string) (w w' : World)
    (m : ModuleMap) (answers : list (string * ReturnFormat))
    (f : string) (e : ModuleEntry) :
  create directory w = (w', Ok m) ->
  answersOf directory w = (w', Ok answers) ->
  JsObject.get (modules m) f = Some e ->
  exists r, In (f, r) answers /\ description e = rf_description r.
Proof.
  intros Hrun Hans Hget.
  pose proof (oracleAnswers_files _ _ _ _ Hans) as Hfiles.
  destruct (createModuleMap_inv _ _ _ _ Hrun Hfiles) as (answers' & Hans' & _ & ->).
  unfold answersOf in Hans. rewrite Hans in Hans'. injection Hans' as <-.
  apply assemble_get_inv in Hget. destruct Hget as [Hin ->].
  rewrite description_moduleEntryOf.
  destruct (getTypescriptFiles_plain _ _ f Hfiles Hin) as (Hproto & _ & _).
  destruct (recordAll_description answers (JsObject.empty, JsObject.empty) Hproto)
    as [(r & Hr & E) | (Hnot & _)]; [|contradiction].
  exists r. split; [exact Hr|]. now rewrite E.
Qed.

(** Every key of a forward view is the first piece of a path the oracle
    listed for that file. *)
Lemma calling_keys_reported (directory : string) (w w' : World)
    (m : ModuleMap) (answers : list (string * ReturnFormat))
    (f : string) (e : ModuleEntry) (B : string) :
  create directory w = (w', Ok m) ->
  answersOf directory w = (w', Ok answers) ->
  (forall p, In p (map fst answers) -> JsString.includes p "->" = false) ->
  JsObject.get (modules m) f = Some e ->
  In B (JsObject.keys (calling e)) ->
  exists r p,
    In (f, r) answers /\ In p (JsObject.keys (rf_modules r)) /\
    JsString.property_key (fst (decodeKey p)) = B.
Proof.
  intros Hrun Hans Hplain Hget HB.
  pose proof (oracleAnswers_files _ _ _ _ Hans) as Hfiles.
  destruct (createModuleMap_inv _ _ _ _ Hrun Hfiles) as (answers' & Hans' & _ & ->).
  unfold answersOf in Hans. rewrite Hans in Hans'. injection Hans' as <-.
  apply assemble_get_inv in Hget. destruct Hget as [Hin ->].
  rewrite calling_moduleEntryOf in HB. unfold edgesOf in HB.
  apply edgeStep_calls_keys in HB.
  destruct HB as [[] | (k & v & Hk & H1 & H2)].
  apply in_entries in Hk. destruct Hk as [Hk _].
  apply recordAll_keys in Hk.
  destruct Hk as [[] | (f' & r & p & Hf' & Hp & ->)].
  assert (Hsrc : JsString.includes f' "->" = false).
  { apply Hplain. apply in_map_iff. now exists (f', r). }
  destruct (decodeKey_edgeKey_source f' p Hsrc) as [E1 E2].
  rewrite E1 in H1. injection H1 as ->. rewrite E2 in H2.
  exists r, p. auto.
Qed.

(** C1, as the code has it: a module entry exists for a path exactly when
    the path is enumerated; when no enumerated path contains ["->"], every
    key of a reverse view is an enumerated path; and a target the oracle
    lists for a file stays in the forward view of that file, enumerated or
    not: the forward views are not filtered. *)
Theorem entries_exactly_enumerated (directory : string) (w w' : World)
    (m : ModuleMap) (files : list string) :
  create directory w = (w', Ok m) ->
  getTypescriptFiles (disk w) directory = Ok files ->
  (forall p, In p (JsObject.keys (modules m)) <-> In p files) /\
  ((forall f, In f files -> JsString.includes f "->" = false) ->
   forall F e A,
     JsObject.get (modules m) F = Some e ->
     In A (JsObject.keys (callers e)) -> In A files) /\
  (forall answers A r B,
     answersOf directory w = (w', Ok answers) ->
     In (A, r) answers ->
     In B (JsObject.keys (rf_modules r)) ->
     JsString.includes A "->" = false ->
     JsString.includes B "->" = false ->
     B <> "__proto__" ->
     exists e,
       JsObject.get (modules m) A = Some e /\ In B (JsObject.keys (calling e))).
Proof.
  intros Hrun Hfiles.
  destruct (createModuleMap_inv _ _ _ _ Hrun Hfiles) as (answers & Hans & Hmap & ->).
  split; [|split].
  - intros p. rewrite assemble_keys. split; [tauto|].
    intros Hin. split; [exact Hin|].
    now destruct (getTypescriptFiles_plain _ _ p Hfiles Hin).
  - intros Hplain F e A Hget HA.
    apply assemble_get_inv in Hget. destruct Hget as [_ ->].
    rewrite callers_moduleEntryOf in HA. unfold edgesOf in HA.
    apply edgeStep_callers_keys in HA.
    destruct HA as [[] | (k & v & Hin & H1 & _)].
    apply in_entries in Hin. destruct Hin as [Hk _].
    apply recordAll_keys in Hk.
    destruct Hk as [[] | (f & r & p & Hf & _ & ->)].
    assert (Hff : In f files).
    { rewrite <- Hmap. apply in_map_iff. now exists (f, r). }
    destruct (decodeKey_edgeKey_source f p (Hplain f Hff)) as [E _].
    rewrite E in H1. now injection H1 as <-.
  - intros answers' A r B Hans' HA HB HAp HBp Hproto.
    unfold answersOf in Hans, Hans'. rewrite Hans in Hans'.
    injection Hans' as <-.
    assert (HAf : In A files).
    { rewrite <- Hmap. apply in_map_iff. now exists (A, r). }
    eexists. split.
    + apply assemble_get; [exact HAf|].
      now destruct (getTypescriptFiles_plain _ _ A Hfiles HAf).
    + now apply (proj2 (reported_path_kept _ _ _ _ HA HB)).
Qed.

(** C2, as the code has it: a path the oracle lists for a file is recorded
    as it was written, without passing through [resolveImportPath]: the
    edge key is built from the path itself, and the path becomes a key of
    that file's forward view. *)
Theorem reported_path_recorded_verbatim (directory : string) (w w' : World)
    (answers : list (string * ReturnFormat)) (file : string) (r : ReturnFormat)
    (modulePath : string) :
  answersOf directory w = (w', Ok answers) ->
  In (file, r) answers ->
  In modulePath (JsObject.keys (rf_modules r)) ->
  let st := recordAll answers (JsObject.empty, JsObject.empty) in
  exists m,
    create directory w = (w', Ok m) /\
    m = assemble (map fst answers) (fst st) (snd st) /\
    In (edgeKey file modulePath) (JsObject.keys (fst st)) /\
    (JsString.includes file "->" = false ->
     JsString.includes modulePath "->" = false ->
     modulePath <> "__proto__" ->
     exists e,
       JsObject.get (modules m) file = Some e /\
       In modulePath (JsObject.keys (calling e))).
Proof.
  intros Hans Hin Hpath st.
  exists (moduleMapOf answers). split; [|split; [reflexivity|]].
  - apply createModuleMap_ok. eauto.
  - destruct (reported_path_kept _ _ _ _ Hin Hpath) as [Hk Hcalls].
    split; [exact Hk|]. intros Hf Hp Hproto.
    eexists. split; [|exact (Hcalls Hf Hp Hproto)].
    apply assemble_get.
    + apply in_map_iff. now exists (file, r).
    + pose proof (oracleAnswers_files _ _ _ _ Hans) as Hfiles.
      refine (proj1 (getTypescriptFiles_plain _ _ file Hfiles _)).
      apply in_map_iff. now exists (file, r).
Qed.

(** The reverse view of a file never lists the file itself: the second
    branch of the inner loop is reached only when [module1] is another
    path. *)
Lemma edgeStep_callers_not_self (file : string) (entries : list (string * string))
    (acc : JsObject.t string * JsObject.t string) :
  ~ In file (JsObject.keys (snd acc)) ->
  ~ In file (JsObject.keys (snd (fold_left (edgeStep file) entries acc))).
Proof.
  revert acc. induction entries as [|[k r] entries IH]; intros [calls callers] H;
    [exact H|].
  cbn [fold_left]. apply IH. unfold edgeStep.
  destruct (decodeKey_first k) as (m1 & E1).
  destruct (decodeKey k) as [o1 m2]. cbn [fst] in E1. subst o1.
  cbn [JsString.strict_eq].
  destruct (String.eqb_spec m1 file) as [-> | Hne]; [exact H|].
  destruct (JsString.strict_eq m2 file); [|exact H].
  cbn [snd JsString.property_key] in *. rewrite in_keys_set.
  intros [[_ ->] | Hin]; [now apply Hne | now apply H].
Qed.

(** C3 on a self-import, where the code departs from it: whenever the
    oracle lists a file among its own imports, the file is in its own
    forward view and missing from its own reverse view. *)
Theorem self_import_not_among_callers (directory : string) (w w' : World)
    (answers : list (string * ReturnFormat)) (A : string) (r : ReturnFormat) :
  answersOf directory w = (w', Ok answers) ->
  In (A, r) answers ->
  In A (JsObject.keys (rf_modules r)) ->
  JsString.includes A "->" = false ->
  exists m e reason,
    create directory w = (w', Ok m) /\
    JsObject.get (modules m) A = Some e /\
    JsObject.get (calling e) A = Some reason /\
    JsObject.get (callers e) A = None.
Proof.
  intros Hans Hin Hself Hplain.
  pose proof (oracleAnswers_files _ _ _ _ Hans) as Hfiles.
  assert (HA : In A (map fst answers)).
  { apply in_map_iff. now exists (A, r). }
  destruct (getTypescriptFiles_plain _ _ A Hfiles HA) as (Hproto & _ & _).
  destruct (reported_path_kept _ _ _ _ Hin Hself) as [_ Hcalls].
  specialize (Hcalls Hplain Hplain Hproto).
  destruct (in_keys_get _ _ Hcalls) as (reason & Hreason).
  exists (moduleMapOf answers). eexists. exists reason.
  split; [apply createModuleMap_ok; eauto|].
  split; [unfold moduleMapOf; now apply assemble_get|].
  split; [exact Hreason|].
  rewrite callers_moduleEntryOf. unfold edgesOf.
  match goal with
  | |- ?lookup = None => destruct lookup as [v|] eqn:E; [|reflexivity]
  end.
  exfalso. apply get_in_keys in E. revert E.
  apply edgeStep_callers_not_self. intros [].
Qed.

(** C4, as the code has it: the entries of the map are created in the
    order of the enumeration; nothing sorts them. *)
Theorem entries_in_enumeration_order (directory : string) (w w' : World)
    (m : ModuleMap) (files : list string) :
  create directory w = (w', Ok m) ->
  getTypescriptFiles (disk w) directory = Ok files ->
  NoDup files ->
  JsObject.keys (modules m) = files.
Proof.
  intros Hrun Hfiles Hnd.
  destruct (createModuleMap_inv _ _ _ _ Hrun Hfiles) as (answers & _ & _ & ->).
  unfold assemble. cbn [modules].
  rewrite (@store_all_order (moduleEntryOf _ _) files JsObject.empty Hnd).
  - reflexivity.
  - intros f Hf. destruct (getTypescriptFiles_plain _ _ f Hfiles Hf) as (H1 & _ & H2).
    auto.
Qed.

End MapProperties.

(** C1 fails on the code: the package a file imports stays in its forward
    view although no such file is enumerated. *)
Lemma calling_keeps_external_target :
  exists m,
    Sample.run Sample.packageUserTable "/app" Sample.packageUser = Ok m /\
    getTypescriptFiles (disk Sample.packageUser) "/app" = Ok ["a.ts"] /\
    ~ callingWithin ["a.ts"] m.
Proof.
  eexists. split; [vm_compute; reflexivity|]. split; [reflexivity|].
  intros H.
  specialize (H "a.ts" _ "react" eq_refl (or_introl eq_refl)).
  destruct H as [H | []]. discriminate.
Qed.

Lemma entries_exactly_enumerated_witness :
  Sample.run Sample.twoFilesTable "/app" Sample.twoFiles = Ok Sample.twoFilesMap /\
  (forall p, In p (JsObject.keys (modules Sample.twoFilesMap)) <->
             In p ["a.ts"; "b.ts"]) /\
  ((forall f, In f ["a.ts"; "b.ts"] -> JsString.includes f "->" = false) ->
   forall F e A,
     JsObject.get (modules Sample.twoFilesMap) F = Some e ->
     In A (JsObject.keys (callers e)) -> In A ["a.ts"; "b.ts"]).
Proof.
  split; [vm_compute; reflexivity|].
  pose proof (@entries_exactly_enumerated Sample.noArguments
                (Sample.replyTable Sample.twoFilesTable) "/app" Sample.twoFiles
                (fst (createModuleMap Sample.noArguments
                        (Sample.replyTable Sample.twoFilesTable) "/app"
                        Sample.twoFiles))
                Sample.twoFilesMap ["a.ts"; "b.ts"]) as H.
  destruct H as (H1 & H2 & _).
  - vm_compute. reflexivity.
  - vm_compute. reflexivity.
  - split; assumption.
Defined.

(** C2 fails on the code: the oracle's ["./b"], reported for [src/a.ts], is
    the key of the forward view, where [resolveImportPath] would give
    [src/b.ts]; and [src/b.ts] gets no reverse edge. *)
Lemma relative_path_not_normalized :
  exists m eA eB,
    Sample.run Sample.relativeImportTable "/app" Sample.relativeImport = Ok m /\
    JsObject.get (modules m) "src/a.ts" = Some eA /\
    JsObject.get (modules m) "src/b.ts" = Some eB /\
    resolveImportPath (disk Sample.relativeImport) "./b" "src/a.ts" "/app"
    = "src/b.ts" /\
    JsObject.keys (calling eA) = ["./b"] /\
    ~ In "src/b.ts" (JsObject.keys (calling eA)) /\
    callers eB = [].
Proof.
  do 3 eexists. split; [vm_compute; reflexivity|].
  split; [reflexivity|]. split; [reflexivity|]. split; [reflexivity|].
  split; [reflexivity|]. split; [|reflexivity].
  intros [H | []]. discriminate.
Qed.

Lemma reported_path_recorded_verbatim_witness :
  exists m,
    createModuleMap Sample.noArguments
      (Sample.replyTable Sample.relativeImportTable) "/app" Sample.relativeImport
    = (fst (oracleAnswers Sample.noArguments
              (Sample.replyTable Sample.relativeImportTable) "/app"
              Sample.relativeImport), Ok m) /\
    In (edgeKey "src/a.ts" "./b")
       (JsObject.keys
          (fst (recordAll
                  [ ("src/a.ts", {| rf_description := Some "entry point";
                                    rf_modules := [ ("./b", "uses helper") ] |});
                    ("src/b.ts", {| rf_description := Some "helper";
                                    rf_modules := [] |}) ]
                  (JsObject.empty, JsObject.empty)))) /\
    exists e,
      JsObject.get (modules m) "src/a.ts" = Some e /\
      In "./b" (JsObject.keys (calling e)).
Proof.
  destruct (@reported_path_recorded_verbatim Sample.noArguments
              (Sample.replyTable Sample.relativeImportTable) "/app"
              Sample.relativeImport
              (fst (oracleAnswers Sample.noArguments
                      (Sample.replyTable Sample.relativeImportTable) "/app"
                      Sample.relativeImport))
              [ ("src/a.ts", {| rf_description := Some "entry point";
                                rf_modules := [ ("./b", "uses helper") ] |});
                ("src/b.ts", {| rf_description := Some "helper"; rf_modules := [] |}) ]
              "src/a.ts"
              {| rf_description := Some "entry point";
                 rf_modules := [ ("./b", "uses helper") ] |}
              "./b")
    as (m & Hrun & _ & Hkey & Hcalls).
  - vm_compute. reflexivity.
  - left. reflexivity.
  - left. reflexivity.
  - exists m. split; [exact Hrun|]. split; [exact Hkey|].
    apply Hcalls; [reflexivity | reflexivity | discriminate].
Defined.

Lemma self_import_not_among_callers_witness :
  exists m e,
    Sample.run Sample.selfImportTable "/app" Sample.selfImport = Ok m /\
    getTypescriptFiles (disk Sample.selfImport) "/app" = Ok ["a.ts"] /\
    JsObject.get (modules m) "a.ts" = Some e /\
    JsObject.get (calling e) "a.ts" = Some "imports itself" /\
    JsObject.get (callers e) "a.ts" = None.
Proof.
  destruct (@self_import_not_among_callers Sample.noArguments
              (Sample.replyTable Sample.selfImportTable) "/app" Sample.selfImport
              (fst (oracleAnswers Sample.noArguments
                      (Sample.replyTable Sample.selfImportTable) "/app"
                      Sample.selfImport))
              [ ("a.ts", {| rf_description := Some "refers to itself";
                            rf_modules := [ ("a.ts", "imports itself") ] |}) ]
              "a.ts"
              {| rf_description := Some "refers to itself";
                 rf_modules := [ ("a.ts", "imports itself") ] |})
    as (m & e & reason & Hrun & Hget & Hcalls & Hcallers).
  - vm_compute. reflexivity.
  - left. reflexivity.
  - left. reflexivity.
  - reflexivity.
  - exists m, e. unfold Sample.run. rewrite Hrun.
    split; [reflexivity|]. split; [reflexivity|]. split; [exact Hget|].
    split; [|exact Hcallers].
    assert (Hm : Ok m = Sample.run Sample.selfImportTable "/app" Sample.selfImport).
    { unfold Sample.run. now rewrite Hrun. }
    vm_compute in Hm. injection Hm as ->.
    vm_compute in Hget. injection Hget as <-. reflexivity.
Defined.

(** C4 fails on the code: a directory listed before a file of the same
    stem puts [a/z.ts] before [a.ts], which sorting would exchange. *)
Lemma entries_not_sorted :
  exists m,
    Sample.run Sample.nestedTable "/app" Sample.nested = Ok m /\
    JsObject.keys (modules m) = ["a/z.ts"; "a.ts"] /\
    isSorted (JsObject.keys (modules m)) = false /\
    JsObject.keys (sortObjectKeys (modules m)) = ["a.ts"; "a/z.ts"].
Proof.
  eexists. split; [vm_compute; reflexivity|]. repeat split.
Qed.

Lemma entries_in_enumeration_order_witness :
  exists m,
    Sample.run Sample.nestedTable "/app" Sample.nested = Ok m /\
    JsObject.keys (modules m) = ["a/z.ts"; "a.ts"].
Proof.
  eexists. split; [vm_compute; reflexivity|].
  apply (@entries_in_enumeration_order Sample.noArguments
           (Sample.replyTable Sample.nestedTable) "/app" Sample.nested
           (fst (createModuleMap Sample.noArguments
                   (Sample.replyTable Sample.nestedTable) "/app" Sample.nested))).
  - vm_compute. reflexivity.
  - vm_compute. reflexivity.
  - repeat constructor; simpl; intuition discriminate.
Defined.

(** C10, as the code has it: when no enumerated path contains ["->"],
    the key built for an edge from an enumerated file splits back into
    the same source and target provided the target is enumerated too or
    is any other path without ["->"]; the condition on the enumerated
    paths alone does not bound the targets the oracle may name. *)
Theorem edge_key_round_trip (files : list string) (source target : string) :
  (forall p, In p files -> JsString.includes p "->" = false) ->
  In source files ->
  In target files \/ JsString.includes target "->" = false ->
  decodeKey (edgeKey source target) = (Some source, Some target).
Proof.
  intros Hplain Hs Ht. apply decodeKey_edgeKey.
  - now apply Hplain.
  - destruct Ht as [Ht | Ht]; [now apply Hplain | exact Ht].
Qed.

Lemma edge_key_round_trip_witness :
  decodeKey (edgeKey "src/index.ts" "src/component.ts")
  = (Some "src/index.ts", Some "src/component.ts") /\
  decodeKey (edgeKey "src/index.ts" "react") = (Some "src/index.ts", Some "react").
Proof.
  split.
  - apply (@edge_key_round_trip ["src/index.ts"; "src/component.ts"]).
    + intros p [<- | [<- | []]]; reflexivity.
    + left. reflexivity.
    + left. right. left. reflexivity.
  - apply (@edge_key_round_trip ["src/index.ts"; "src/component.ts"]).
    + intros p [<- | [<- | []]]; reflexivity.
    + left. reflexivity.
    + right. reflexivity.
Defined.

(** C10 fails on the code: no enumerated path contains ["->"], yet the
    target the oracle names does, and it comes back cut at its first
    ["->"], in the key and in the map. *)
Lemma arrow_target_cut_short :
  getTypescriptFiles (disk Sample.arrowTarget) "/app" = Ok ["a.ts"] /\
  JsString.includes "a.ts" "->" = false /\
  decodeKey (edgeKey "a.ts" "x->y.ts") = (Some "a.ts", Some "x") /\
  Sample.run Sample.arrowTargetTable "/app" Sample.arrowTarget
  = Ok {| modules :=
            [ ("a.ts", {| description := Some "uses a generated module";
                          calling := [ ("x", "why") ];
                          callers := [] |}) ] |}.
Proof. repeat split; vm_compute; reflexivity. Qed.

(* ================================================================== *)
(** * The enumeration *)
(* ================================================================== *)

Lemma visibleDirectories_spec (dirs : list string) :
  forallb visibleDirectory dirs = true <->
  Forall (fun d => JsString.startsWith d "." = false /\ d <> "node_modules") dirs.
Proof.
  rewrite forallb_forall, Forall_forall.
  split; intros H d Hd; specialize (H d Hd); unfold visibleDirectory in *.
  - apply andb_true_iff in H. destruct H as [H1 H2].
    apply negb_true_iff in H1, H2. split; [exact H1|].
    now apply String.eqb_neq.
  - destruct H as [H1 H2]. apply String.eqb_neq in H2. now rewrite H1, H2.
Qed.

Lemma eligibleName_spec (n : string) :
  eligibleName n = true <->
  (JsString.endsWith n ".ts" = true \/ JsString.endsWith n ".tsx" = true) /\
  JsString.endsWith n ".d.ts" = false /\
  JsString.endsWith n ".test.ts" = false /\
  JsString.endsWith n ".config.ts" = false.
Proof.
  unfold eligibleName.
  rewrite !andb_true_iff, orb_true_iff, !negb_true_iff. tauto.
Qed.

(** C7, as the code has it: the walk lists exactly the regular files with
    a [.ts] or [.tsx] name that does not end in [.d.ts], [.test.ts] or
    [.config.ts], below directories none of which is hidden or called
    [node_modules].  The three exclusions are spelled with [.ts] only. *)
Theorem enumeration_characterised (fs : Fs.t) (directory : string)
    (entries : list Fs.Entry) :
  Fs.readdirSync fs directory = Ok entries ->
  exists files,
    getTypescriptFiles fs directory = Ok files /\
    forall p,
      In p files <->
      exists dirs n,
        locatedIn entries dirs n /\
        Forall (fun d => JsString.startsWith d "." = false /\ d <> "node_modules")
               dirs /\
        (JsString.endsWith n ".ts" = true \/ JsString.endsWith n ".tsx" = true) /\
        JsString.endsWith n ".d.ts" = false /\
        JsString.endsWith n ".test.ts" = false /\
        JsString.endsWith n ".config.ts" = false /\
        p = relativePathOf dirs n.
Proof.
  intros Hread. unfold getTypescriptFiles. rewrite Hread.
  eexists. split; [reflexivity|]. intros p.
  rewrite traverseDirectory_spec. unfold walkSpec, relativePathOf.
  split; intros (dirs & n & Hloc & Hvis & Hel & Hp); exists dirs, n.
  - apply visibleDirectories_spec in Hvis. apply eligibleName_spec in Hel. tauto.
  - split; [exact Hloc|]. split; [now apply visibleDirectories_spec|].
    split; [apply eligibleName_spec; tauto | tauto].
Qed.

Lemma enumeration_characterised_witness :
  exists files,
    getTypescriptFiles Sample.animals "/app" = Ok files /\
    forall p,
      In p files <->
      exists dirs n,
        locatedIn
          [ Fs.Directory "src"
              [ Fs.Directory "animals" [ Fs.File "cats.ts" "" ];
                Fs.Directory "utils" [ Fs.File "read.ts" "" ] ] ] dirs n /\
        Forall (fun d => JsString.startsWith d "." = false /\ d <> "node_modules")
               dirs /\
        (JsString.endsWith n ".ts" = true \/ JsString.endsWith n ".tsx" = true) /\
        JsString.endsWith n ".d.ts" = false /\
        JsString.endsWith n ".test.ts" = false /\
        JsString.endsWith n ".config.ts" = false /\
        p = relativePathOf dirs n.
Proof.
  apply (@enumeration_characterised Sample.animals "/app"). reflexivity.
Defined.

(** C7 fails on the code: a test file in TSX is enumerated. *)
Lemma tsx_test_file_enumerated :
  getTypescriptFiles Sample.components "/app"
  = Ok ["Button.tsx"; "Button.test.tsx"] /\
  JsString.endsWith "Button.test.tsx" (".test." ++ "tsx") = true /\
  excludedForAnyExtension "Button.test.tsx" = true.
Proof. repeat split. Qed.

(** The two definitions of [getTypescriptFiles] differ on config files
    only: the earlier one lists them. *)
Lemma earlier_walk_lists_config_files :
  getTypescriptFiles Sample.configured "/app" = Ok ["index.ts"; "lib/f.ts"] /\
  getTypescriptFilesEarlier Sample.configured "/app"
  = Ok ["jest.config.ts"; "index.ts"; "lib/f.ts"].
Proof. split; reflexivity. Qed.

(* ================================================================== *)
(** * The path normalizer *)
(* ================================================================== *)

Lemma find_first {A : Type} (f : A -> bool) (l : list A) (i : nat) (c : A) :
  nth_error l i = Some c -> f c = true ->
  (forall j c', j < i -> nth_error l j = Some c' -> f c' = false) ->
  find f l = Some c.
Proof.
  revert i. induction l as [|x l IH]; intros i Hi Hc Hbefore.
  - destruct i; discriminate.
  - destruct i as [|i]; simpl in *.
    + injection Hi as ->. now rewrite Hc.
    + rewrite (Hbefore 0 x (Nat.lt_0_succ i) eq_refl).
      apply (IH i Hi Hc). intros j c' Hj Hn.
      apply (Hbefore (S j) c'); [lia | exact Hn].
Qed.

Lemma find_none {A : Type} (f : A -> bool) (l : list A) :
  (forall c, In c l -> f c = false) -> find f l = None.
Proof.
  induction l as [|x l IH]; intros H; [reflexivity|]. simpl.
  rewrite (H x (or_introl eq_refl)). apply IH. intros c Hc. apply H. now right.
Qed.

(** C5, as the code has it: a relative specifier is resolved against the
    directory of the importing file and the candidates are probed in the
    order as-is, [.ts], [.tsx], [index.ts], [index.tsx] for existence on
    disk; when the path as-is is not a directory, the first candidate that
    exists is returned.  The example of the specification follows. *)
Theorem first_existing_candidate_wins (fs : Fs.t) (baseDirectory : string) :
  (forall importPath importingFilePath,
     JsString.startsWith importPath "." = true ->
     let resolvedPath :=
       Path.normalize (Path.join [Path.dirname importingFilePath; importPath]) in
     let candidates :=
       [ resolvedPath; resolvedPath ++ ".ts"; resolvedPath ++ ".tsx";
         Path.join [resolvedPath; "index.ts"];
         Path.join [resolvedPath; "index.tsx"] ] in
     isDirectorySync fs (Path.join [baseDirectory; resolvedPath]) = false ->
     forall i c,
       nth_error candidates i = Some c ->
       Fs.existsSync fs (Path.join [baseDirectory; c]) = true ->
       (forall j c', j < i -> nth_error candidates j = Some c' ->
                     Fs.existsSync fs (Path.join [baseDirectory; c']) = false) ->
       resolveImportPath fs importPath importingFilePath baseDirectory = c) /\
  (Fs.existsSync fs (Path.join [baseDirectory; "src/utils/read"]) = false ->
   Fs.existsSync fs (Path.join [baseDirectory; "src/utils/read.ts"]) = true ->
   resolveImportPath fs "../utils/read" "src/animals/cats.ts" baseDirectory
   = "src/utils/read.ts").
Proof.
  split.
  - intros importPath importingFilePath Hrel resolvedPath candidates _
      i c Hi Hc Hbefore.
    unfold resolveImportPath. rewrite Hrel. simpl negb. cbv iota.
    fold resolvedPath.
    change (possiblePaths (resolvedPathOf importPath importingFilePath))
      with candidates.
    now rewrite (@find_first _
                   (fun possiblePath =>
                      Fs.existsSync fs (Path.join [baseDirectory; possiblePath]))
                   candidates i c Hi Hc Hbefore).
  - intros Hasis Hts. unfold resolveImportPath.
    change (resolvedPathOf "../utils/read" "src/animals/cats.ts")
      with "src/utils/read".
    cbn [JsString.startsWith String.prefix negb possiblePaths find].
    change (if ascii_dec "." "." then true else false) with true. cbv iota.
    change ("src/utils/read" ++ ".ts") with "src/utils/read.ts".
    now rewrite Hasis, Hts.
Qed.

Lemma first_existing_candidate_wins_witness :
  resolveImportPath Sample.animals "../utils/read" "src/animals/cats.ts" "/app"
  = "src/utils/read.ts" /\
  resolveImportPath Sample.sameStem "./b.ts" "src/a.ts" "/app" = "src/b.ts".
Proof.
  split.
  - exact (proj2 (first_existing_candidate_wins Sample.animals "/app")
             eq_refl eq_refl).
  - refine (proj1 (first_existing_candidate_wins Sample.sameStem "/app")
              "./b.ts" "src/a.ts" eq_refl eq_refl 0 "src/b.ts" eq_refl eq_refl _).
    intros j c' Hj. inversion Hj.
Defined.

(** C5 fails on the code: what is probed is the disk, not the enumerated
    set, so an existing file that is not enumerated wins over the
    enumerated [src/b.ts]. *)
Lemma existing_path_wins_over_enumerated_file :
  getTypescriptFiles Sample.sameStem "/app" = Ok ["src/a.ts"; "src/b.ts"] /\
  find (fun c => existsb (String.eqb c) ["src/a.ts"; "src/b.ts"])
       (possiblePaths (resolvedPathOf "./b" "src/a.ts")) = Some "src/b.ts" /\
  resolveImportPath Sample.sameStem "./b" "src/a.ts" "/app" = "src/b".
Proof. repeat split. Qed.

(** On a disk, a directory that holds [index.ts] exists itself, and the
    path as-is is returned before the index candidates are reached. *)
Lemma directory_shadows_index :
  Fs.existsSync Sample.withIndex "/test/dir/src/component/index.ts" = true /\
  resolveImportPath Sample.withIndex "./component" "src/file.ts" "/test/dir"
  = "src/component".
Proof. split; reflexivity. Qed.

(** C6: a relative specifier none of whose candidates exists resolves to
    the normalized path below the root with [.ts] appended. *)
Theorem unresolved_import_guess (fs : Fs.t)
    (importPath importingFilePath baseDirectory : string) :
  JsString.startsWith importPath "." = true ->
  (forall c,
     In c (possiblePaths (resolvedPathOf importPath importingFilePath)) ->
     Fs.existsSync fs (Path.join [baseDirectory; c]) = false) ->
  resolveImportPath fs importPath importingFilePath baseDirectory
  = Path.normalize (Path.join [Path.dirname importingFilePath; importPath]) ++ ".ts".
Proof.
  intros Hrel Hnone. unfold resolveImportPath. rewrite Hrel. simpl negb. cbv iota.
  now rewrite find_none.
Qed.

Lemma unresolved_import_guess_witness :
  resolveImportPath Sample.withIndex "./missing" "src/file.ts" "/test/dir"
  = "src/missing.ts".
Proof.
  apply (@unresolved_import_guess Sample.withIndex "./missing" "src/file.ts"
           "/test/dir" eq_refl).
  intros c Hc. simpl in Hc.
  repeat (destruct Hc as [<- | Hc]; [reflexivity|]). destruct Hc.
Defined.

(* ================================================================== *)
(** * The oracle *)
(* ================================================================== *)

Lemma forOf_app {A S : Type} (body : S -> A -> M S) (l1 l2 : list A) (st : S)
    (w : World) :
  forOf body (l1 ++ l2)%list st w =
  match forOf body l1 st w with
  | (w1, Ok st1) => forOf body l2 st1 w1
  | (w1, Throw e) => (w1, Throw e)
  end.
Proof.
  revert st w. induction l1 as [|x l1 IH]; intros st w; [reflexivity|].
  cbn [app forOf]. rewrite !bind_unfold.
  destruct (body st x w) as [w1 [st1 | e]]; [apply IH | reflexivity].
Qed.

Section OracleCalls.
Variable JSON_parse_arguments : string -> option ToolArguments.
Variable JSON_parse_reply : string -> ParsedReply.

Let call := callOpenAI JSON_parse_arguments.
Let call_from := callOpenAI_from JSON_parse_arguments.

(** With a client, a call first sends its own request. *)
Lemma callOpenAI_from_first_request (answers : list ApiOutcome)
    (requests : list Request) (conversation : Conversation)
    (tools : list OpenAITool) (forceJSON : option bool) :
  exists more,
    snd (fst (call_from true answers requests conversation tools forceJSON))
    = (requests ++ requestOf conversation tools forceJSON :: more)%list.
Proof.
  unfold call_from.
  revert requests conversation forceJSON.
  induction answers as [|answer answers IH]; intros requests conversation forceJSON;
    cbn [callOpenAI_from negb].
  - exists []. reflexivity.
  - destruct answer as [msg | choices]; [exists []; reflexivity|].
    destruct choices as [|first others]; [exists []; reflexivity|].
    destruct (messages conversation) as [|m0 ms]; [exists []; reflexivity|].
    destruct (reply_tool_calls first) as [[|toolCall moreCalls]|];
      try (exists []; reflexivity).
    destruct (runToolCalls _ _ _ _) as [conversation' | e];
      [|exists []; reflexivity].
    destruct (IH (requests ++ [requestOf conversation tools forceJSON])%list
                conversation' None) as (more & E).
    rewrite E, <- app_assoc. eexists. reflexivity.
Qed.

Lemma callOpenAI_first_request (w : World) (conversation : Conversation)
    (tools : list OpenAITool) (forceJSON : option bool) :
  openai w = true ->
  exists more,
    sent (fst (call conversation tools forceJSON w))
    = (sent w ++ requestOf conversation tools forceJSON :: more)%list.
Proof.
  intros Hclient. unfold call, callOpenAI. rewrite Hclient.
  destruct (callOpenAI_from_first_request (pending w) (sent w) conversation tools
              forceJSON) as (more & E).
  unfold call_from in E.
  destruct (callOpenAI_from _ true (pending w) (sent w) conversation tools forceJSON)
    as [[answers requests] r].
  exists more. exact E.
Qed.

(** C9: after tool calls the follow-up call is made without [forceJSON]:
    the first request asks for a JSON object, the next one does not, and
    the answer of the whole call is the answer of the follow-up. *)
Theorem follow_up_call_drops_forceJSON (w : World) (conversation : Conversation)
    (tools : list OpenAITool) (first : AssistantMessage)
    (others : list AssistantMessage) (rest : list ApiOutcome)
    (toolCall : ToolCall) (moreCalls : list ToolCall)
    (conversation' : Conversation) :
  openai w = true ->
  pending w = ApiResponse (first :: others) :: rest ->
  messages conversation <> [] ->
  reply_tool_calls first = Some (toolCall :: moreCalls) ->
  runToolCalls JSON_parse_arguments tools (toolCall :: moreCalls)
    {| messages :=
         (messages conversation ++
          [ {| role := assistant; content := orElse (reply_content first) "";
               name := None |} ])%list |}
  = Ok conversation' ->
  let firstRequest := requestOf conversation tools (Some true) in
  let followUp := requestOf conversation' tools None in
  call conversation tools (Some true) w
  = call conversation' tools None
      {| disk := disk w; openai := openai w; pending := rest;
         sent := (sent w ++ [firstRequest])%list |} /\
  req_response_format firstRequest = Some "json_object" /\
  req_response_format followUp = None /\
  exists more,
    sent (fst (call conversation tools (Some true) w))
    = (sent w ++ firstRequest :: followUp :: more)%list.
Proof.
  intros Hclient Hpending Hmessages Hcalls Htools firstRequest followUp.
  assert (Hstep :
    call conversation tools (Some true) w
    = call conversation' tools None
        {| disk := disk w; openai := openai w; pending := rest;
           sent := (sent w ++ [firstRequest])%list |}).
  { unfold call, callOpenAI. rewrite Hclient, Hpending.
    cbn [callOpenAI_from negb disk openai pending sent].
    destruct (messages conversation) as [|m0 ms] eqn:Hm; [contradiction|].
    rewrite Hcalls, Htools. reflexivity. }
  split; [exact Hstep|]. split; [reflexivity|]. split; [reflexivity|].
  rewrite Hstep.
  destruct (callOpenAI_first_request
              {| disk := disk w; openai := openai w; pending := rest;
                 sent := (sent w ++ [firstRequest])%list |}
              conversation' tools None Hclient) as (more & E).
  exists more. rewrite E. cbn [sent]. now rewrite <- app_assoc.
Qed.

(** C8, as the code has it: when the oracle cannot be reached for a
    file, or its answer is no JSON, or the parsed answer is [null] or has
    no [modules], the run ends with that error and returns no map.  The
    shape of the answer is not checked beyond that. *)
Theorem oracle_failure_rejects (directory : string) (w w1 w2 : World)
    (files analysed : list string) (file : string) (rest : list string)
    (st1 : JsObject.t string * Descriptions) (text : string) (e : JsError) :
  let tools := [createGetImportLinesTool (disk w) directory] in
  let conversation :=
    addUserMessage (createConversation None) (analysisPrompt files file text) in
  getTypescriptFiles (disk w) directory = Ok files ->
  files = (analysed ++ file :: rest)%list ->
  forOf (analyseFile JSON_parse_arguments JSON_parse_reply
           (disk w) directory files tools)
    analysed (JsObject.empty, JsObject.empty) w = (w1, Ok st1) ->
  getFileContent (disk w) directory file = Ok text ->
  (call conversation tools (Some true) w1 = (w2, Throw e) \/
   exists response updated,
     call conversation tools (Some true) w1 = (w2, Ok (response, updated)) /\
     ((JSON_parse_reply response = NotJson /\ e = SyntaxError) \/
      (JSON_parse_reply response = NoModules /\ e = TypeError))) ->
  createModuleMap JSON_parse_arguments JSON_parse_reply directory w
  = (w2, Throw e).
Proof.
  intros tools conversation Hfiles Hsplit Hdone Htext Hfail.
  unfold createModuleMap. rewrite !bind_unfold. unfold getDisk.
  rewrite !bind_unfold. unfold lift. rewrite Hfiles, bind_unfold.
  fold tools. rewrite Hsplit at 2. rewrite forOf_app, Hdone.
  cbn [forOf]. rewrite bind_unfold. unfold analyseFile at 1.
  rewrite bind_unfold. unfold askOracle. rewrite bind_unfold. unfold lift.
  rewrite Htext, bind_unfold. fold conversation. fold call.
  destruct Hfail
    as [Hthrow | (response & updated & Hok & [[Hparse ->] | [Hparse ->]])].
  - now rewrite Hthrow.
  - rewrite Hok. cbn [fst]. now rewrite Hparse.
  - rewrite Hok. cbn [fst]. now rewrite Hparse.
Qed.

End OracleCalls.

Lemma follow_up_call_drops_forceJSON_witness :
  exists more,
    sent (fst (callOpenAI Sample.pathArgument Sample.question
                 [createGetImportLinesTool (disk Sample.asksForImports) "/app"]
                 (Some true) Sample.asksForImports))
    = requestOf Sample.question
        [createGetImportLinesTool (disk Sample.asksForImports) "/app"] (Some true)
      :: requestOf
           {| messages :=
                (messages Sample.question ++
                 [ {| role := assistant; content := ""; name := None |};
                   {| role := tool;
                      content :=
                        "<import_line>import { b } from './b'</import_line>";
                      name := Some "get_import_lines" |} ])%list |}
           [createGetImportLinesTool (disk Sample.asksForImports) "/app"] None
      :: more.
Proof.
  refine (proj2 (proj2 (proj2
    (@follow_up_call_drops_forceJSON Sample.pathArgument Sample.asksForImports
       Sample.question
       [createGetImportLinesTool (disk Sample.asksForImports) "/app"]
       _ _ _ _ _ _ eq_refl eq_refl _ eq_refl eq_refl)))).
  discriminate.
Defined.

(** C8 fails on the code: a reply that is JSON but has no [description]
    is accepted, and the file gets an entry without description. *)
Lemma reply_without_description_accepted :
  Sample.run Sample.undescribedTable "/app" Sample.undescribed
  = Ok {| modules :=
            [ ("a.ts", {| description := None; calling := []; callers := [] |}) ] |}.
Proof. vm_compute. reflexivity. Qed.

Lemma oracle_failure_rejects_witness :
  snd (createModuleMap Sample.noArguments (Sample.replyTable Sample.twoFilesTable)
         "/app" Sample.oracleGone)
  = Throw (ApiFailure "Connection error.") /\
  snd (createModuleMap Sample.noArguments (Sample.replyTable []) "/app"
         Sample.twoFiles)
  = Throw SyntaxError /\
  snd (createModuleMap Sample.noArguments Sample.allNull "/app" Sample.twoFiles)
  = Throw TypeError.
Proof.
  split; [|split].
  - refine (f_equal snd
      (@oracle_failure_rejects Sample.noArguments
         (Sample.replyTable Sample.twoFilesTable) "/app" Sample.oracleGone
         (fst (forOf (analyseFile Sample.noArguments
                        (Sample.replyTable Sample.twoFilesTable)
                        (disk Sample.oracleGone) "/app" ["a.ts"; "b.ts"]
                        [createGetImportLinesTool (disk Sample.oracleGone) "/app"])
                 ["a.ts"] (JsObject.empty, JsObject.empty) Sample.oracleGone))
         _ ["a.ts"; "b.ts"] ["a.ts"] "b.ts" [] _ "export const b = 1"
         (ApiFailure "Connection error.") eq_refl eq_refl _ eq_refl _)).
    + vm_compute. reflexivity.
    + left. vm_compute. reflexivity.
  - refine (f_equal snd
      (@oracle_failure_rejects Sample.noArguments (Sample.replyTable [])
         "/app" Sample.twoFiles Sample.twoFiles _ ["a.ts"; "b.ts"] [] "a.ts"
         ["b.ts"] _ "import { b } from './b'" SyntaxError
         eq_refl eq_refl eq_refl eq_refl _)).
    right. eexists. eexists. split; [lazy; reflexivity|].
    left. split; reflexivity.
  - refine (f_equal snd
      (@oracle_failure_rejects Sample.noArguments Sample.allNull
         "/app" Sample.twoFiles Sample.twoFiles _ ["a.ts"; "b.ts"] [] "a.ts"
         ["b.ts"] _ "import { b } from './b'" TypeError
         eq_refl eq_refl eq_refl eq_refl _)).
    right. eexists. eexists. split; [lazy; reflexivity|].
    right. split; reflexivity.
Defined.

(* ================================================================== *)
(** * Further properties of the code *)
(* ================================================================== *)

(** ** Splitting at a single character *)

Lemma prefix_char (c x : ascii) (s : string) :
  String.prefix (String c "") (String x s) = (c =? x)%char.
Proof. now rewrite prefix_cons, prefix_nil, andb_true_r. Qed.

Lemma split_go_char (c : ascii) (a cur b : string) :
  JsString.includes a (String c "") = false ->
  JsString.split_go (String c "") 0 cur (a ++ String c b)
  = (cur ++ a) :: JsString.split_go (String c "") 0 "" b.
Proof.
  revert cur. induction a as [|x a IH]; intros cur H.
  - rewrite append_nil_r. cbn [append JsString.split_go].
    now rewrite prefix_char, Ascii.eqb_refl.
  - apply includes_cons in H. destruct H as [Hp Hi].
    change (String x a ++ String c b) with (String x (a ++ String c b)).
    cbn [JsString.split_go]. rewrite prefix_char in *. rewrite Hp.
    rewrite IH by exact Hi. now rewrite append_snoc.
Qed.

Lemma split_go_char_whole (c : ascii) (a cur : string) :
  JsString.includes a (String c "") = false ->
  JsString.split_go (String c "") 0 cur a = [cur ++ a].
Proof.
  revert cur. induction a as [|x a IH]; intros cur H.
  - now rewrite append_nil_r.
  - apply includes_cons in H. destruct H as [Hp Hi].
    cbn [JsString.split_go]. rewrite Hp, IH by exact Hi. now rewrite append_snoc.
Qed.

(** Joining pieces that are free of the separator and splitting again
    gives the pieces back. *)
Lemma split_join_char (c : ascii) (pieces : list string) :
  pieces <> [] ->
  Forall (fun p => JsString.includes p (String c "") = false) pieces ->
  JsString.split (JsString.join pieces (String c "")) (String c "") = pieces.
Proof.
  unfold JsString.split.
  induction pieces as [|p pieces IH]; intros Hne Hall; [contradiction|].
  inversion Hall as [|? ? Hp Hrest]; subst.
  destruct pieces as [|q pieces].
  - cbn [JsString.join]. now rewrite split_go_char_whole.
  - change (JsString.join (p :: q :: pieces) (String c ""))
      with (p ++ String c (JsString.join (q :: pieces) (String c ""))).
    rewrite split_go_char by exact Hp. cbn [append]. f_equal.
    apply IH; [discriminate | exact Hrest].
Qed.

Lemma includes_snoc_char (c x : ascii) (cur : string) :
  JsString.includes cur (String c "") = false -> (c =? x)%char = false ->
  JsString.includes (cur ++ String x "") (String c "") = false.
Proof.
  intros Hcur Hx. induction cur as [|y cur IH].
  - cbn [append JsString.includes]. rewrite prefix_char, Hx. reflexivity.
  - apply includes_cons in Hcur. destruct Hcur as [Hp Hi].
    change (String y cur ++ String x "") with (String y (cur ++ String x "")).
    cbn [JsString.includes]. rewrite prefix_char in *. rewrite Hp. now apply IH.
Qed.

(** The pieces of a split are free of the separator. *)
Lemma split_go_char_free (c : ascii) (s cur : string) :
  JsString.includes cur (String c "") = false ->
  Forall (fun p => JsString.includes p (String c "") = false)
         (JsString.split_go (String c "") 0 cur s).
Proof.
  revert cur. induction s as [|x s IH]; intros cur Hcur.
  - repeat constructor. exact Hcur.
  - cbn [JsString.split_go]. rewrite prefix_char.
    destruct (c =? x)%char eqn:E.
    + constructor; [exact Hcur|]. cbn [String.length Nat.sub]. now apply IH.
    + apply IH. now apply includes_snoc_char.
Qed.

Lemma split_char_free (c : ascii) (s : string) :
  Forall (fun p => JsString.includes p (String c "") = false)
         (JsString.split s (String c "")).
Proof. unfold JsString.split. now apply split_go_char_free. Qed.

(** ** The oracle loop *)

(** The message appended for the assistant's answer. *)
Lemma runToolCalls_appends (parse : string -> option ToolArguments)
    (tools : list OpenAITool) (calls : list ToolCall) (c c' : Conversation) :
  runToolCalls parse tools calls c = Ok c' ->
  exists toolMessages,
    messages c' = (messages c ++ toolMessages)%list /\
    Forall (fun m => role m = tool) toolMessages /\
    map name toolMessages = map (fun call => Some (call_name call)) calls.
Proof.
  revert c. induction calls as [|call calls IH]; intros c; cbn [runToolCalls].
  - intros [= <-]. exists []. rewrite app_nil_r. repeat split. constructor.
  - destruct (toolMapGet tools (call_name call)) as [t|]; [|discriminate].
    destruct (parse (call_arguments call)) as [args|]; [|discriminate].
    destruct (tool_execute t args) as [toolResult | e]; [|discriminate].
    intros H. apply IH in H. destruct H as (more & Hm & Hroles & Hnames).
    cbn [messages] in Hm.
    exists ({| role := tool; content := toolResult;
               name := Some (call_name call) |} :: more).
    split; [now rewrite Hm, <- app_assoc|].
    split; [constructor; [reflexivity | exact Hroles]|].
    cbn [map name]. now rewrite Hnames.
Qed.

Section FurtherOracle.
Variable JSON_parse_arguments : string -> option ToolArguments.
Variable JSON_parse_reply : string -> ParsedReply.

Let call := callOpenAI JSON_parse_arguments.
Let call_from := callOpenAI_from JSON_parse_arguments.
Let create := createModuleMap JSON_parse_arguments JSON_parse_reply.

Lemma callOpenAI_from_history (client : bool) (answers : list ApiOutcome)
    (requests : list Request) (conversation : Conversation)
    (tools : list OpenAITool) (forceJSON : option bool)
    (st : list ApiOutcome * list Request) (response : string)
    (updated : Conversation) :
  call_from client answers requests conversation tools forceJSON
  = (st, Ok (response, updated)) ->
  exists added,
    messages updated
    = (messages conversation ++ added ++
       [ {| role := assistant; content := response; name := None |} ])%list /\
    Forall (fun m => role m = assistant \/ role m = tool) added.
Proof.
  unfold call_from. revert requests conversation forceJSON.
  induction answers as [|answer answers IH]; intros requests conversation forceJSON;
    cbn [callOpenAI_from]; destruct client; cbn [negb]; try discriminate.
  destruct answer as [msg | choices]; [discriminate|].
  destruct choices as [|first others]; [discriminate|].
  destruct (messages conversation) as [|m0 ms] eqn:Hm; [discriminate|].
  destruct (reply_tool_calls first) as [[|toolCall moreCalls]|].
  - intros [= <- <- <-]. exists []. cbn [messages]. split; [reflexivity | constructor].
  - destruct (runToolCalls _ _ _ _) as [conversation1 | e] eqn:Htools; [|discriminate].
    intros H. apply IH in H. destruct H as (added & Hadd & Hroles).
    apply runToolCalls_appends in Htools.
    destruct Htools as (toolMessages & Ht & Htr & _). cbn [messages] in Ht.
    exists ({| role := assistant; content := orElse (reply_content first) "";
               name := None |} :: toolMessages ++ added)%list.
    split.
    + rewrite Hadd, Ht. rewrite <- !app_assoc. simpl.
      rewrite <- ?app_assoc. reflexivity.
    + constructor; [now left|]. apply Forall_app. split; [|exact Hroles].
      eapply Forall_impl; [|exact Htr]. intros m Hr. now right.
  - intros [= <- <- <-]. exists []. cbn [messages]. split; [reflexivity | constructor].
Qed.

(** A successful call keeps the history: the conversation it returns is the
    one it was given, followed by assistant and tool messages only and
    ending with the assistant message whose text is the response. *)
Theorem callOpenAI_extends_conversation (w w' : World) (conversation : Conversation)
    (tools : list OpenAITool) (forceJSON : option bool) (response : string)
    (updated : Conversation) :
  call conversation tools forceJSON w = (w', Ok (response, updated)) ->
  exists added,
    messages updated
    = (messages conversation ++ added ++
       [ {| role := assistant; content := response; name := None |} ])%list /\
    Forall (fun m => role m = assistant \/ role m = tool) added.
Proof.
  unfold call, callOpenAI.
  destruct (callOpenAI_from _ (openai w) (pending w) (sent w) conversation tools
              forceJSON) as [[answers requests] r] eqn:E.
  intros [= _ ->]. eapply callOpenAI_from_history. exact E.
Qed.

(** A conversation without messages is never answered: with a client the
    request is sent, and reading the first message for the log then fails;
    [createConversation] without a prompt, or with the empty prompt, builds
    such a conversation. *)
Theorem empty_conversation_never_answered (w : World) (systemPrompt : option string)
    (tools : list OpenAITool) (forceJSON : option bool) :
  systemPrompt = None \/ systemPrompt = Some "" ->
  exists e,
    snd (call (createConversation systemPrompt) tools forceJSON w) = Throw e /\
    (openai w = true ->
     sent (fst (call (createConversation systemPrompt) tools forceJSON w))
     = (sent w ++ [requestOf (createConversation systemPrompt) tools forceJSON])%list /\
     (forall choice choices rest,
        pending w = ApiResponse (choice :: choices) :: rest -> e = TypeError)).
Proof.
  intros Hprompt.
  assert (Hconv : createConversation systemPrompt = {| messages := [] |}).
  { destruct Hprompt as [-> | ->]; reflexivity. }
  rewrite Hconv. unfold call, callOpenAI.
  destruct (openai w) eqn:Hclient; cbn [callOpenAI_from negb].
  - destruct (pending w) as [|[msg | [|choice choices]] rest] eqn:Hp;
      cbn [callOpenAI_from negb messages snd fst sent];
      eexists; (split; [reflexivity|]); intros _; (split; [reflexivity|]);
      intros choice' choices' rest' [=]; reflexivity.
  - destruct (callOpenAI_from _ false _ _ _ _ _) as [[a r] res] eqn:E.
    destruct (pending w); cbn [callOpenAI_from negb] in E;
      injection E as <- <- <-; eexists; (split; [reflexivity|]); discriminate.
Qed.

(** A tool call that names no registered tool makes the call fail with
    [ToolNotFound], after the single request that brought the tool call. *)
Theorem unknown_tool_rejected (w : World) (conversation : Conversation)
    (tools : list OpenAITool) (forceJSON : option bool)
    (first : AssistantMessage) (others : list AssistantMessage)
    (rest : list ApiOutcome) (toolCall : ToolCall) (moreCalls : list ToolCall) :
  openai w = true ->
  pending w = ApiResponse (first :: others) :: rest ->
  messages conversation <> [] ->
  reply_tool_calls first = Some (toolCall :: moreCalls) ->
  (forall t, In t tools -> tool_name t <> call_name toolCall) ->
  call conversation tools forceJSON w
  = ({| disk := disk w; openai := true; pending := rest;
        sent := (sent w ++ [requestOf conversation tools forceJSON])%list |},
     Throw (ToolNotFound (call_name toolCall))).
Proof.
  intros Hclient Hpending Hmessages Hcalls Hunknown.
  assert (Hget : toolMapGet tools (call_name toolCall) = None).
  { unfold toolMapGet. apply find_none. intros t Ht.
    apply in_rev in Ht. apply String.eqb_neq. now apply Hunknown. }
  unfold call, callOpenAI. rewrite Hclient, Hpending.
  cbn [callOpenAI_from negb].
  destruct (messages conversation) as [|m0 ms]; [contradiction|].
  rewrite Hcalls. cbn [runToolCalls]. rewrite Hget. reflexivity.
Qed.

(** The messages of a request: one per message of the conversation, none
    with the role [tool]; what a tool returned travels as a user message
    that names the tool. *)
Theorem tool_messages_sent_as_user (conversation : Conversation)
    (tools : list OpenAITool) (forceJSON : option bool) :
  let request := requestOf conversation tools forceJSON in
  List.length (req_messages request) = List.length (messages conversation) /\
  Forall (fun sentMessage => fst sentMessage <> tool) (req_messages request) /\
  (forall m, In m (messages conversation) -> role m = tool ->
     In (user, "Tool " ++ orElse (name m) "unknown" ++ " response: " ++ content m)
        (req_messages request)) /\
  (forall m, In m (messages conversation) -> role m <> tool ->
     In (role m, content m) (req_messages request)).
Proof.
  cbn [requestOf req_messages]. split; [apply length_map|]. split; [|split].
  - apply Forall_forall. intros rm Hin. apply in_map_iff in Hin.
    destruct Hin as (m & <- & _). unfold apiMessageOf.
    destruct (role m); discriminate.
  - intros m Hin Hrole. apply in_map_iff. exists m. split; [|exact Hin].
    unfold apiMessageOf. now rewrite Hrole.
  - intros m Hin Hrole. apply in_map_iff. exists m. split; [|exact Hin].
    unfold apiMessageOf. destruct (role m); try reflexivity. contradiction.
Qed.

(** ** Runs that never reach the oracle *)

(** A project without eligible files gives the empty map; the oracle is not
    contacted and no API key is needed. *)
Theorem empty_project_empty_map (directory : string) (w : World) :
  getTypescriptFiles (disk w) directory = Ok [] ->
  create directory w = (w, Ok {| modules := [] |}).
Proof.
  intros Hfiles. unfold create, createModuleMap.
  rewrite !bind_unfold. unfold getDisk. rewrite !bind_unfold. unfold lift.
  rewrite Hfiles. reflexivity.
Qed.

(** A directory that cannot be listed ends the run with the error of the
    listing, before anything is sent. *)
Theorem enumeration_failure_rejects (directory : string) (w : World) (e : JsError) :
  Fs.readdirSync (disk w) directory = Throw e ->
  create directory w = (w, Throw e).
Proof.
  intros Hread. unfold create, createModuleMap.
  rewrite !bind_unfold. unfold getDisk. rewrite !bind_unfold. unfold lift.
  unfold getTypescriptFiles. rewrite Hread. reflexivity.
Qed.

(** Without an API key a project with at least one readable file ends with
    [MissingApiKey], and nothing is sent. *)
Theorem missing_key_rejects (directory : string) (w : World)
    (file : string) (files : list string) (text : string) :
  openai w = false ->
  getTypescriptFiles (disk w) directory = Ok (file :: files) ->
  getFileContent (disk w) directory file = Ok text ->
  create directory w = (w, Throw MissingApiKey).
Proof.
  intros Hclient Hfiles Htext. unfold create, createModuleMap.
  rewrite !bind_unfold. unfold getDisk. rewrite !bind_unfold. unfold lift.
  rewrite Hfiles. rewrite bind_unfold. cbn [forOf]. rewrite bind_unfold.
  unfold analyseFile at 1. rewrite bind_unfold. unfold askOracle at 1.
  rewrite bind_unfold. unfold lift. rewrite Htext, bind_unfold.
  unfold callOpenAI. rewrite Hclient.
  destruct w as [d o p s]. cbn [disk openai pending sent] in *. subst o.
  destruct p; reflexivity.
Qed.

End FurtherOracle.

Lemma callOpenAI_extends_conversation_witness :
  exists added,
    [ {| role := user; content := "What does a.ts import?"; name := None |};
      {| role := assistant; content := ""; name := None |};
      {| role := tool;
         content := "<import_line>import { b } from './b'</import_line>";
         name := Some "get_import_lines" |};
      {| role := assistant; content := "It imports b."; name := None |} ]
    = (messages Sample.question ++ added ++
       [ {| role := assistant; content := "It imports b."; name := None |} ])%list /\
    Forall (fun m => role m = assistant \/ role m = tool) added.
Proof.
  exact (@callOpenAI_extends_conversation Sample.pathArgument
           Sample.asksForImports
           (fst (callOpenAI Sample.pathArgument Sample.question
                   [createGetImportLinesTool (disk Sample.asksForImports) "/app"]
                   (Some true) Sample.asksForImports))
           Sample.question
           [createGetImportLinesTool (disk Sample.asksForImports) "/app"]
           (Some true) "It imports b." _ eq_refl).
Defined.

Lemma empty_conversation_never_answered_witness :
  exists e,
    snd (callOpenAI Sample.noArguments (createConversation (Some "")) []
           (Some true) Sample.twoFiles) = Throw e /\
    (openai Sample.twoFiles = true ->
     sent (fst (callOpenAI Sample.noArguments (createConversation (Some "")) []
                  (Some true) Sample.twoFiles))
     = (sent Sample.twoFiles
        ++ [requestOf (createConversation (Some "")) [] (Some true)])%list /\
     (forall choice choices rest,
        pending Sample.twoFiles = ApiResponse (choice :: choices) :: rest ->
        e = TypeError)).
Proof.
  exact (@empty_conversation_never_answered Sample.noArguments Sample.twoFiles
           (Some "") [] (Some true) (or_intror eq_refl)).
Defined.

Lemma unknown_tool_rejected_witness :
  snd (callOpenAI Sample.pathArgument Sample.question
         [createGetImportLinesTool (disk Sample.asksUnknownTool) "/app"]
         None Sample.asksUnknownTool)
  = Throw (ToolNotFound "read_file").
Proof.
  refine (f_equal snd
    (@unknown_tool_rejected Sample.pathArgument Sample.asksUnknownTool
       Sample.question
       [createGetImportLinesTool (disk Sample.asksUnknownTool) "/app"] None
       _ _ _ _ _ eq_refl eq_refl _ eq_refl _)).
  - discriminate.
  - intros t [<- | []]. discriminate.
Defined.

Lemma empty_project_empty_map_witness :
  createModuleMap Sample.noArguments (Sample.replyTable []) "/app" Sample.noSources
  = (Sample.noSources, Ok {| modules := [] |}).
Proof.
  exact (@empty_project_empty_map Sample.noArguments (Sample.replyTable [])
           "/app" Sample.noSources eq_refl).
Defined.

Lemma enumeration_failure_rejects_witness :
  createModuleMap Sample.noArguments (Sample.replyTable []) "/missing"
    Sample.twoFiles
  = (Sample.twoFiles, Throw (FsError ENOENT Scandir "/missing")).
Proof.
  exact (@enumeration_failure_rejects Sample.noArguments (Sample.replyTable [])
           "/missing" Sample.twoFiles (FsError ENOENT Scandir "/missing") eq_refl).
Defined.

Lemma missing_key_rejects_witness :
  createModuleMap Sample.noArguments (Sample.replyTable Sample.twoFilesTable)
    "/app" Sample.noKey
  = (Sample.noKey, Throw MissingApiKey).
Proof.
  exact (@missing_key_rejects Sample.noArguments
           (Sample.replyTable Sample.twoFilesTable) "/app" Sample.noKey
           "a.ts" ["b.ts"] "import { b } from './b'" eq_refl eq_refl eq_refl).
Defined.

Lemma forward_reverse_agree_distinct_witness :
  exists eA eB,
    JsObject.get (modules Sample.twoFilesMap) "a.ts" = Some eA /\
    JsObject.get (modules Sample.twoFilesMap) "b.ts" = Some eB /\
    forall reason,
      JsObject.get (calling eA) "b.ts" = Some reason <->
      JsObject.get (callers eB) "a.ts" = Some reason.
Proof.
  apply (@forward_reverse_agree_distinct Sample.noArguments
           (Sample.replyTable Sample.twoFilesTable) "/app" Sample.twoFiles
           (fst (createModuleMap Sample.noArguments
                   (Sample.replyTable Sample.twoFilesTable) "/app"
                   Sample.twoFiles))
           Sample.twoFilesMap ["a.ts"; "b.ts"] "a.ts" "b.ts").
  - vm_compute. reflexivity.
  - vm_compute. reflexivity.
  - left. reflexivity.
  - right. left. reflexivity.
  - discriminate.
Defined.

Lemma descriptions_come_from_oracle_witness :
  (exists r,
     In ("b.ts", r)
        [ ("a.ts", {| rf_description := Some "entry point";
                      rf_modules := [ ("b.ts", "uses helper") ] |});
          ("b.ts", {| rf_description := Some "helper"; rf_modules := [] |}) ] /\
     Some "helper" = rf_description r) /\
  (exists r,
     In ("a.ts", r) [ ("a.ts", {| rf_description := None; rf_modules := [] |}) ] /\
     None = rf_description r).
Proof.
  split.
  - apply (@descriptions_come_from_oracle Sample.noArguments
             (Sample.replyTable Sample.twoFilesTable) "/app" Sample.twoFiles
             (fst (createModuleMap Sample.noArguments
                     (Sample.replyTable Sample.twoFilesTable) "/app"
                     Sample.twoFiles))
             Sample.twoFilesMap _ "b.ts"
             {| description := Some "helper"; calling := [];
                callers := [ ("a.ts", "uses helper") ] |}).
    + vm_compute. reflexivity.
    + vm_compute. reflexivity.
    + reflexivity.
  - apply (@descriptions_come_from_oracle Sample.noArguments
             (Sample.replyTable Sample.undescribedTable) "/app" Sample.undescribed
             (fst (createModuleMap Sample.noArguments
                     (Sample.replyTable Sample.undescribedTable) "/app"
                     Sample.undescribed))
             {| modules :=
                  [ ("a.ts", {| description := None; calling := [];
                                callers := [] |}) ] |}
             _ "a.ts"
             {| description := None; calling := []; callers := [] |}).
    + vm_compute. reflexivity.
    + vm_compute. reflexivity.
    + reflexivity.
Defined.

(** ** [sortObjectKeys] *)

(** The order is that of the code units: the character U+E000 sorts
    after U+10000, whose UTF-16 form starts with the surrogate 0xD800. *)
Example sort_by_code_units :
  let astral := string_of_list_ascii (map ascii_of_nat [240; 144; 128; 128]) in
  let private := string_of_list_ascii (map ascii_of_nat [238; 128; 128]) in
  sort [private; "b"; astral; "a"] = ["a"; "b"; astral; private].
Proof. reflexivity. Qed.

Lemma sort_insert_perm (k : string) (l : list string) :
  Permutation (k :: l) (sort_insert k l).
Proof.
  induction l as [|x l IH]; [reflexivity|]. simpl.
  destruct (JsString.leb k x); [reflexivity|].
  rewrite perm_swap. now constructor.
Qed.

Lemma sort_perm (l : list string) : Permutation l (sort l).
Proof.
  induction l as [|x l IH]; [reflexivity|]. simpl.
  rewrite <- sort_insert_perm. now constructor.
Qed.

Lemma leb_of_not_leb (a b : string) :
  JsString.leb a b = false -> JsString.leb b a = true.
Proof.
  unfold JsString.leb. intros H.
  destruct (String.leb_total (JsString.ranked a) (JsString.ranked b)) as [E | E];
    congruence.
Qed.

Lemma sort_insert_sorted (k : string) (l : list string) :
  isSorted l = true -> isSorted (sort_insert k l) = true.
Proof.
  induction l as [|x l IH]; intros H; [reflexivity|].
  cbn [sort_insert]. destruct (JsString.leb k x) eqn:E.
  - cbn [isSorted]. rewrite E. exact H.
  - apply leb_of_not_leb in E.
    destruct l as [|y l]; cbn [sort_insert isSorted].
    + now rewrite E.
    + cbn [isSorted] in H. apply andb_true_iff in H. destruct H as [Hxy Hrest].
      specialize (IH Hrest). cbn [sort_insert] in IH.
      destruct (JsString.leb k y); cbn [isSorted] in *.
      * rewrite E. exact IH.
      * rewrite Hxy. exact IH.
Qed.

Lemma sort_sorted (l : list string) : isSorted (sort l) = true.
Proof.
  induction l as [|x l IH]; [reflexivity|]. simpl. now apply sort_insert_sorted.
Qed.

Section SortObjectKeys.
Context {V : Type}.
Variable obj : JsObject.t V.

Let copy (result : JsObject.t V) (key : string) : JsObject.t V :=
  match JsObject.get obj key with
  | Some v => JsObject.set result key v
  | None => result
  end.

Lemma copy_all_get (l : list string) (init : JsObject.t V) (k : string) :
  k <> "__proto__" ->
  JsObject.get (fold_left copy l init) k =
  if existsb (String.eqb k) l && JsObject.has obj k
  then JsObject.get obj k else JsObject.get init k.
Proof.
  intros Hp. revert init. induction l as [|x l IH]; intros init; [reflexivity|].
  cbn [fold_left existsb]. rewrite IH. unfold copy. unfold JsObject.has.
  destruct (String.eqb_spec k x) as [<- | Hne]; cbn [orb].
  - destruct (JsObject.get obj k) as [v|] eqn:E.
    + rewrite get_set_same by exact Hp. now destruct (existsb _ l).
    + now rewrite andb_false_r.
  - assert (E : JsObject.get
                 match JsObject.get obj x with
                 | Some v => JsObject.set init x v
                 | None => init
                 end k = JsObject.get init k).
    { destruct (JsObject.get obj x); [|reflexivity].
      rewrite get_set_other; [reflexivity | congruence]. }
    now rewrite E.
Qed.

Lemma copy_all_proto (l : list string) (init : JsObject.t V) :
  JsObject.get (fold_left copy l init) "__proto__" = JsObject.get init "__proto__".
Proof.
  revert init. induction l as [|x l IH]; intros init; [reflexivity|].
  cbn [fold_left]. rewrite IH. unfold copy.
  destruct (JsObject.get obj x); [|reflexivity].
  rewrite get_set. now destruct (x =? "__proto__").
Qed.

Lemma copy_all_order (l : list string) (init : JsObject.t V) :
  NoDup l ->
  (forall k, In k l ->
     k <> "__proto__" /\ JsObject.array_index k = None /\
     JsObject.has init k = false /\ JsObject.has obj k = true) ->
  JsObject.keys (fold_left copy l init) = (JsObject.keys init ++ l)%list.
Proof.
  revert init. induction l as [|x l IH]; intros init Hnd Hall; cbn [fold_left].
  - now rewrite app_nil_r.
  - inversion Hnd as [|? ? Hx Hnd']; subst.
    destruct (Hall x (or_introl eq_refl)) as (Hp & Hi & Hh & Ho).
    unfold JsObject.has in Ho.
    destruct (JsObject.get obj x) as [v|] eqn:Hv; [|discriminate].
    assert (E : copy init x = JsObject.set init x v)
      by (unfold copy; now rewrite Hv).
    rewrite E. rewrite IH; [| exact Hnd' |].
    + rewrite keys_set_plain by assumption. now rewrite <- app_assoc.
    + intros k Hk. destruct (Hall k (or_intror Hk)) as (Hp' & Hi' & Hh' & Ho').
      repeat split; try assumption.
      unfold JsObject.has. rewrite get_set_other; [exact Hh'|].
      intros ->. contradiction.
Qed.

(** [sortObjectKeys] keeps every value; only an own ["__proto__"] property
    is lost, its assignment being taken by the inherited setter. *)
Theorem sortObjectKeys_keeps_values (k : string) :
  JsObject.get (sortObjectKeys obj) k =
  if k =? "__proto__" then None else JsObject.get obj k.
Proof.
  unfold sortObjectKeys. fold copy.
  destruct (String.eqb_spec k "__proto__") as [-> | Hp].
  - now rewrite copy_all_proto.
  - rewrite copy_all_get by exact Hp. unfold JsObject.has.
    destruct (JsObject.get obj k) as [v|] eqn:E.
    + assert (Hin : existsb (String.eqb k) (sort (JsObject.keys obj)) = true).
      { apply existsb_exists. exists k. split; [|apply String.eqb_refl].
        apply (Permutation_in _ (sort_perm _)). now apply get_in_keys with v. }
      now rewrite Hin.
    + now rewrite andb_false_r.
Qed.

(** On an object none of whose keys is an array index, the keys of the
    result are the keys of the argument in ascending order. *)
Theorem sortObjectKeys_sorts (Hwf : NoDup (JsObject.keys obj)) :
  (forall k, In k (JsObject.keys obj) ->
     JsObject.array_index k = None /\ k <> "__proto__") ->
  Permutation (JsObject.keys obj) (JsObject.keys (sortObjectKeys obj)) /\
  isSorted (JsObject.keys (sortObjectKeys obj)) = true /\
  JsObject.keys (sortObjectKeys obj) = sort (JsObject.keys obj).
Proof.
  intros Hplain.
  assert (E : JsObject.keys (sortObjectKeys obj) = sort (JsObject.keys obj)).
  { unfold sortObjectKeys. fold copy. rewrite copy_all_order; [reflexivity | |].
    - eapply Permutation_NoDup; [apply sort_perm | exact Hwf].
    - intros k Hk.
      apply (Permutation_in _ (Permutation_sym (sort_perm _))) in Hk.
      destruct (Hplain k Hk) as [Hi Hp]. repeat split; try assumption.
      now apply has_in_keys. }
  rewrite E. split; [apply sort_perm|]. split; [apply sort_sorted | reflexivity].
Qed.

End SortObjectKeys.

Lemma sortObjectKeys_sorts_witness :
  Permutation ["c"; "a"; "b"]
    (JsObject.keys (sortObjectKeys [("c", 1); ("a", 2); ("b", 3)])) /\
  isSorted (JsObject.keys (sortObjectKeys [("c", 1); ("a", 2); ("b", 3)])) = true /\
  JsObject.keys (sortObjectKeys [("c", 1); ("a", 2); ("b", 3)]) = ["a"; "b"; "c"].
Proof.
  apply (@sortObjectKeys_sorts nat [("c", 1); ("a", 2); ("b", 3)]).
  - repeat constructor; simpl; intuition discriminate.
  - intros k [<- | [<- | [<- | []]]]; split; (reflexivity || discriminate).
Defined.

(** ** [resolveImportPath] *)

(** A specifier that is not relative comes back unchanged; a relative one
    resolves to one of the five candidates, which exists on disk unless no
    candidate does, and then it is the [.ts] guess. *)
Theorem resolveImportPath_result (fs : Fs.t)
    (importPath importingFilePath baseDirectory : string) :
  let result := resolveImportPath fs importPath importingFilePath baseDirectory in
  let candidates := possiblePaths (resolvedPathOf importPath importingFilePath) in
  (JsString.startsWith importPath "." = false -> result = importPath) /\
  (JsString.startsWith importPath "." = true ->
   In result candidates /\
   (Fs.existsSync fs (Path.join [baseDirectory; result]) = true \/
    (result = resolvedPathOf importPath importingFilePath ++ ".ts" /\
     forall c, In c candidates ->
               Fs.existsSync fs (Path.join [baseDirectory; c]) = false))).
Proof.
  cbv zeta. unfold resolveImportPath. split; intros Hrel; rewrite Hrel;
    cbn [negb]; [reflexivity|].
  destruct (find _ _) as [c|] eqn:E.
  - apply find_some in E. destruct E as [Hin Hex]. auto.
  - split; [right; left; reflexivity|]. right. split; [reflexivity|].
    intros c Hc. exact (@List.find_none _ _ _ E c Hc).
Qed.

Lemma resolveImportPath_result_witness :
  resolveImportPath Sample.animals "lodash" "src/animals/cats.ts" "/app" = "lodash" /\
  In (resolveImportPath Sample.animals "../utils/read" "src/animals/cats.ts" "/app")
     (possiblePaths (resolvedPathOf "../utils/read" "src/animals/cats.ts")) /\
  (Fs.existsSync Sample.animals
     (Path.join ["/app";
                 resolveImportPath Sample.animals "../utils/read"
                   "src/animals/cats.ts" "/app"]) = true \/
   (resolveImportPath Sample.animals "../utils/read" "src/animals/cats.ts" "/app"
    = resolvedPathOf "../utils/read" "src/animals/cats.ts" ++ ".ts" /\
    forall c,
      In c (possiblePaths (resolvedPathOf "../utils/read" "src/animals/cats.ts")) ->
      Fs.existsSync Sample.animals (Path.join ["/app"; c]) = false)).
Proof.
  split.
  - exact (proj1 (resolveImportPath_result Sample.animals "lodash"
                    "src/animals/cats.ts" "/app") eq_refl).
  - exact (proj2 (resolveImportPath_result Sample.animals "../utils/read"
                    "src/animals/cats.ts" "/app") eq_refl).
Defined.

(** ** The tool [get_import_lines] *)

Lemma includes_app_char (c : ascii) (a b : string) :
  JsString.includes (a ++ b) (String c "") =
  JsString.includes a (String c "") || JsString.includes b (String c "").
Proof.
  induction a as [|x a IH].
  - cbn [append JsString.includes String.prefix orb]. reflexivity.
  - change (String x a ++ b) with (String x (a ++ b)).
    cbn [JsString.includes]. rewrite !prefix_char, IH. now rewrite orb_assoc.
Qed.

Lemma import_not_comment (s : string) :
  JsString.startsWith s "import" = true ->
  JsString.startsWith s "//" = false /\ JsString.startsWith s "/*" = false.
Proof.
  unfold JsString.startsWith. destruct s as [|x s]; [discriminate|].
  rewrite !prefix_cons. intros H. apply andb_true_iff in H. destruct H as [H _].
  apply Ascii.eqb_eq in H. subst x. split; reflexivity.
Qed.

Lemma import_filter (lines : list string) :
  filter (fun line =>
            let trimmed := JsString.trim line in
            JsString.startsWith trimmed "import"
            && negb (JsString.startsWith trimmed "//")
            && negb (JsString.startsWith trimmed "/*")) lines
  = filter (fun line => JsString.startsWith (JsString.trim line) "import") lines.
Proof.
  apply filter_ext. intros line. cbv zeta.
  destruct (JsString.startsWith (JsString.trim line) "import") eqn:E;
    [|reflexivity].
  destruct (import_not_comment _ E) as [-> ->]. reflexivity.
Qed.

(** What the oracle gets from [get_import_lines] for a file that can be
    read: the lines whose trimmed text starts with [import], in the order
    of the file, each in [<import_line>] tags, one per line of the
    answer.  The two tests for comments exclude nothing. *)
Theorem import_lines_tool_output (fs : Fs.t) (directory : string)
    (args : ToolArguments) (filePath text : string) :
  JsObject.get args "filePath" = Some filePath ->
  getFileContent fs directory filePath = Ok text ->
  let importLines :=
    filter (fun line => JsString.startsWith (JsString.trim line) "import")
           (JsString.split text nl) in
  let tagged := map (fun line => "<import_line>" ++ line ++ "</import_line>")
                    importLines in
  tool_execute (createGetImportLinesTool fs directory) args
  = Ok (JsString.join tagged nl) /\
  (importLines <> [] -> JsString.split (JsString.join tagged nl) nl = tagged).
Proof.
  intros Harg Hread importLines tagged. split.
  - cbn [createGetImportLinesTool createTool tool_execute].
    rewrite Harg, Hread. cbv zeta. now rewrite import_filter.
  - intros Hne. unfold nl. apply split_join_char.
    + subst tagged. destruct importLines; [contradiction | discriminate].
    + subst tagged. apply Forall_map. subst importLines.
      apply Forall_forall. intros line Hline. apply filter_In in Hline.
      destruct Hline as [Hline _].
      pose proof (split_char_free (ascii_of_nat 10) text) as Hfree.
      rewrite Forall_forall in Hfree. specialize (Hfree line Hline).
      rewrite !includes_app_char. fold nl in Hfree |- *. now rewrite Hfree.
Qed.

Lemma toolMapGet_single (t : OpenAITool) :
  toolMapGet [t] (tool_name t) = Some t.
Proof. unfold toolMapGet. cbn [rev app find]. now rewrite String.eqb_refl. Qed.

(** [trim] removes the white space of ECMAScript, not only that of ASCII:
    a no-break space (U+00A0) before the text and a byte-order mark
    (U+FEFF) after it go, the blank inside stays. *)
Example trim_unicode_space :
  let nbsp := string_of_list_ascii (map ascii_of_nat [194; 160]) in
  let bom := string_of_list_ascii (map ascii_of_nat [239; 187; 191]) in
  JsString.trim (nbsp ++ " import x" ++ bom ++ " ") = "import x".
Proof. reflexivity. Qed.

Lemma startsWith_append (a b : string) : JsString.startsWith (a ++ b) a = true.
Proof.
  unfold JsString.startsWith.
  induction a as [|c a IH]; cbn [append String.prefix]; [now destruct b|].
  destruct (Ascii.ascii_dec c c) as [_|N]; [exact IH | now elim N].
Qed.

(** Calls of [get_import_lines] never reject the conversation:
    whatever path the oracle names, readable or not, every call with
    parsable arguments is answered with a [tool] message, and where the
    file cannot be read the message starts with
    ['Error getting import lines: ']. *)
Theorem import_lines_calls_answered (parse : string -> option ToolArguments)
    (fs : Fs.t) (directory : string) (calls : list ToolCall) (c : Conversation) :
  Forall (fun toolCall =>
            call_name toolCall = "get_import_lines" /\
            parse (call_arguments toolCall) <> None) calls ->
  exists answers,
    runToolCalls parse [createGetImportLinesTool fs directory] calls c
    = Ok {| messages := (messages c ++ answers)%list |} /\
    map name answers = map (fun _ => Some "get_import_lines") calls /\
    Forall (fun m => role m = tool) answers /\
    forall toolCall args m e,
      In (toolCall, m) (combine calls answers) ->
      parse (call_arguments toolCall) = Some args ->
      match JsObject.get args "filePath" with
      | Some filePath => getFileContent fs directory filePath
      | None => Throw InvalidArgType
      end = Throw e ->
      JsString.startsWith (content m) "Error getting import lines: " = true.
Proof.
  revert c. induction calls as [|toolCall calls IH]; intros c Hall.
  - exists []. cbn [runToolCalls]. rewrite app_nil_r. destruct c.
    repeat split; [constructor | intros ? ? ? ? []].
  - inversion Hall as [|? ? [Hname Hparse] Hrest]; subst.
    cbn [runToolCalls]. rewrite Hname.
    change "get_import_lines"
      with (tool_name (createGetImportLinesTool fs directory)) at 1.
    rewrite toolMapGet_single.
    destruct (parse (call_arguments toolCall)) as [args|] eqn:Hargs;
      [|contradiction].
    destruct (tool_execute (createGetImportLinesTool fs directory) args)
      as [toolResult | e0] eqn:Hexec.
    2:{ cbn [createGetImportLinesTool createTool tool_execute] in Hexec.
        destruct (match JsObject.get args "filePath" with
                  | Some filePath => getFileContent fs directory filePath
                  | None => Throw InvalidArgType
                  end); discriminate. }
    destruct (IH {| messages :=
                      (messages c ++
                       [ {| role := tool; content := toolResult;
                            name := Some "get_import_lines" |} ])%list |} Hrest)
      as (answers & Hrun & Hnames & Hroles & Herr).
    exists ({| role := tool; content := toolResult;
               name := Some "get_import_lines" |} :: answers).
    split; [rewrite Hrun; cbn [messages]; now rewrite <- app_assoc|].
    split; [cbn [map name]; now rewrite Hnames|].
    split; [constructor; [reflexivity | exact Hroles]|].
    intros toolCall' args' m e Hin Hargs' Hfail.
    cbn [combine] in Hin. destruct Hin as [[= <- <-] | Hin].
    + rewrite Hargs in Hargs'. injection Hargs' as <-.
      cbn [createGetImportLinesTool createTool tool_execute] in Hexec.
      rewrite Hfail in Hexec. injection Hexec as <-.
      cbn [content].
      exact (startsWith_append "Error getting import lines: " (errorMessage e)).
    + now apply (Herr toolCall' args' m e).
Qed.

(** ** The prompt of the analysis *)

Lemma prefix_refl (s : string) : String.prefix s s = true.
Proof.
  induction s as [|c s IH]; [reflexivity|].
  now rewrite prefix_cons, Ascii.eqb_refl.
Qed.

Lemma prefix_app_l (sub a b : string) :
  String.prefix sub a = true -> String.prefix sub (a ++ b) = true.
Proof.
  revert a. induction sub as [|c sub IH]; intros a H; [apply prefix_nil|].
  destruct a as [|x a]; [discriminate|].
  change (String x a ++ b) with (String x (a ++ b)).
  rewrite prefix_cons in *. apply andb_true_iff in H. destruct H as [-> H].
  now rewrite (IH a H).
Qed.

Lemma includes_app_r (a b sub : string) :
  JsString.includes b sub = true -> JsString.includes (a ++ b) sub = true.
Proof.
  intros H. induction a as [|c a IH]; [exact H|].
  change (String c a ++ b) with (String c (a ++ b)).
  cbn [JsString.includes]. rewrite IH. apply orb_true_r.
Qed.

Lemma includes_app_l (a b sub : string) :
  JsString.includes a sub = true -> JsString.includes (a ++ b) sub = true.
Proof.
  induction a as [|c a IH]; intros H.
  - cbn [JsString.includes] in H. rewrite orb_false_r in H.
    destruct sub; [|discriminate].
    destruct b; cbn [append JsString.includes]; now rewrite prefix_nil.
  - change (String c a ++ b) with (String c (a ++ b)).
    cbn [JsString.includes] in *. apply orb_true_iff in H.
    destruct H as [H | H].
    + change (String c (a ++ b)) with (String c a ++ b).
      now rewrite (prefix_app_l _ _ b H).
    + rewrite (IH H). apply orb_true_r.
Qed.

Lemma includes_refl (s : string) : JsString.includes s s = true.
Proof. destruct s; cbn [JsString.includes]; now rewrite prefix_refl. Qed.

Lemma includes_later (c : ascii) (s sub : string) :
  JsString.includes s sub = true -> JsString.includes (String c s) sub = true.
Proof. intros H. cbn [JsString.includes]. rewrite H. apply orb_true_r. Qed.

Lemma includes_join (pieces : list string) (sep p : string) :
  In p pieces -> JsString.includes (JsString.join pieces sep) p = true.
Proof.
  induction pieces as [|q pieces IH]; intros Hin; [destruct Hin|].
  destruct pieces as [|q' pieces].
  - destruct Hin as [-> | []]. apply includes_refl.
  - change (JsString.join (q :: q' :: pieces) sep)
      with (q ++ sep ++ JsString.join (q' :: pieces) sep).
    destruct Hin as [-> | Hin].
    + apply includes_app_l, includes_refl.
    + apply includes_app_r, includes_app_r, IH, Hin.
Qed.

Lemma includes_tagged (open body close rest : string) :
  JsString.includes (open ++ body ++ close ++ rest) (open ++ body ++ close) = true.
Proof.
  rewrite <- !append_assoc. apply includes_app_l.
  rewrite !append_assoc. apply includes_refl.
Qed.

Ltac skip_to piece :=
  repeat match goal with
         | |- JsString.includes (?a ++ _) _ = true =>
             lazymatch a with
             | piece => fail
             | _ => apply includes_app_r
             end
         end.

(** The prompt names the file under analysis in [<filename>] tags, holds
    its text, and lists every enumerated path in [<file>] tags: the
    oracle is told the closed set of files it may name. *)
Theorem prompt_names_every_file (files : list string) (file text : string) :
  JsString.includes (analysisPrompt files file text)
    ("<filename>" ++ file ++ "</filename>") = true /\
  JsString.includes (analysisPrompt files file text) text = true /\
  forall f, In f files ->
    JsString.includes (analysisPrompt files file text)
      ("<file>" ++ f ++ "</file>") = true.
Proof.
  unfold analysisPrompt. split; [|split].
  - skip_to (JsString.join (map (fun f => "<file>" ++ f ++ "</file>") files) nl).
    apply includes_app_r.
    match goal with
    | |- JsString.includes (?lit ++ file ++ ?after ++ ?rest) _ = true =>
        change (lit ++ file ++ after ++ rest)
          with (String.substring 0 (String.length lit - 10) lit ++
                "<filename>" ++ file ++ "</filename>" ++
                String.substring 11 (String.length after - 11) after ++ rest)
    end.
    apply includes_app_r, includes_tagged.
  - skip_to text. apply includes_app_l, includes_refl.
  - intros f Hf.
    skip_to (JsString.join (map (fun f => "<file>" ++ f ++ "</file>") files) nl).
    apply includes_app_l, includes_join.
    apply (in_map (fun f => "<file>" ++ f ++ "</file>")), Hf.
Qed.

Lemma import_lines_tool_output_witness :
  tool_execute (createGetImportLinesTool Sample.commented "/app")
    [ ("filePath", "src/a.ts") ]
  = Ok ("<import_line>import { b } from './b'</import_line>" ++ nl ++
        "<import_line>  import c from './c'</import_line>") /\
  JsString.split
    ("<import_line>import { b } from './b'</import_line>" ++ nl ++
     "<import_line>  import c from './c'</import_line>") nl
  = [ "<import_line>import { b } from './b'</import_line>";
      "<import_line>  import c from './c'</import_line>" ].
Proof.
  destruct (@import_lines_tool_output Sample.commented "/app"
              [ ("filePath", "src/a.ts") ] "src/a.ts"
              ("// entry" ++ nl ++ "import { b } from './b'" ++ nl ++
               "  import c from './c'" ++ nl ++ "export const a = b + c")
              eq_refl eq_refl) as [Hout Hlines].
  split; [exact Hout|]. apply Hlines. discriminate.
Defined.

Lemma import_lines_calls_answered_witness :
  exists answers,
    runToolCalls Sample.pathArgument
      [createGetImportLinesTool Sample.commented "/app"]
      [ {| call_name := "get_import_lines"; call_arguments := "src/a.ts" |};
        {| call_name := "get_import_lines"; call_arguments := "src/gone.ts" |} ]
      Sample.question
    = Ok {| messages := (messages Sample.question ++ answers)%list |} /\
    map name answers
    = [Some "get_import_lines"; Some "get_import_lines"] /\
    Forall (fun m => role m = tool) answers /\
    forall toolCall args m e,
      In (toolCall, m)
         (combine
            [ {| call_name := "get_import_lines"; call_arguments := "src/a.ts" |};
              {| call_name := "get_import_lines";
                 call_arguments := "src/gone.ts" |} ] answers) ->
      Sample.pathArgument (call_arguments toolCall) = Some args ->
      match JsObject.get args "filePath" with
      | Some filePath => getFileContent Sample.commented "/app" filePath
      | None => Throw InvalidArgType
      end = Throw e ->
      JsString.startsWith (content m) "Error getting import lines: " = true.
Proof.
  apply (@import_lines_calls_answered Sample.pathArgument Sample.commented "/app"
           [ {| call_name := "get_import_lines"; call_arguments := "src/a.ts" |};
             {| call_name := "get_import_lines";
                call_arguments := "src/gone.ts" |} ] Sample.question).
  repeat constructor; discriminate.
Defined.

(** ** The views of an entry, exactly *)

Lemma append_inj_l (a x y : string) : a ++ x = a ++ y -> x = y.
Proof.
  induction a as [|c a IH]; cbn [append]; intros H; [exact H|].
  injection H as H. now apply IH.
Qed.

Lemma edgeKey_inj_target (A p B : string) : edgeKey A p = edgeKey A B -> p = B.
Proof.
  unfold edgeKey. intros E. apply append_inj_l in E. now apply append_inj_l in E.
Qed.

Lemma edgeKey_inj (f p A B : string) :
  JsString.includes f "->" = false -> JsString.includes A "->" = false ->
  edgeKey f p = edgeKey A B -> f = A /\ p = B.
Proof.
  intros Hf HA E.
  destruct (decodeKey_edgeKey_source f p Hf) as [E1 _].
  destruct (decodeKey_edgeKey_source A B HA) as [E2 _].
  rewrite E, E2 in E1. injection E1 as <-.
  split; [reflexivity | eapply edgeKey_inj_target; exact E].
Qed.

Section LastWrite.
Context {St : Type}.
Variable step : St -> string * string -> St.
Variable view : St -> option string.
Variable hit : string -> bool.

(** A loop whose steps overwrite what [view] reads exactly at the keys
    [hit] leaves the value of the last such key. *)
Lemma last_write (es : list (string * string)) (s : St) :
  (forall s k v, In (k, v) es ->
     view (step s (k, v)) = if hit k then Some v else view s) ->
  view (fold_left step es s)
  = fold_left (fun o kv => if hit (fst kv) then Some (snd kv) else o) es (view s).
Proof.
  revert s. induction es as [|[k v] es IH]; intros s H; [reflexivity|].
  cbn [fold_left fst snd]. rewrite IH.
  - now rewrite H by now left.
  - intros s' k' v' Hin. apply H. now right.
Qed.

End LastWrite.

Lemma last_write_list (es : list (string * string)) (k0 v0 : string)
    (init : option string) :
  (forall v, In (k0, v) es -> v = v0) ->
  fold_left (fun o kv => if fst kv =? k0 then Some (snd kv) else o) es init
  = if existsb (fun kv => fst kv =? k0) es then Some v0 else init.
Proof.
  revert init. induction es as [|[k v] es IH]; intros init H; [reflexivity|].
  cbn [fold_left existsb fst snd].
  rewrite IH by (intros v' Hin; apply H; now right).
  destruct (String.eqb_spec k k0) as [-> | Hne]; cbn [orb]; [|reflexivity].
  rewrite (H v (or_introl eq_refl)). now destruct (existsb _ es).
Qed.

Lemma last_write_entries (o : JsObject.t string) (k0 : string)
    (init : option string) :
  fold_left (fun acc kv => if fst kv =? k0 then Some (snd kv) else acc)
            (JsObject.entries o) init
  = match JsObject.get o k0 with Some v => Some v | None => init end.
Proof.
  destruct (JsObject.get o k0) as [v0|] eqn:E.
  - rewrite (@last_write_list _ k0 v0).
    + assert (H : existsb (fun kv : string * string => fst kv =? k0)
                          (JsObject.entries o) = true).
      { apply existsb_exists. exists (k0, v0). split; [|apply String.eqb_refl].
        apply in_entries. split; [now apply get_in_keys with v0 | exact E]. }
      now rewrite H.
    + intros v Hin. apply in_entries in Hin. destruct Hin as [_ Hv]. congruence.
  - rewrite (@last_write_list _ k0 "").
    + destruct (existsb _ _) eqn:H; [|reflexivity].
      apply existsb_exists in H. destruct H as ([k v] & Hin & Hk).
      cbn [fst] in Hk. apply String.eqb_eq in Hk. subst k.
      apply in_entries in Hin. destruct Hin as [_ Hv]. congruence.
    + intros v Hin. apply in_entries in Hin. destruct Hin as [_ Hv]. congruence.
Qed.

Lemma edgeStep_forward_write (A B kAB : string)
    (s : JsObject.t string * JsObject.t string) (k v : string) :
  B <> "__proto__" ->
  decodeKey kAB = (Some A, Some B) ->
  (fst (decodeKey k) = Some A ->
   JsString.property_key (snd (decodeKey k)) = B -> k = kAB) ->
  JsObject.get (fst (edgeStep A s (k, v))) B
  = if k =? kAB then Some v else JsObject.get (fst s) B.
Proof.
  intros HB Hd Hk. destruct s as [calls callers]. unfold edgeStep.
  destruct (String.eqb_spec k kAB) as [-> | Hne].
  - rewrite Hd. cbn [JsString.strict_eq JsString.property_key].
    rewrite String.eqb_refl. cbn [fst]. now apply get_set_same.
  - destruct (decodeKey k) as [m1 m2]. cbn [fst snd] in Hk.
    destruct m1 as [m1|]; cbn [JsString.strict_eq].
    + destruct (String.eqb_spec m1 A) as [-> | H1].
      * cbn [fst]. rewrite get_set_other; [reflexivity|].
        intros Hpk. apply Hne. now apply Hk.
      * now destruct (JsString.strict_eq m2 A).
    + now destruct (JsString.strict_eq m2 A).
Qed.

Lemma edgesOf_forward (cr : JsObject.t string) (A B : string) :
  B <> "__proto__" ->
  JsString.includes A "->" = false -> JsString.includes B "->" = false ->
  (forall k, In k (JsObject.keys cr) ->
     fst (decodeKey k) = Some A ->
     JsString.property_key (snd (decodeKey k)) = B -> k = edgeKey A B) ->
  JsObject.get (fst (edgesOf cr A)) B = JsObject.get cr (edgeKey A B).
Proof.
  intros HB HA HBf Hk. unfold edgesOf.
  rewrite (@last_write _ (edgeStep A) (fun s => JsObject.get (fst s) B)
             (fun k => k =? edgeKey A B)).
  - rewrite last_write_entries. cbn [fst JsObject.get JsObject.empty].
    now destruct (JsObject.get cr (edgeKey A B)).
  - intros s k v Hin. apply edgeStep_forward_write;
      [exact HB | now apply decodeKey_edgeKey |].
    apply Hk. apply in_entries in Hin. tauto.
Qed.

Lemma edgeStep_calls_proto (file : string) (entries : list (string * string))
    (acc : JsObject.t string * JsObject.t string) :
  JsObject.get (fst (fold_left (edgeStep file) entries acc)) "__proto__"
  = JsObject.get (fst acc) "__proto__".
Proof.
  revert acc. induction entries as [|[k r] entries IH]; intros [calls callers];
    [reflexivity|].
  cbn [fold_left]. rewrite IH. unfold edgeStep.
  destruct (decodeKey k) as [m1 m2].
  destruct (JsString.strict_eq m1 file).
  - cbn [fst]. rewrite get_set.
    now destruct (JsString.property_key m2 =? "__proto__").
  - now destruct (JsString.strict_eq m2 file).
Qed.

Lemma recordEdge_fold_get_same (A B : string) (m cr : JsObject.t string) :
  JsObject.get (fold_left (recordEdge A) (JsObject.entries m) cr) (edgeKey A B)
  = match JsObject.get m B with
    | Some v => Some v
    | None => JsObject.get cr (edgeKey A B)
    end.
Proof.
  rewrite (@last_write _ (recordEdge A) (fun cr => JsObject.get cr (edgeKey A B))
             (fun p => p =? B)).
  - apply last_write_entries.
  - intros s p v _. unfold recordEdge. rewrite get_set.
    destruct (String.eqb_spec (edgeKey A p) "__proto__") as [E | _];
      [now apply edgeKey_not_proto in E|].
    destruct (String.eqb_spec p B) as [-> | Hne].
    + now rewrite String.eqb_refl.
    + destruct (String.eqb_spec (edgeKey A p) (edgeKey A B)) as [E | _];
        [|reflexivity].
      exfalso. apply Hne. now apply edgeKey_inj_target with A.
Qed.

Lemma recordEdge_fold_get_other (f A B : string) (edges : list (string * string))
    (cr : JsObject.t string) :
  JsString.includes f "->" = false -> JsString.includes A "->" = false ->
  f <> A ->
  JsObject.get (fold_left (recordEdge f) edges cr) (edgeKey A B)
  = JsObject.get cr (edgeKey A B).
Proof.
  intros Hf HA Hne. revert cr.
  induction edges as [|[p v] edges IH]; intros cr; [reflexivity|].
  cbn [fold_left]. rewrite IH. unfold recordEdge. apply get_set_other.
  intros E. apply edgeKey_inj in E; tauto.
Qed.

Lemma recordAll_get_absent (answers : list (string * ReturnFormat))
    (st : JsObject.t string * Descriptions) (A B : string) :
  JsString.includes A "->" = false ->
  (forall f, In f (map fst answers) -> JsString.includes f "->" = false) ->
  ~ In A (map fst answers) ->
  JsObject.get (fst (recordAll answers st)) (edgeKey A B)
  = JsObject.get (fst st) (edgeKey A B).
Proof.
  intros HA. revert st.
  induction answers as [|[f r] answers IH]; intros [cr md] Hfree Hnot;
    [reflexivity|].
  rewrite recordAll_cons, IH.
  - cbn [recordAnalysis fst]. apply recordEdge_fold_get_other; [|exact HA|].
    + apply Hfree. now left.
    + intros ->. apply Hnot. now left.
  - intros f' Hf'. apply Hfree. now right.
  - intros Hin. apply Hnot. now right.
Qed.

(** What [callingReasons] holds at the key of an edge, when each file was
    analysed once. *)
Lemma recordAll_get (answers : list (string * ReturnFormat))
    (st : JsObject.t string * Descriptions) (A : string) (r : ReturnFormat)
    (B : string) :
  NoDup (map fst answers) ->
  (forall f, In f (map fst answers) -> JsString.includes f "->" = false) ->
  In (A, r) answers ->
  JsObject.get (fst (recordAll answers st)) (edgeKey A B)
  = match JsObject.get (rf_modules r) B with
    | Some v => Some v
    | None => JsObject.get (fst st) (edgeKey A B)
    end.
Proof.
  revert st. induction answers as [|[f r0] answers IH]; intros [cr md] Hnd Hfree Hin;
    [destruct Hin|].
  cbn [map fst] in Hnd. inversion Hnd as [|? ? Hf Hnd']; subst.
  rewrite recordAll_cons. destruct Hin as [[= -> ->] | Hin].
  - rewrite recordAll_get_absent.
    + cbn [recordAnalysis fst]. apply recordEdge_fold_get_same.
    + apply Hfree. now left.
    + intros f' Hf'. apply Hfree. now right.
    + exact Hf.
  - rewrite IH; [| exact Hnd' | intros f' Hf'; apply Hfree; now right | exact Hin].
    cbn [recordAnalysis fst].
    rewrite recordEdge_fold_get_other; [reflexivity | | |].
    + apply Hfree. now left.
    + apply Hfree. right. apply in_map_iff. now exists (A, r).
    + intros ->. apply Hf. apply in_map_iff. now exists (A, r).
Qed.

Lemma answer_unique (answers : list (string * ReturnFormat)) (A : string)
    (r r' : ReturnFormat) :
  NoDup (map fst answers) -> In (A, r) answers -> In (A, r') answers -> r = r'.
Proof.
  induction answers as [|[f r0] answers IH]; intros Hnd H H'; [destruct H|].
  cbn [map fst] in Hnd. inversion Hnd as [|? ? Hf Hnd']; subst.
  destruct H as [H | H]; destruct H' as [H' | H'].
  - congruence.
  - injection H as -> ->. exfalso. apply Hf. apply in_map_iff. now exists (A, r').
  - injection H' as -> ->. exfalso. apply Hf. apply in_map_iff. now exists (A, r).
  - now apply IH.
Qed.

(** The forward view of [A] read at [B], for answers that name paths
    without ["->"]. *)
Lemma forward_view_value (answers : list (string * ReturnFormat))
    (A : string) (r : ReturnFormat) (B : string) :
  NoDup (map fst answers) ->
  (forall f, In f (map fst answers) -> JsString.includes f "->" = false) ->
  In (A, r) answers ->
  (forall p, In p (JsObject.keys (rf_modules r)) ->
             JsString.includes p "->" = false) ->
  let st := recordAll answers (JsObject.empty, JsObject.empty) in
  JsObject.get (fst (edgesOf (fst st) A)) B
  = if B =? "__proto__" then None else JsObject.get (rf_modules r) B.
Proof.
  intros Hnd Hfree HA Hpaths st.
  assert (HAf : JsString.includes A "->" = false).
  { apply Hfree. apply in_map_iff. now exists (A, r). }
  destruct (String.eqb_spec B "__proto__") as [-> | HB].
  { unfold edgesOf. now rewrite edgeStep_calls_proto. }
  assert (Hkeys : forall k, In k (JsObject.keys (fst st)) ->
            fst (decodeKey k) = Some A ->
            exists p, In p (JsObject.keys (rf_modules r)) /\ k = edgeKey A p /\
                      snd (decodeKey k) = Some p).
  { intros k Hk H1. apply recordAll_keys in Hk.
    destruct Hk as [[] | (f & r' & p & Hf & Hp & ->)].
    assert (Hff : JsString.includes f "->" = false).
    { apply Hfree. apply in_map_iff. now exists (f, r'). }
    destruct (decodeKey_edgeKey_source f p Hff) as [E1 E2].
    rewrite E1 in H1. injection H1 as ->.
    rewrite (@answer_unique answers A r' r Hnd Hf HA) in Hp.
    exists p. split; [exact Hp|]. split; [reflexivity|].
    rewrite decodeKey_edgeKey; [reflexivity | exact Hff | now apply Hpaths]. }
  destruct (JsString.includes B "->") eqn:HBf.
  - (* no reported path and no key of the view contains an arrow *)
    assert (E1 : JsObject.get (rf_modules r) B = None).
    { destruct (JsObject.get (rf_modules r) B) as [v|] eqn:E; [|reflexivity].
      apply get_in_keys in E. apply Hpaths in E. congruence. }
    rewrite E1.
    destruct (JsObject.get (fst (edgesOf (fst st) A)) B) as [v|] eqn:E;
      [|reflexivity].
    exfalso. apply get_in_keys in E. unfold edgesOf in E.
    apply edgeStep_calls_keys in E.
    destruct E as [[] | (k & v' & Hin & H1 & H2)].
    apply in_entries in Hin. destruct Hin as [Hk _].
    destruct (Hkeys k Hk H1) as (p & Hp & _ & E2).
    rewrite E2 in H2. cbn [JsString.property_key] in H2. subst p.
    apply Hpaths in Hp. congruence.
  - rewrite edgesOf_forward; [| exact HB | exact HAf | exact HBf |].
    + subst st. rewrite (@recordAll_get answers (JsObject.empty, JsObject.empty) A r B Hnd Hfree HA).
      now destruct (JsObject.get (rf_modules r) B).
    + intros k Hk H1 H2. destruct (Hkeys k Hk H1) as (p & _ & -> & E2).
      rewrite E2 in H2. cbn [JsString.property_key] in H2. now subst p.
Qed.

Section ExactViews.
Variable JSON_parse_arguments : string -> option ToolArguments.
Variable JSON_parse_reply : string -> ParsedReply.

Let create := createModuleMap JSON_parse_arguments JSON_parse_reply.
Let answersOf := oracleAnswers JSON_parse_arguments JSON_parse_reply.

(** When no path is enumerated twice and neither the enumerated paths nor
    the paths the oracle names for [A] contain ["->"], the forward view of
    [A] is the oracle's [modules] for [A], value by value; only a key
    ["__proto__"] is lost. *)
Theorem forward_view_is_oracle_answer (directory : string) (w w' : World)
    (m : ModuleMap) (answers : list (string * ReturnFormat))
    (A : string) (r : ReturnFormat) :
  create directory w = (w', Ok m) ->
  answersOf directory w = (w', Ok answers) ->
  NoDup (map fst answers) ->
  (forall f, In f (map fst answers) -> JsString.includes f "->" = false) ->
  In (A, r) answers ->
  (forall p, In p (JsObject.keys (rf_modules r)) ->
             JsString.includes p "->" = false) ->
  exists e,
    JsObject.get (modules m) A = Some e /\
    forall B,
      JsObject.get (calling e) B
      = if B =? "__proto__" then None else JsObject.get (rf_modules r) B.
Proof.
  intros Hrun Hans Hnd Hfree HA Hpaths.
  pose proof (oracleAnswers_files _ _ _ _ Hans) as Hfiles.
  destruct (createModuleMap_inv _ _ _ _ Hrun Hfiles) as (answers' & Hans' & _ & ->).
  unfold answersOf in Hans. rewrite Hans in Hans'. injection Hans' as <-.
  assert (HAin : In A (map fst answers)).
  { apply in_map_iff. now exists (A, r). }
  destruct (getTypescriptFiles_plain _ _ A Hfiles HAin) as (HAp & _ & _).
  eexists. split; [now apply assemble_get|].
  intros B. rewrite calling_moduleEntryOf.
  now apply forward_view_value.
Qed.

(** Under the same conditions the reverse view of an enumerated [B] holds,
    at every other file [A], the reason the oracle gave for [B] in its
    answer for [A], and nothing when it gave none. *)
Theorem reverse_view_is_oracle_answer (directory : string) (w w' : World)
    (m : ModuleMap) (answers : list (string * ReturnFormat))
    (A B : string) (r : ReturnFormat) :
  create directory w = (w', Ok m) ->
  answersOf directory w = (w', Ok answers) ->
  NoDup (map fst answers) ->
  (forall f, In f (map fst answers) -> JsString.includes f "->" = false) ->
  In (A, r) answers ->
  (forall p, In p (JsObject.keys (rf_modules r)) ->
             JsString.includes p "->" = false) ->
  In B (map fst answers) -> A <> B ->
  exists e,
    JsObject.get (modules m) B = Some e /\
    JsObject.get (callers e) A = JsObject.get (rf_modules r) B.
Proof.
  intros Hrun Hans Hnd Hfree HA Hpaths HB HAB.
  pose proof (oracleAnswers_files _ _ _ _ Hans) as Hfiles.
  destruct (createModuleMap_inv _ _ _ _ Hrun Hfiles) as (answers' & Hans' & _ & ->).
  unfold answersOf in Hans. rewrite Hans in Hans'. injection Hans' as <-.
  assert (HAin : In A (map fst answers)).
  { apply in_map_iff. now exists (A, r). }
  destruct (getTypescriptFiles_plain _ _ A Hfiles HAin) as (HAp & _ & _).
  destruct (getTypescriptFiles_plain _ _ B Hfiles HB) as (HBp & HBu & _).
  eexists. split; [now apply assemble_get|].
  rewrite callers_moduleEntryOf. unfold edgesOf.
  rewrite <- (@edgeStep_agree A B _ (JsObject.empty, JsObject.empty)
                (JsObject.empty, JsObject.empty) HAB HBp HAp HBu eq_refl).
  pose proof (@forward_view_value answers A r B Hnd Hfree HA Hpaths) as Hv.
  cbv zeta in Hv. unfold edgesOf in Hv. rewrite Hv.
  apply String.eqb_neq in HBp. now rewrite HBp.
Qed.

End ExactViews.

Lemma forward_view_is_oracle_answer_witness :
  exists e,
    JsObject.get (modules Sample.twoFilesMap) "a.ts" = Some e /\
    forall B,
      JsObject.get (calling e) B
      = if B =? "__proto__" then None
        else JsObject.get [ ("b.ts", "uses helper") ] B.
Proof.
  apply (@forward_view_is_oracle_answer Sample.noArguments
           (Sample.replyTable Sample.twoFilesTable) "/app" Sample.twoFiles
           (fst (createModuleMap Sample.noArguments
                   (Sample.replyTable Sample.twoFilesTable) "/app"
                   Sample.twoFiles))
           Sample.twoFilesMap
           [ ("a.ts", {| rf_description := Some "entry point";
                         rf_modules := [ ("b.ts", "uses helper") ] |});
             ("b.ts", {| rf_description := Some "helper"; rf_modules := [] |}) ]
           "a.ts"
           {| rf_description := Some "entry point";
              rf_modules := [ ("b.ts", "uses helper") ] |}).
  - vm_compute. reflexivity.
  - vm_compute. reflexivity.
  - repeat constructor; simpl; intuition discriminate.
  - intros f [<- | [<- | []]]; reflexivity.
  - left. reflexivity.
  - intros p [<- | []]. reflexivity.
Defined.

Lemma reverse_view_is_oracle_answer_witness :
  exists e,
    JsObject.get (modules Sample.twoFilesMap) "b.ts" = Some e /\
    JsObject.get (callers e) "a.ts" = Some "uses helper".
Proof.
  apply (@reverse_view_is_oracle_answer Sample.noArguments
           (Sample.replyTable Sample.twoFilesTable) "/app" Sample.twoFiles
           (fst (createModuleMap Sample.noArguments
                   (Sample.replyTable Sample.twoFilesTable) "/app"
                   Sample.twoFiles))
           Sample.twoFilesMap
           [ ("a.ts", {| rf_description := Some "entry point";
                         rf_modules := [ ("b.ts", "uses helper") ] |});
             ("b.ts", {| rf_description := Some "helper"; rf_modules := [] |}) ]
           "a.ts" "b.ts"
           {| rf_description := Some "entry point";
              rf_modules := [ ("b.ts", "uses helper") ] |}).
  - vm_compute. reflexivity.
  - vm_compute. reflexivity.
  - repeat constructor; simpl; intuition discriminate.
  - intros f [<- | [<- | []]]; reflexivity.
  - left. reflexivity.
  - intros p [<- | []]. reflexivity.
  - right. left. reflexivity.
  - discriminate.
Defined.

Lemma calling_keys_reported_witness :
  exists r p,
    In ("a.ts", r)
       [ ("a.ts", {| rf_description := Some "entry point";
                     rf_modules := [ ("b.ts", "uses helper") ] |});
         ("b.ts", {| rf_description := Some "helper"; rf_modules := [] |}) ] /\
    In p (JsObject.keys (rf_modules r)) /\
    JsString.property_key (fst (decodeKey p)) = "b.ts".
Proof.
  apply (@calling_keys_reported Sample.noArguments
           (Sample.replyTable Sample.twoFilesTable) "/app" Sample.twoFiles
           (fst (createModuleMap Sample.noArguments
                   (Sample.replyTable Sample.twoFilesTable) "/app"
                   Sample.twoFiles))
           Sample.twoFilesMap _ "a.ts"
           {| description := Some "entry point";
              calling := [ ("b.ts", "uses helper") ];
              callers := [] |} "b.ts").
  - vm_compute. reflexivity.
  - vm_compute. reflexivity.
  - intros f [<- | [<- | []]]; reflexivity.
  - reflexivity.
  - left. reflexivity.
Defined.

(** ** The two versions of the directory walk *)

Lemma filter_flat_map {A B : Type} (keep : B -> bool) (f : A -> list B)
    (l : list A) :
  filter keep (flat_map f l) = flat_map (fun x => filter keep (f x)) l.
Proof.
  induction l as [|x l IH]; [reflexivity|].
  cbn [flat_map]. now rewrite filter_app, IH.
Qed.

Lemma flat_map_ext_in {A B : Type} (f g : A -> list B) (l : list A) :
  Forall (fun x => f x = g x) l -> flat_map f l = flat_map g l.
Proof.
  induction 1 as [|x l Hx _ IH]; [reflexivity|].
  cbn [flat_map]. now rewrite Hx, IH.
Qed.

Lemma endsWith_includes (s sub : string) :
  JsString.endsWith s sub = true -> JsString.includes s sub = true.
Proof.
  induction s as [|c s IH]; cbn [JsString.endsWith JsString.includes]; intros H.
  - rewrite orb_false_r in *. apply String.eqb_eq in H. subst sub. reflexivity.
  - apply orb_true_iff in H. destruct H as [H | H].
    + apply String.eqb_eq in H. subst sub. now rewrite prefix_refl.
    + rewrite (IH H). apply orb_true_r.
Qed.

(** A suffix without ["/"] of a path lies in its last segment. *)
Lemma endsWith_last_segment (a n suf : string) :
  JsString.includes suf "/" = false ->
  JsString.endsWith (a ++ "/" ++ n) suf = JsString.endsWith n suf.
Proof.
  intros Hsuf.
  assert (Hne : forall b, (b ++ "/" ++ n =? suf) = false).
  { intros b. apply String.eqb_neq. intros E.
    assert (H : JsString.includes (b ++ "/" ++ n) "/" = true).
    { apply includes_app_r, includes_app_l. reflexivity. }
    rewrite E in H. congruence. }
  induction a as [|c a IH].
  - change ("" ++ "/" ++ n) with (String "/" n).
    cbn [JsString.endsWith]. pose proof (Hne "") as H.
    change ("" ++ "/" ++ n) with (String "/" n) in H. now rewrite H.
  - change (String c a ++ "/" ++ n) with (String c (a ++ "/" ++ n)).
    cbn [JsString.endsWith]. rewrite IH. pose proof (Hne (String c a)) as H.
    change (String c a ++ "/" ++ n) with (String c (a ++ "/" ++ n)) in H.
    now rewrite H.
Qed.

Lemma relativeTo_endsWith (rel n suf : string) :
  JsString.includes suf "/" = false ->
  JsString.endsWith (relativeTo rel n) suf = JsString.endsWith n suf.
Proof.
  intros H. unfold relativeTo. destruct (rel =? ""); [reflexivity|].
  now apply endsWith_last_segment.
Qed.

Lemma traverseEntry_versions (e : Fs.Entry) (rel : string) :
  traverseEntry eligibleName rel e
  = filter (fun p => negb (JsString.endsWith p ".config.ts"))
           (traverseEntry eligibleNameEarlier rel e).
Proof.
  revert rel. induction e as [n text | d children IH | n] using Entry_nested_ind;
    intros rel; cbn [traverseEntry Fs.entry_name].
  - unfold eligibleName. fold (eligibleNameEarlier n).
    destruct (eligibleNameEarlier n); cbn [andb filter]; [|reflexivity].
    now rewrite relativeTo_endsWith.
  - destruct (visibleDirectory d); [|reflexivity].
    rewrite filter_flat_map. apply flat_map_ext_in.
    apply Forall_forall. intros child Hin. rewrite Forall_forall in IH.
    now apply IH.
  - reflexivity.
Qed.

(** The two versions of [getTypescriptFiles] in [utils.ts] fail alike,
    and the later one lists the paths of the earlier one, in the same
    order, without those that end in [.config.ts]. *)
Theorem later_walk_drops_config_files (fs : Fs.t) (directory : string) :
  match getTypescriptFilesEarlier fs directory, getTypescriptFiles fs directory with
  | Ok earlier, Ok later =>
      later = filter (fun p => negb (JsString.endsWith p ".config.ts")) earlier
  | Throw e, Throw e' => e = e'
  | _, _ => False
  end.
Proof.
  unfold getTypescriptFilesEarlier, getTypescriptFiles.
  destruct (Fs.readdirSync fs directory) as [entries | e]; [|reflexivity].
  unfold traverseDirectory. rewrite filter_flat_map.
  apply flat_map_ext_in. apply Forall_forall. intros entry _.
  apply traverseEntry_versions.
Qed.

(** ** Reading what the walk lists *)

Lemma cleanSegment_spec (seg : string) :
  cleanSegment seg = true ->
  (seg =? "") = false /\ (seg =? ".") = false /\ (seg =? "..") = false.
Proof.
  unfold cleanSegment. intros H. apply negb_true_iff in H.
  apply orb_false_iff in H. destruct H as [H H3].
  apply orb_false_iff in H. tauto.
Qed.

Lemma normalize_go_step_clean (a : bool) (res : list string) (seg : string)
    (rest : list string) :
  cleanSegment seg = true ->
  Path.normalize_go a res (seg :: rest) = Path.normalize_go a (seg :: res) rest.
Proof.
  intros H. destruct (cleanSegment_spec _ H) as (H1 & H2 & H3).
  cbn [Path.normalize_go]. now rewrite H1, H2, H3.
Qed.

Lemma normalize_go_clean_run (a : bool) (l res : list string) :
  forallb cleanSegment l = true ->
  Path.normalize_go a res l = (rev res ++ l)%list.
Proof.
  revert res. induction l as [|seg l IH]; intros res H.
  - cbn [Path.normalize_go]. now rewrite app_nil_r.
  - cbn [forallb] in H. apply andb_true_iff in H. destruct H as [Hseg Hl].
    rewrite normalize_go_step_clean by exact Hseg. rewrite IH by exact Hl.
    cbn [rev]. now rewrite <- app_assoc.
Qed.

Lemma normalize_go_app_clean (a : bool) (l clean res : list string) :
  forallb cleanSegment clean = true ->
  Path.normalize_go a res (l ++ clean)
  = (Path.normalize_go a res l ++ clean)%list.
Proof.
  intros Hc. revert res. induction l as [|seg l IH]; intros res.
  - cbn [app Path.normalize_go]. now apply normalize_go_clean_run.
  - cbn [app Path.normalize_go].
    destruct ((seg =? "") || (seg =? ".")); [apply IH|].
    destruct (seg =? ".."); [|apply IH].
    destruct res as [|last res']; [apply IH|].
    destruct (last =? ".."); apply IH.
Qed.

Lemma normalize_go_false_clean (l res : list string) :
  forallb cleanSegment res = true ->
  forallb cleanSegment (Path.normalize_go false res l) = true.
Proof.
  revert res. induction l as [|seg l IH]; intros res H.
  - cbn [Path.normalize_go]. apply forallb_forall. intros x Hx.
    apply in_rev in Hx. rewrite forallb_forall in H. now apply H.
  - cbn [Path.normalize_go].
    destruct ((seg =? "") || (seg =? ".")) eqn:E1; [now apply IH|].
    destruct (seg =? "..") eqn:E2.
    + destruct res as [|last res']; [now apply IH|].
      destruct (last =? ".."); apply IH; [exact H|].
      cbn [forallb] in H. apply andb_true_iff in H. tauto.
    + apply IH. cbn [forallb]. rewrite H, andb_true_r.
      unfold cleanSegment. now rewrite E1, E2.
Qed.

Lemma normalize_go_false_free (l res : list string) :
  Forall (fun s => JsString.includes s "/" = false) l ->
  Forall (fun s => JsString.includes s "/" = false) res ->
  Forall (fun s => JsString.includes s "/" = false)
         (Path.normalize_go false res l).
Proof.
  intros Hl. revert res. induction Hl as [|seg l Hseg _ IH]; intros res H.
  - cbn [Path.normalize_go]. apply Forall_rev. exact H.
  - cbn [Path.normalize_go].
    destruct ((seg =? "") || (seg =? ".")); [now apply IH|].
    destruct (seg =? "..").
    + destruct res as [|last res']; [now apply IH|].
      destruct (last =? ".."); apply IH; [exact H|].
      now inversion H.
    + apply IH. now constructor.
Qed.

Lemma split_go_app_char (c : ascii) (a cur b : string) :
  JsString.split_go (String c "") 0 cur (a ++ String c b)
  = (JsString.split_go (String c "") 0 cur a ++
     JsString.split_go (String c "") 0 "" b)%list.
Proof.
  revert cur. induction a as [|x a IH]; intros cur.
  - cbn [append JsString.split_go app]. now rewrite prefix_char, Ascii.eqb_refl.
  - change (String x a ++ String c b) with (String x (a ++ String c b)).
    cbn [JsString.split_go]. rewrite !prefix_char.
    destruct (c =? x)%char.
    + cbn [String.length Nat.sub app]. now rewrite IH.
    + apply IH.
Qed.

Lemma split_app_char (c : ascii) (a b : string) :
  JsString.split (a ++ String c b) (String c "")
  = (JsString.split a (String c "") ++ JsString.split b (String c ""))%list.
Proof. unfold JsString.split. apply split_go_app_char. Qed.

(** The relative path of the walk is its segments joined by ["/"]. *)
Lemma relativeTo_fold_join (l : list string) (rel : string) :
  rel <> "" -> fold_left relativeTo l rel = JsString.join (rel :: l) "/".
Proof.
  revert rel. induction l as [|n l IH]; intros rel Hrel; [reflexivity|].
  cbn [fold_left]. unfold relativeTo at 2.
  apply String.eqb_neq in Hrel. rewrite Hrel. rewrite IH.
  - destruct l as [|m l]; [reflexivity|].
    change (JsString.join ((rel ++ "/" ++ n) :: m :: l) "/")
      with ((rel ++ "/" ++ n) ++ "/" ++ JsString.join (m :: l) "/").
    change (JsString.join (rel :: n :: m :: l) "/")
      with (rel ++ "/" ++ n ++ "/" ++ JsString.join (m :: l) "/").
    now rewrite !append_assoc.
  - destruct rel; [discriminate | discriminate].
Qed.

Lemma relativePath_join (n : string) (l : list string) :
  n <> "" -> fold_left relativeTo (n :: l) "" = JsString.join (n :: l) "/".
Proof. intros H. cbn [fold_left]. now apply relativeTo_fold_join. Qed.

Lemma join_last (l : list string) (n sep : string) :
  exists a, JsString.join (l ++ [n]) sep = a ++ n.
Proof.
  induction l as [|m l (a & IH)].
  - now exists "".
  - destruct l as [|m' l].
    + exists (m ++ sep). cbn [app JsString.join]. now rewrite append_assoc.
    + exists (m ++ sep ++ a).
      change (JsString.join ((m :: m' :: l) ++ [n]) sep)
        with (m ++ sep ++ JsString.join ((m' :: l) ++ [n]) sep).
      now rewrite IH, !append_assoc.
Qed.

Lemma endsWith_app_last (a n suf : string) :
  n <> "" -> suf <> "" -> String.length suf = 1 ->
  JsString.endsWith (a ++ n) suf = JsString.endsWith n suf.
Proof.
  intros Hn Hsuf Hlen. induction a as [|c a IH]; [reflexivity|].
  change (String c a ++ n) with (String c (a ++ n)).
  cbn [JsString.endsWith]. rewrite IH.
  assert (E : (String c (a ++ n) =? suf) = false).
  { apply String.eqb_neq. intros E. rewrite <- E in Hlen.
    cbn [String.length] in Hlen. injection Hlen as Hlen.
    destruct a; [destruct n; [now apply Hn | discriminate] | discriminate]. }
  now rewrite E.
Qed.

Lemma not_endsWith_separator (a n : string) :
  n <> "" -> JsString.includes n "/" = false ->
  JsString.endsWith (a ++ n) "/" = false.
Proof.
  intros Hn Hfree. rewrite endsWith_app_last; [| exact Hn | discriminate | reflexivity].
  destruct (JsString.endsWith n "/") eqn:E; [|reflexivity].
  apply endsWith_includes in E. congruence.
Qed.

Lemma distinct_not_in (n : string) (names : list string) :
  existsb (String.eqb n) names = false -> ~ In n names.
Proof.
  intros H Hin. assert (E : existsb (String.eqb n) names = true).
  { apply existsb_exists. exists n. split; [exact Hin | apply String.eqb_refl]. }
  congruence.
Qed.

Lemma find_entry_unique (entries : list Fs.Entry) (e : Fs.Entry) :
  distinct (map Fs.entry_name entries) = true -> In e entries ->
  Fs.find_entry (Fs.entry_name e) entries = Some e.
Proof.
  induction entries as [|e0 entries IH]; intros Hd Hin; [destruct Hin|].
  cbn [map distinct] in Hd. apply andb_true_iff in Hd. destruct Hd as [H0 Hd].
  apply negb_true_iff in H0. apply distinct_not_in in H0.
  cbn [Fs.find_entry]. destruct Hin as [-> | Hin].
  - now rewrite String.eqb_refl.
  - destruct (String.eqb_spec (Fs.entry_name e0) (Fs.entry_name e)) as [E | _].
    + exfalso. apply H0. rewrite E. now apply in_map.
    + now apply IH.
Qed.

Lemma find_entry_in (entries : list Fs.Entry) (n : string) (e : Fs.Entry) :
  Fs.find_entry n entries = Some e -> In e entries.
Proof.
  induction entries as [|e0 entries IH]; [discriminate|].
  cbn [Fs.find_entry]. destruct (Fs.entry_name e0 =? n).
  - intros [= ->]. now left.
  - intros H. right. now apply IH.
Qed.

Lemma wellFormedTree_child (entries : list Fs.Entry) (d : string)
    (children : list Fs.Entry) :
  wellFormedTree entries = true -> In (Fs.Directory d children) entries ->
  properName d = true /\ wellFormedTree children = true.
Proof.
  unfold wellFormedTree. intros H Hin. apply andb_true_iff in H.
  destruct H as [_ H]. rewrite forallb_forall in H. specialize (H _ Hin).
  cbn [wellFormed Fs.entry_name] in H. apply andb_true_iff in H. tauto.
Qed.

Lemma wellFormedTree_file (entries : list Fs.Entry) (n text : string) :
  wellFormedTree entries = true -> In (Fs.File n text) entries ->
  properName n = true.
Proof.
  unfold wellFormedTree. intros H Hin. apply andb_true_iff in H.
  destruct H as [_ H]. rewrite forallb_forall in H. specialize (H _ Hin).
  cbn [wellFormed Fs.entry_name] in H. now rewrite andb_true_r in H.
Qed.

Lemma walk_cons (entries : list Fs.Entry) (seg : string) (rest : list string)
    (d : string) (children : list Fs.Entry) :
  rest <> [] ->
  Fs.find_entry seg entries = Some (Fs.Directory d children) ->
  Fs.walk entries (seg :: rest) = Fs.walk children rest.
Proof.
  intros Hrest Hfind. destruct rest as [|s rest]; [contradiction|].
  cbn [Fs.walk]. now rewrite Hfind.
Qed.

Lemma walk_located (entries : list Fs.Entry) (dirs : list string) (n : string) :
  locatedIn entries dirs n -> wellFormedTree entries = true ->
  forallb properName (dirs ++ [n]) = true /\
  exists text, Fs.walk entries (dirs ++ [n]) = Some (Fs.File n text).
Proof.
  induction 1 as [entries n text Hin | entries d children dirs n Hin Hsub IH];
    intros Hwf.
  - split.
    + cbn [app forallb]. now rewrite (wellFormedTree_file _ _ _ Hwf Hin).
    + exists text. cbn [app Fs.walk].
      apply (find_entry_unique _ (Fs.File n text)); [|exact Hin].
      unfold wellFormedTree in Hwf. apply andb_true_iff in Hwf. tauto.
  - destruct (wellFormedTree_child _ _ _ Hwf Hin) as [Hd Hch].
    destruct (IH Hch) as (Hnames & text & Hwalk). split.
    + cbn [app forallb]. now rewrite Hd.
    + exists text. cbn [app]. rewrite (@walk_cons entries d _ d children).
      * exact Hwalk.
      * now destruct dirs.
      * apply (find_entry_unique _ (Fs.Directory d children)); [|exact Hin].
        unfold wellFormedTree in Hwf. apply andb_true_iff in Hwf. tauto.
Qed.

Lemma walk_app (entries : list Fs.Entry) (segs rest : list string) (d : string)
    (children : list Fs.Entry) :
  Fs.walk entries segs = Some (Fs.Directory d children) -> rest <> [] ->
  Fs.walk entries (segs ++ rest) = Fs.walk children rest.
Proof.
  revert entries. induction segs as [|seg segs IH]; intros entries H Hrest;
    [discriminate|].
  destruct segs as [|seg' segs].
  - cbn [Fs.walk] in H. cbn [app]. now apply walk_cons with d.
  - change ((seg :: seg' :: segs) ++ rest)%list
      with (seg :: ((seg' :: segs) ++ rest))%list.
    cbn [Fs.walk] in H.
    destruct (Fs.find_entry seg entries) as [[? ? | d0 ch0 | ?]|] eqn:E;
      try discriminate.
    rewrite (@walk_cons entries seg _ d0 ch0); [| discriminate | exact E].
    now apply IH.
Qed.

Lemma walk_wellFormed (entries : list Fs.Entry) (segs : list string) (d : string)
    (children : list Fs.Entry) :
  wellFormedTree entries = true ->
  Fs.walk entries segs = Some (Fs.Directory d children) ->
  wellFormedTree children = true.
Proof.
  revert entries. induction segs as [|seg segs IH]; intros entries Hwf H;
    [discriminate|].
  destruct segs as [|seg' segs].
  - cbn [Fs.walk] in H. apply find_entry_in in H.
    now destruct (wellFormedTree_child _ _ _ Hwf H).
  - cbn [Fs.walk] in H.
    destruct (Fs.find_entry seg entries) as [[? ? | d0 ch0 | ?]|] eqn:E;
      try discriminate.
    apply find_entry_in in E.
    destruct (wellFormedTree_child _ _ _ Hwf E) as [_ Hch].
    now apply (IH ch0).
Qed.

(** What a successful [readdirSync] has found. *)
Lemma readdirSync_inv (fs : Fs.t) (dir : string) (entries : list Fs.Entry) :
  Fs.readdirSync fs dir = Ok entries ->
  (Path.normalizeSegments dir false = [] /\ entries = fs) \/
  (exists d, Fs.walk fs (Path.normalizeSegments dir false)
             = Some (Fs.Directory d entries)).
Proof.
  unfold Fs.readdirSync, Fs.lookup. destruct (dir =? ""); [discriminate|].
  destruct (Path.normalizeSegments dir false) as [|seg segs] eqn:E.
  - destruct (JsString.endsWith dir "/" && negb (Fs.is_directory Fs.Root));
      [discriminate|].
    intros [= <-]. now left.
  - destruct (Fs.walk fs (seg :: segs)) as [e|]; cbn [option_map];
      [|discriminate].
    destruct (JsString.endsWith dir "/" && negb (Fs.is_directory (Fs.At e)));
      [discriminate|].
    destruct e as [? ? | d children | ?]; try discriminate.
    intros [= <-]. right. now exists d.
Qed.

Lemma properName_spec (n : string) :
  properName n = true ->
  cleanSegment n = true /\ JsString.includes n "/" = false /\ n <> "".
Proof.
  unfold properName. intros H. apply andb_true_iff in H. destruct H as [Hc Hf].
  apply negb_true_iff in Hf. repeat split; try assumption.
  intros ->. discriminate.
Qed.

Lemma join_nonempty (n : string) (l : list string) (sep : string) :
  n <> "" -> JsString.join (n :: l) sep <> "".
Proof.
  intros Hn. destruct l as [|m l]; [exact Hn|].
  change (JsString.join (n :: m :: l) sep)
    with (n ++ sep ++ JsString.join (m :: l) sep).
  destruct n; [contradiction | discriminate].
Qed.

(** Reading the file below [directory] at the segments [rest], when the
    segments of the joined path resolve to a regular file. *)
Lemma readFileSync_segments (fs : Fs.t) (directory : string)
    (rest : list string) (n text : string) :
  JsString.startsWith directory "/" = true ->
  forallb properName (rest ++ [n]) = true ->
  Fs.walk fs (Path.normalizeSegments directory false ++ rest ++ [n])
  = Some (Fs.File n text) ->
  Fs.readFileSync fs (Path.join [directory; JsString.join (rest ++ [n]) "/"])
  = Ok text.
Proof.
  intros Habs Hnames Hwalk.
  set (p := JsString.join (rest ++ [n]) "/").
  set (segsD := Path.normalizeSegments directory false) in *.
  set (segs := (segsD ++ rest ++ [n])%list) in *.
  assert (Hn : properName n = true).
  { rewrite forallb_forall in Hnames. apply Hnames, in_or_app. right. now left. }
  destruct (properName_spec _ Hn) as (_ & Hnfree & Hnne).
  assert (Hclean : forallb cleanSegment (rest ++ [n]) = true).
  { apply forallb_forall. intros x Hx. rewrite forallb_forall in Hnames.
    now destruct (properName_spec _ (Hnames x Hx)). }
  assert (Hfree : Forall (fun s => JsString.includes s "/" = false) (rest ++ [n])).
  { apply Forall_forall. intros x Hx. rewrite forallb_forall in Hnames.
    now destruct (properName_spec _ (Hnames x Hx)) as (_ & H & _). }
  assert (Hp : JsString.split p "/" = (rest ++ [n])%list).
  { subst p. apply (split_join_char "/"); [now destruct rest | exact Hfree]. }
  assert (Hpne : p <> "").
  { subst p. destruct rest as [|r rest]; [exact Hnne|].
    apply join_nonempty. cbn [app forallb] in Hnames.
    apply andb_true_iff in Hnames. destruct Hnames as [Hr _].
    now destruct (properName_spec _ Hr). }
  assert (Hdne : directory <> "") by (intros ->; discriminate).
  (* the joined path *)
  assert (Hsegs : Path.normalizeSegments (directory ++ "/" ++ p) false = segs).
  { unfold Path.normalizeSegments.
    change (directory ++ "/" ++ p) with (directory ++ String "/" p).
    rewrite (split_app_char "/"), Hp.
    now rewrite normalize_go_app_clean by exact Hclean. }
  assert (HsegsClean : forallb cleanSegment segs = true).
  { subst segs. rewrite forallb_app. rewrite Hclean, andb_true_r.
    apply normalize_go_false_clean. reflexivity. }
  assert (HsegsFree : Forall (fun s => JsString.includes s "/" = false) segs).
  { subst segs. apply Forall_app. split; [|exact Hfree].
    apply normalize_go_false_free; [|constructor].
    apply (split_char_free "/"). }
  assert (Hsegsne : segs <> []).
  { subst segs. intros E. apply app_eq_nil in E. destruct E as [_ E].
    now destruct rest. }
  destruct (join_last (segsD ++ rest) n "/") as (a & Ha).
  rewrite <- app_assoc in Ha. fold segs in Ha.
  destruct (join_last rest n "/") as (b & Hb). fold p in Hb.
  assert (Hjoin : Path.join [directory; p] = "/" ++ JsString.join segs "/").
  { unfold Path.join. cbn [filter].
    apply String.eqb_neq in Hdne, Hpne. rewrite Hdne, Hpne. cbn [negb].
    change (JsString.join [directory; p] "/") with (directory ++ "/" ++ p).
    unfold Path.normalize, Path.normalizeString.
    assert (E0 : (directory ++ "/" ++ p =? "") = false).
    { apply String.eqb_neq. destruct directory; discriminate. }
    rewrite E0.
    assert (E1 : JsString.startsWith (directory ++ "/" ++ p) "/" = true).
    { unfold JsString.startsWith in *. now apply prefix_app_l. }
    rewrite E1. cbn [negb]. rewrite Hsegs.
    assert (E2 : JsString.endsWith (directory ++ "/" ++ p) "/" = false).
    { rewrite Hb, <- !append_assoc. now apply not_endsWith_separator. }
    rewrite E2.
    assert (E3 : (JsString.join segs "/" =? "") = false).
    { apply String.eqb_neq. destruct segs as [|s0 segs0]; [contradiction|].
      apply join_nonempty. cbn [forallb] in HsegsClean.
      apply andb_true_iff in HsegsClean. destruct HsegsClean as [H0 _].
      destruct (cleanSegment_spec _ H0) as (H1 & _).
      now apply String.eqb_neq. }
    now rewrite E3. }
  unfold Fs.readFileSync, Fs.lookup. rewrite Hjoin.
  change ("/" ++ JsString.join segs "/" =? "") with false. cbv iota.
  assert (Hagain :
    Path.normalizeSegments ("/" ++ JsString.join segs "/") false = segs).
  { unfold Path.normalizeSegments.
    change ("/" ++ JsString.join segs "/")
      with ("" ++ String "/" (JsString.join segs "/")).
    rewrite (split_app_char "/").
    rewrite (split_join_char "/") by assumption.
    change (JsString.split "" "/") with [""]. cbn [app Path.normalize_go].
    change (("" =? "") || ("" =? ".")) with true. cbv iota.
    rewrite normalize_go_clean_run by exact HsegsClean. reflexivity. }
  rewrite Hagain. destruct segs as [|s0 segs0] eqn:Es; [contradiction|].
  rewrite Hwalk. cbn [option_map Fs.is_directory negb].
  rewrite andb_true_r.
  assert (E4 : JsString.endsWith ("/" ++ JsString.join (s0 :: segs0) "/") "/"
               = false).
  { rewrite Ha, <- append_assoc. now apply not_endsWith_separator. }
  now rewrite E4.
Qed.

(** On a well-formed file system every path that [getTypescriptFiles]
    lists below an absolute directory is read by [getFileContent]: the
    analysis loop cannot fail for a missing file. *)
Theorem enumerated_files_readable (fs : Fs.t) (directory : string)
    (files : list string) (p : string) :
  wellFormedTree fs = true ->
  JsString.startsWith directory "/" = true ->
  getTypescriptFiles fs directory = Ok files ->
  In p files ->
  exists text, getFileContent fs directory p = Ok text.
Proof.
  intros Hwf Habs Hfiles Hp. unfold getTypescriptFiles in Hfiles.
  destruct (Fs.readdirSync fs directory) as [entries|] eqn:Hdir; [|discriminate].
  injection Hfiles as <-. apply traverseDirectory_spec in Hp.
  destruct Hp as (dirs & n & Hloc & _ & _ & ->).
  apply readdirSync_inv in Hdir.
  assert (Hsub : wellFormedTree entries = true /\
                 forall rest, rest <> [] ->
                   Fs.walk fs (Path.normalizeSegments directory false ++ rest)
                   = Fs.walk entries rest).
  { destruct Hdir as [[E ->] | (d & Hwalk)].
    - split; [exact Hwf|]. intros rest _. now rewrite E.
    - split; [now apply (walk_wellFormed _ _ Hwf Hwalk)|].
      intros rest Hrest. now apply walk_app with d. }
  destruct Hsub as [Hwfe Hdown].
  destruct (walk_located Hloc Hwfe) as (Hnames & text & Hwalk).
  exists text. unfold getFileContent.
  assert (Hrel : fold_left relativeTo (dirs ++ [n])%list ""
                 = JsString.join (dirs ++ [n]) "/").
  { destruct (dirs ++ [n])%list as [|x l] eqn:E; [now destruct dirs|].
    apply relativePath_join. cbn [forallb] in Hnames.
    apply andb_true_iff in Hnames. destruct Hnames as [Hx _].
    now destruct (properName_spec _ Hx). }
  rewrite Hrel. apply readFileSync_segments; [exact Habs | exact Hnames |].
  rewrite Hdown; [exact Hwalk | now destruct dirs].
Qed.

Lemma enumerated_files_readable_witness :
  exists text, getFileContent Sample.configured "/app" "lib/f.ts" = Ok text.
Proof.
  apply (@enumerated_files_readable Sample.configured "/app"
           ["index.ts"; "lib/f.ts"] "lib/f.ts").
  - reflexivity.
  - reflexivity.
  - reflexivity.
  - right. left. reflexivity.
Defined.

(** ** No path is listed twice *)

Lemma join_split_inj (l l' : list string) :
  l <> [] -> l' <> [] ->
  forallb properName l = true -> forallb properName l' = true ->
  JsString.join l "/" = JsString.join l' "/" -> l = l'.
Proof.
  intros Hl Hl' Hp Hp' E.
  assert (Hfree : forall x, forallb properName x = true ->
            Forall (fun s => JsString.includes s "/" = false) x).
  { intros x Hx. apply Forall_forall. intros s Hs. rewrite forallb_forall in Hx.
    now destruct (properName_spec _ (Hx s Hs)) as (_ & H & _). }
  rewrite <- (split_join_char "/" Hl (Hfree l Hp)).
  rewrite <- (split_join_char "/" Hl' (Hfree l' Hp')).
  now rewrite E.
Qed.

Lemma relativePath_inj (rel : string) (l l' : list string) :
  l <> [] -> l' <> [] ->
  forallb properName l = true -> forallb properName l' = true ->
  fold_left relativeTo l rel = fold_left relativeTo l' rel -> l = l'.
Proof.
  intros Hl Hl' Hp Hp'.
  destruct l as [|n t]; [contradiction|].
  destruct l' as [|n' t']; [contradiction|].
  assert (Hn : n <> "").
  { cbn [forallb] in Hp. apply andb_true_iff in Hp. destruct Hp as [H _].
    now destruct (properName_spec _ H). }
  assert (Hn' : n' <> "").
  { cbn [forallb] in Hp'. apply andb_true_iff in Hp'. destruct Hp' as [H _].
    now destruct (properName_spec _ H). }
  destruct (String.eqb_spec rel "") as [-> | Hrel].
  - rewrite !relativePath_join by assumption.
    now apply join_split_inj.
  - rewrite !relativeTo_fold_join by exact Hrel.
    change (JsString.join (rel :: n :: t) "/")
      with (rel ++ "/" ++ JsString.join (n :: t) "/").
    change (JsString.join (rel :: n' :: t') "/")
      with (rel ++ "/" ++ JsString.join (n' :: t') "/").
    intros E. apply append_inj_l in E. apply append_inj_l in E.
    now apply join_split_inj.
Qed.

Lemma located_head (e : Fs.Entry) (dirs : list string) (n : string) :
  locatedIn [e] dirs n -> exists t, (dirs ++ [n])%list = Fs.entry_name e :: t.
Proof.
  intros H. inversion H as [? ? text H1 | ? d ch ? ? H1 Hsub]; subst.
  - destruct H1 as [-> | []]. now exists [].
  - destruct H1 as [-> | []]. now exists (dirs0 ++ [n])%list.
Qed.

Lemma wellFormedTree_single (e : Fs.Entry) :
  wellFormed e = true -> wellFormedTree [e] = true.
Proof.
  intros H. unfold wellFormedTree. cbn [map distinct existsb forallb negb andb].
  now rewrite H.
Qed.

Lemma traverse_disjoint (eligible : string -> bool) (rel : string)
    (e e' : Fs.Entry) (p : string) :
  wellFormed e = true -> wellFormed e' = true ->
  In p (traverseEntry eligible rel e) -> In p (traverseEntry eligible rel e') ->
  Fs.entry_name e = Fs.entry_name e'.
Proof.
  intros Hwf Hwf' H H'.
  apply traverseEntry_spec in H. apply traverseEntry_spec in H'.
  destruct H as (dirs & n & Hloc & _ & _ & ->).
  destruct H' as (dirs' & n' & Hloc' & _ & _ & E).
  destruct (walk_located Hloc (wellFormedTree_single _ Hwf)) as [Hp _].
  destruct (walk_located Hloc' (wellFormedTree_single _ Hwf')) as [Hp' _].
  apply relativePath_inj in E; try assumption;
    try (intros E0; apply app_eq_nil in E0; destruct E0; discriminate).
  destruct (located_head Hloc) as (t & Ht).
  destruct (located_head Hloc') as (t' & Ht').
  congruence.
Qed.

Lemma traverseDirectory_NoDup_of_entries (eligible : string -> bool)
    (entries : list Fs.Entry) (rel : string) :
  Forall (fun e => forall rel, wellFormed e = true ->
                               NoDup (traverseEntry eligible rel e)) entries ->
  wellFormedTree entries = true ->
  NoDup (traverseDirectory eligible rel entries).
Proof.
  unfold traverseDirectory, wellFormedTree.
  induction 1 as [|e entries He _ IH]; intros Hwf; [constructor|].
  cbn [map distinct forallb] in Hwf.
  apply andb_true_iff in Hwf. destruct Hwf as [Hd Hall].
  apply andb_true_iff in Hd. destruct Hd as [Hfresh Hd].
  apply andb_true_iff in Hall. destruct Hall as [Hwfe Hall].
  apply negb_true_iff in Hfresh. apply distinct_not_in in Hfresh.
  cbn [flat_map]. apply NoDup_app.
  - now apply He.
  - apply IH. now rewrite Hd, Hall.
  - intros p Hp Hp'. apply in_flat_map in Hp'. destruct Hp' as (e' & Hin & Hp').
    apply Hfresh. rewrite forallb_forall in Hall.
    rewrite (traverse_disjoint eligible rel e e' p Hwfe (Hall e' Hin) Hp Hp').
    now apply in_map.
Qed.

Lemma traverseEntry_NoDup (eligible : string -> bool) (e : Fs.Entry)
    (rel : string) :
  wellFormed e = true -> NoDup (traverseEntry eligible rel e).
Proof.
  revert rel. induction e as [n text | d children IH | n] using Entry_nested_ind;
    intros rel Hwf; cbn [traverseEntry Fs.entry_name].
  - destruct (eligible n); repeat constructor. intros [].
  - destruct (visibleDirectory d); [|constructor].
    cbn [wellFormed] in Hwf. apply andb_true_iff in Hwf. destruct Hwf as [_ Hwf].
    now apply (@traverseDirectory_NoDup_of_entries eligible children _ IH).
  - constructor.
Qed.

(** On a well-formed file system [getTypescriptFiles] lists no path
    twice. *)
Theorem enumeration_lists_no_path_twice (fs : Fs.t) (directory : string)
    (files : list string) :
  wellFormedTree fs = true ->
  getTypescriptFiles fs directory = Ok files ->
  NoDup files.
Proof.
  intros Hwf Hfiles. unfold getTypescriptFiles in Hfiles.
  destruct (Fs.readdirSync fs directory) as [entries|] eqn:Hdir; [|discriminate].
  injection Hfiles as <-. apply readdirSync_inv in Hdir.
  assert (Hwfe : wellFormedTree entries = true).
  { destruct Hdir as [[_ ->] | (d & Hwalk)]; [exact Hwf|].
    now apply (walk_wellFormed _ _ Hwf Hwalk). }
  apply traverseDirectory_NoDup_of_entries; [|exact Hwfe].
  apply Forall_forall. intros e _ rel. apply traverseEntry_NoDup.
Qed.

Lemma enumeration_lists_no_path_twice_witness :
  getTypescriptFiles Sample.configured "/app" = Ok ["index.ts"; "lib/f.ts"] /\
  NoDup ["index.ts"; "lib/f.ts"].
Proof.
  split; [reflexivity|].
  apply (@enumeration_lists_no_path_twice Sample.configured "/app"
           ["index.ts"; "lib/f.ts"]); reflexivity.
Defined.

(** ** One fresh conversation per file *)

Section FreshConversations.
Variable JSON_parse_arguments : string -> option ToolArguments.
Variable JSON_parse_reply : string -> ParsedReply.

Let call := callOpenAI JSON_parse_arguments.
Let create := createModuleMap JSON_parse_arguments JSON_parse_reply.

Lemma callOpenAI_needs_client (w w' : World) (conversation : Conversation)
    (tools : list OpenAITool) (forceJSON : option bool)
    (answer : string * Conversation) :
  call conversation tools forceJSON w = (w', Ok answer) -> openai w = true.
Proof.
  unfold call, callOpenAI. destruct w as [d o p s].
  cbn [disk openai pending sent]. destruct o; [reflexivity|].
  destruct p; cbn [callOpenAI_from negb]; discriminate.
Qed.

Lemma forOf_rounds (fs : Fs.t) (directory : string) (files todo : list string)
    (st st' : JsObject.t string * Descriptions) (w w' : World) :
  forOf (analyseFile JSON_parse_arguments JSON_parse_reply fs directory files
           [createGetImportLinesTool fs directory]) todo st w = (w', Ok st') ->
  exists rounds,
    sent w' = (sent w ++ concat rounds)%list /\
    Forall2 (fun file round =>
               exists text more,
                 getFileContent fs directory file = Ok text /\
                 round = requestOf
                           (addUserMessage (createConversation None)
                              (analysisPrompt files file text))
                           [createGetImportLinesTool fs directory] (Some true)
                         :: more)
            todo rounds.
Proof.
  revert st w. induction todo as [|file todo IH]; intros st w.
  - cbn [forOf]. intros [= <- _]. exists []. cbn [concat].
    rewrite app_nil_r. split; [reflexivity | constructor].
  - cbn [forOf]. rewrite bind_unfold. unfold analyseFile at 1.
    rewrite bind_unfold. unfold askOracle. rewrite bind_unfold. unfold lift.
    destruct (getFileContent fs directory file) as [text | e] eqn:Htext;
      [|discriminate].
    rewrite bind_unfold. fold call.
    destruct (call _ _ _ w) as [w1 [answer | e]] eqn:Hcall; [|discriminate].
    destruct (JSON_parse_reply (fst answer)) as [| |r]; try discriminate.
    unfold ret at 1 2. intros Hrest. apply IH in Hrest.
    destruct Hrest as (rounds & Hsent & Hall).
    pose proof (callOpenAI_needs_client _ _ _ _ Hcall) as Hclient.
    destruct (callOpenAI_first_request JSON_parse_arguments w
                (addUserMessage (createConversation None)
                   (analysisPrompt files file text))
                [createGetImportLinesTool fs directory] (Some true) Hclient)
      as (more & Hfirst).
    fold call in Hfirst. rewrite Hcall in Hfirst. cbn [fst] in Hfirst.
    exists ((requestOf
               (addUserMessage (createConversation None)
                  (analysisPrompt files file text))
               [createGetImportLinesTool fs directory] (Some true) :: more)
            :: rounds).
    split.
    + rewrite Hsent, Hfirst. cbn [concat]. now rewrite <- !app_assoc.
    + constructor; [|exact Hall]. exists text, more. auto.
Qed.

(** Every file is analysed in a conversation of its own: the requests of
    a successful run fall into one round per enumerated file, in the
    order of the enumeration, and each round opens with a request that
    holds nothing but the prompt for that file, offers the tool
    [get_import_lines] and asks for a JSON object. *)
Theorem each_file_asked_afresh (directory : string) (w w' : World)
    (m : ModuleMap) (files : list string) :
  create directory w = (w', Ok m) ->
  getTypescriptFiles (disk w) directory = Ok files ->
  exists rounds,
    sent w' = (sent w ++ concat rounds)%list /\
    Forall2 (fun file round =>
               exists text more,
                 getFileContent (disk w) directory file = Ok text /\
                 round = requestOf
                           (addUserMessage (createConversation None)
                              (analysisPrompt files file text))
                           [createGetImportLinesTool (disk w) directory]
                           (Some true)
                         :: more)
            files rounds.
Proof.
  unfold create, createModuleMap. rewrite !bind_unfold. unfold getDisk.
  rewrite !bind_unfold. unfold lift. intros Hrun Hfiles.
  rewrite Hfiles, bind_unfold in Hrun.
  destruct (forOf (analyseFile JSON_parse_arguments JSON_parse_reply (disk w)
                     directory files
                     [createGetImportLinesTool (disk w) directory])
              files (JsObject.empty, JsObject.empty) w)
    as [w1 [st | e]] eqn:Hloop; [|discriminate].
  unfold ret in Hrun. injection Hrun as <- _.
  now apply forOf_rounds in Hloop.
Qed.

End FreshConversations.

Lemma each_file_asked_afresh_witness :
  exists rounds,
    sent (fst (createModuleMap Sample.noArguments
                 (Sample.replyTable Sample.twoFilesTable) "/app" Sample.twoFiles))
    = (sent Sample.twoFiles ++ concat rounds)%list /\
    Forall2 (fun file round =>
               exists text more,
                 getFileContent (disk Sample.twoFiles) "/app" file = Ok text /\
                 round = requestOf
                           (addUserMessage (createConversation None)
                              (analysisPrompt ["a.ts"; "b.ts"] file text))
                           [createGetImportLinesTool (disk Sample.twoFiles) "/app"]
                           (Some true)
                         :: more)
            ["a.ts"; "b.ts"] rounds.
Proof.
  apply (@each_file_asked_afresh Sample.noArguments
           (Sample.replyTable Sample.twoFilesTable) "/app" Sample.twoFiles
           (fst (createModuleMap Sample.noArguments
                   (Sample.replyTable Sample.twoFilesTable) "/app"
                   Sample.twoFiles))
           Sample.twoFilesMap ["a.ts"; "b.ts"]).
  - vm_compute. reflexivity.
  - vm_compute. reflexivity.
Defined.

(** ** Saving the map *)

Lemma find_entry_replace (n : string) (e' : Fs.Entry) (entries : list Fs.Entry)
    (e0 : Fs.Entry) :
  Fs.find_entry n entries = Some e0 -> Fs.entry_name e' = n ->
  Fs.find_entry n (Fs.replace_entry n e' entries) = Some e'.
Proof.
  intros H Hn. induction entries as [|e entries IH]; [discriminate|].
  cbn [Fs.find_entry Fs.replace_entry] in *.
  destruct (Fs.entry_name e =? n) eqn:E; cbn [Fs.find_entry].
  - now rewrite Hn, String.eqb_refl.
  - rewrite E. now apply IH.
Qed.

Lemma find_entry_app_new (n : string) (e' : Fs.Entry) (entries : list Fs.Entry) :
  Fs.find_entry n entries = None -> Fs.entry_name e' = n ->
  Fs.find_entry n (entries ++ [e']) = Some e'.
Proof.
  intros H Hn. induction entries as [|e entries IH]; cbn [app Fs.find_entry] in *.
  - now rewrite Hn, String.eqb_refl.
  - destruct (Fs.entry_name e =? n); [discriminate | now apply IH].
Qed.

Lemma walk_nil (segs : list string) : Fs.walk [] segs = None.
Proof. destruct segs as [|s [|s' segs]]; reflexivity. Qed.

Lemma walk_step (entries : list Fs.Entry) (seg : string) (rest : list string) :
  rest <> [] ->
  Fs.walk entries (seg :: rest)
  = match Fs.find_entry seg entries with
    | Some (Fs.Directory _ children) => Fs.walk children rest
    | _ => None
    end.
Proof. intros H. destruct rest; [contradiction | reflexivity]. Qed.

Lemma write_at_step (entries : list Fs.Entry) (seg : string) (rest : list string)
    (text : string) :
  rest <> [] ->
  Fs.write_at entries (seg :: rest) text
  = match Fs.find_entry seg entries with
    | Some (Fs.Directory _ children) =>
        option_map
          (fun children' =>
             Fs.replace_entry seg (Fs.Directory seg children') entries)
          (Fs.write_at children rest text)
    | _ => None
    end.
Proof. intros H. destruct rest; [contradiction | reflexivity]. Qed.

(** What was written is found where it was written. *)
Lemma write_at_walk (segs : list string) (entries entries' : list Fs.Entry)
    (text : string) :
  Fs.write_at entries segs text = Some entries' ->
  exists n, Fs.walk entries' segs = Some (Fs.File n text).
Proof.
  revert entries entries'. induction segs as [|seg rest IH]; intros entries entries';
    [discriminate|].
  destruct rest as [|s rest].
  - cbn [Fs.write_at Fs.walk].
    destruct (Fs.find_entry seg entries) as [[n0 t0 | d ch | n0]|] eqn:E;
      try discriminate; intros [= <-]; exists seg.
    + now apply find_entry_replace with (Fs.File n0 t0).
    + now apply find_entry_app_new.
  - rewrite write_at_step by discriminate.
    destruct (Fs.find_entry seg entries) as [[n0 t0 | d ch | n0]|] eqn:E;
      try discriminate.
    destruct (Fs.write_at ch (s :: rest) text) as [ch'|] eqn:Hw; [|discriminate].
    cbn [option_map]. intros [= <-].
    destruct (IH _ _ Hw) as (n & Hn). exists n.
    rewrite walk_step by discriminate.
    now rewrite (@find_entry_replace seg (Fs.Directory seg ch') entries _ E eq_refl).
Qed.

Lemma writeFileSync_read (fs fs' : Fs.t) (path text : string) :
  Fs.writeFileSync fs path text = Ok fs' -> Fs.readFileSync fs' path = Ok text.
Proof.
  unfold Fs.writeFileSync, Fs.readFileSync, Fs.lookup.
  destruct (path =? ""); [discriminate|]. cbn [orb].
  destruct (JsString.endsWith path "/"); [discriminate|].
  destruct (Fs.write_at fs (Path.normalizeSegments path false) text) as [fs1|] eqn:E;
    [|discriminate].
  intros [= <-]. destruct (@write_at_walk _ _ _ _ E) as (n & Hn).
  destruct (Path.normalizeSegments path false) as [|seg segs]; [discriminate|].
  now rewrite Hn.
Qed.

Lemma saved_map_read (yaml_dump : ModuleMap -> string) (fs fs' : Fs.t)
    (moduleMap : ModuleMap) (outputPath : string) :
  saveMapAsYaml yaml_dump fs moduleMap outputPath = Ok fs' ->
  Fs.readFileSync fs' outputPath = Ok (yaml_dump moduleMap).
Proof.
  unfold saveMapAsYaml. cbv zeta.
  destruct (if negb (Fs.existsSync fs (Path.dirname outputPath))
            then Fs.mkdirSync fs (Path.dirname outputPath) else Ok fs)
    as [fs1 | e]; [|discriminate].
  apply writeFileSync_read.
Qed.

Section SaveMap.
Variable yaml_dump : ModuleMap -> string.

(** Whenever [saveMapAsYaml] returns, the file at the output path holds
    the text [yaml.dump] gave for the map. *)
Theorem saved_map_is_read_back (fs fs' : Fs.t) (moduleMap : ModuleMap)
    (outputPath : string) :
  saveMapAsYaml yaml_dump fs moduleMap outputPath = Ok fs' ->
  Fs.readFileSync fs' outputPath = Ok (yaml_dump moduleMap).
Proof. apply saved_map_read. Qed.

End SaveMap.

Lemma saved_map_is_read_back_witness :
  saveMapAsYaml (fun _ => "modules: {}") (disk Sample.twoFiles)
    {| modules := [] |} "/out/map.yml"
  = Ok [ Fs.Directory "app"
           [ Fs.File "a.ts" "import { b } from './b'";
             Fs.File "b.ts" "export const b = 1" ];
         Fs.Directory "out" [ Fs.File "map.yml" "modules: {}" ] ] /\
  Fs.readFileSync
    [ Fs.Directory "app"
        [ Fs.File "a.ts" "import { b } from './b'";
          Fs.File "b.ts" "export const b = 1" ];
      Fs.Directory "out" [ Fs.File "map.yml" "modules: {}" ] ]
    "/out/map.yml"
  = Ok "modules: {}".
Proof.
  split; [reflexivity|].
  apply (@saved_map_is_read_back (fun _ => "modules: {}")
           (disk Sample.twoFiles) _ {| modules := [] |} "/out/map.yml").
  reflexivity.
Defined.

(** *** The directory of the output path *)

Lemma list_ascii_of_string_app (a b : string) :
  list_ascii_of_string (a ++ b)
  = (list_ascii_of_string a ++ list_ascii_of_string b)%list.
Proof.
  induction a as [|c a IH]; [reflexivity|].
  cbn [append list_ascii_of_string app]. now rewrite IH.
Qed.

Lemma length_list_ascii (s : string) :
  List.length (list_ascii_of_string s) = String.length s.
Proof.
  induction s as [|c s IH]; [reflexivity|].
  cbn [list_ascii_of_string List.length String.length]. now rewrite IH.
Qed.

Lemma substring_prefix (a b : string) :
  String.substring 0 (String.length a) (a ++ b) = a.
Proof.
  induction a as [|c a IH]; cbn [String.length append String.substring].
  - now destruct b.
  - now rewrite IH.
Qed.

Lemma chars_free (c : ascii) (s : string) :
  JsString.includes s (String c "") = false ->
  Forall (fun x => (x =? c)%char = false) (list_ascii_of_string s).
Proof.
  induction s as [|x s IH]; intros H; [constructor|].
  apply includes_cons in H. destruct H as [Hp Hi].
  rewrite prefix_char in Hp. cbn [list_ascii_of_string].
  constructor; [now rewrite Ascii.eqb_sym | now apply IH].
Qed.

(** The scan passes over the characters of the last segment. *)
Lemma dirname_scan_segment (l tail : list ascii) (i : nat) (matched : bool) :
  Forall (fun x => (x =? "/")%char = false) l -> l <> [] ->
  Path.dirname_scan (l ++ tail) i matched
  = Path.dirname_scan tail (i - List.length l) false.
Proof.
  intros Hall. revert i matched.
  induction Hall as [|x l Hx _ IH]; intros i matched Hne; [contradiction|].
  cbn [app Path.dirname_scan]. rewrite Hx.
  destruct l as [|y l].
  - cbn [app List.length]. reflexivity.
  - rewrite IH by discriminate. f_equal. cbn [List.length]. lia.
Qed.

Lemma dirname_of_child (dir n : string) :
  dir <> "" -> dir <> "/" ->
  n <> "" -> JsString.includes n "/" = false ->
  Path.dirname (dir ++ "/" ++ n) = dir.
Proof.
  intros Hdir Hroot Hn Hfree. unfold Path.dirname.
  destruct dir as [|c0 dir']; [contradiction|].
  change (String c0 dir' ++ "/" ++ n) with (String c0 (dir' ++ String "/" n)).
  change (String c0 (dir' ++ String "/" n) =? "") with false. cbv iota.
  cbn [list_ascii_of_string tl String.length Nat.sub].
  rewrite list_ascii_of_string_app. cbn [list_ascii_of_string].
  rewrite rev_app_distr. cbn [rev]. rewrite <- app_assoc. cbn [app].
  rewrite Nat.sub_0_r.
  rewrite dirname_scan_segment.
  - cbn [Path.dirname_scan]. change ("/" =? "/")%char with true. cbv iota.
    rewrite length_rev, length_list_ascii.
    assert (Hlen : String.length (dir' ++ String "/" n) - String.length n
                   = S (String.length dir')).
    { clear. induction dir' as [|c d IH]; cbn [append String.length].
      - lia.
      - cbn [String.length] in IH. lia. }
    rewrite Hlen.
    assert (Hone : JsString.startsWith (String c0 (dir' ++ String "/" n)) "/"
                   && (S (String.length dir') =? 1)%nat = false).
    { destruct dir' as [|c1 d]; [|now rewrite andb_false_r].
      rewrite andb_true_r. unfold JsString.startsWith. rewrite prefix_char.
      destruct (Ascii.eqb_spec "/" c0) as [<- | _]; [|reflexivity].
      now contradiction Hroot. }
    rewrite Hone.
    change (S (String.length dir')) with (String.length (String c0 dir')).
    change (String c0 (dir' ++ String "/" n))
      with (String c0 dir' ++ String "/" n).
    apply substring_prefix.
  - apply Forall_rev. now apply (chars_free "/").
  - intros E. apply (f_equal (@List.length ascii)) in E.
    rewrite length_rev, length_list_ascii in E. cbn [List.length] in E.
    destruct n; [now apply Hn | discriminate].
Qed.

(** *** Creating the directories and writing *)

Lemma passable_walk (segs : list string) (entries : list Fs.Entry) (e : Fs.Entry) :
  passable entries segs = true -> Fs.walk entries segs = Some e ->
  exists d children, e = Fs.Directory d children.
Proof.
  revert entries. induction segs as [|seg rest IH]; intros entries Hp Hw;
    [discriminate|].
  cbn [passable] in Hp. destruct rest as [|s rest].
  - cbn [Fs.walk] in Hw. rewrite Hw in Hp.
    destruct e as [? ? | d ch | ?]; try discriminate. eauto.
  - rewrite walk_step in Hw by discriminate.
    destruct (Fs.find_entry seg entries) as [[? ? | d ch | ?]|]; try discriminate.
    now apply (IH ch).
Qed.

Lemma make_directories_passable (segs : list string) (entries : list Fs.Entry) :
  passable entries segs = true ->
  exists entries', Fs.make_directories entries segs = Some entries'.
Proof.
  revert entries. induction segs as [|seg rest IH]; intros entries Hp.
  - now exists entries.
  - cbn [passable Fs.make_directories] in *.
    destruct (Fs.find_entry seg entries) as [[? ? | d ch | ?]|]; try discriminate.
    + destruct (IH ch Hp) as (ch' & ->). cbn [option_map]. eauto.
    + destruct (IH [] ) as (ch' & ->); [|cbn [option_map]; eauto].
      clear. destruct rest; reflexivity.
Qed.

Lemma make_directories_walk (segs : list string) (entries entries' : list Fs.Entry) :
  Fs.make_directories entries segs = Some entries' -> segs <> [] ->
  exists d children, Fs.walk entries' segs = Some (Fs.Directory d children).
Proof.
  revert entries entries'. induction segs as [|seg rest IH];
    intros entries entries' Hm Hne; [contradiction|].
  cbn [Fs.make_directories] in Hm.
  assert (Hstep : forall ch ch',
            Fs.make_directories ch rest = Some ch' ->
            Fs.find_entry seg entries' = Some (Fs.Directory seg ch') ->
            exists d children,
              Fs.walk entries' (seg :: rest) = Some (Fs.Directory d children)).
  { intros ch ch' Hrest Hfind. destruct rest as [|s rest].
    - cbn [Fs.walk]. eauto.
    - rewrite walk_step by discriminate. rewrite Hfind.
      apply (IH ch ch' Hrest). discriminate. }
  destruct (Fs.find_entry seg entries) as [[? ? | d ch | ?]|] eqn:E;
    try discriminate.
  - destruct (Fs.make_directories ch rest) as [ch'|] eqn:Hrest; [|discriminate].
    cbn [option_map] in Hm. injection Hm as <-.
    apply (Hstep ch ch' Hrest).
    now apply find_entry_replace with (Fs.Directory d ch).
  - destruct (Fs.make_directories [] rest) as [ch'|] eqn:Hrest; [|discriminate].
    cbn [option_map] in Hm. injection Hm as <-.
    apply (Hstep [] ch' Hrest). now apply find_entry_app_new.
Qed.

(** Creating directories changes nothing at a place below them. *)
Lemma make_directories_below (segs : list string) (n : string)
    (entries entries' : list Fs.Entry) :
  Fs.make_directories entries segs = Some entries' ->
  Fs.walk entries' (segs ++ [n]) = Fs.walk entries (segs ++ [n]).
Proof.
  revert entries entries'. induction segs as [|seg rest IH];
    intros entries entries' Hm.
  - cbn [Fs.make_directories] in Hm. now injection Hm as <-.
  - cbn [Fs.make_directories] in Hm. cbn [app].
    rewrite !walk_step by (now destruct rest).
    destruct (Fs.find_entry seg entries) as [[? ? | d ch | ?]|] eqn:E;
      try discriminate.
    + destruct (Fs.make_directories ch rest) as [ch'|] eqn:Hrest; [|discriminate].
      cbn [option_map] in Hm. injection Hm as <-.
      rewrite (@find_entry_replace seg (Fs.Directory seg ch') entries _ E eq_refl).
      now apply IH.
    + destruct (Fs.make_directories [] rest) as [ch'|] eqn:Hrest; [|discriminate].
      cbn [option_map] in Hm. injection Hm as <-.
      rewrite (@find_entry_app_new seg (Fs.Directory seg ch') entries E eq_refl).
      rewrite (IH _ _ Hrest). apply walk_nil.
Qed.

Lemma write_at_succeeds (segs : list string) (n text : string)
    (entries : list Fs.Entry) :
  writable entries (segs ++ [n]) = true ->
  (segs = [] \/
   exists d children, Fs.walk entries segs = Some (Fs.Directory d children)) ->
  exists entries', Fs.write_at entries (segs ++ [n]) text = Some entries'.
Proof.
  unfold writable. revert entries.
  induction segs as [|seg rest IH]; intros entries Hw Hdir.
  - cbn [app Fs.write_at Fs.walk] in *.
    destruct (Fs.find_entry n entries) as [[? ? | ? ? | ?]|]; try discriminate;
      eauto.
  - destruct Hdir as [Hdir | (d & children & Hdir)]; [discriminate|].
    cbn [app] in *. rewrite write_at_step by (now destruct rest).
    rewrite walk_step in Hw by (now destruct rest).
    destruct rest as [|s rest].
    + cbn [Fs.walk] in Hdir. rewrite Hdir in *.
      destruct (IH children Hw (or_introl eq_refl)) as (ch' & ->).
      cbn [option_map]. eauto.
    + rewrite walk_step in Hdir by discriminate.
      destruct (Fs.find_entry seg entries) as [[? ? | d0 ch0 | ?]|];
        try discriminate.
      destruct (IH ch0 Hw) as (ch' & ->); [right; eauto|].
      cbn [option_map]. eauto.
Qed.

Section SaveSucceeds.
Variable yaml_dump : ModuleMap -> string.

(** Saving to the file [n] of the directory written [dir]. *)
Lemma save_succeeds_below (fs : Fs.t) (moduleMap : ModuleMap)
    (dir n : string) :
  dir <> "" -> dir <> "/" -> properName n = true ->
  passable fs (Path.normalizeSegments dir false) = true ->
  writable fs (Path.normalizeSegments dir false ++ [n]) = true ->
  exists fs',
    saveMapAsYaml yaml_dump fs moduleMap (dir ++ "/" ++ n) = Ok fs' /\
    Fs.readFileSync fs' (dir ++ "/" ++ n) = Ok (yaml_dump moduleMap).
Proof.
  intros Hdir Hroot Hn Hpass Hfree.
  destruct (properName_spec _ Hn) as (Hclean & Hnfree & Hnne).
  assert (Hsave : exists fs',
            saveMapAsYaml yaml_dump fs moduleMap (dir ++ "/" ++ n) = Ok fs').
  { unfold saveMapAsYaml. cbv zeta.
    rewrite dirname_of_child by assumption.
    set (segs := Path.normalizeSegments dir false) in *.
    assert (Hmade : exists fs1,
              (if negb (Fs.existsSync fs dir) then Fs.mkdirSync fs dir else Ok fs)
              = Ok fs1 /\
              writable fs1 (segs ++ [n]) = true /\
              (segs = [] \/
               exists d children,
                 Fs.walk fs1 segs = Some (Fs.Directory d children))).
    { destruct (Fs.existsSync fs dir) eqn:Hex; cbn [negb].
      - exists fs. split; [reflexivity|]. split; [exact Hfree|].
        unfold Fs.existsSync, Fs.lookup in Hex.
        rewrite (proj2 (String.eqb_neq dir "") Hdir) in Hex. fold segs in Hex.
        destruct segs as [|seg rest] eqn:Es; [now left|]. right.
        destruct (Fs.walk fs (seg :: rest)) as [e|] eqn:Hw; [|discriminate].
        destruct (@passable_walk _ _ _ Hpass Hw) as (d & children & ->). eauto.
      - unfold Fs.mkdirSync. rewrite (proj2 (String.eqb_neq dir "") Hdir).
        fold segs.
        destruct (@make_directories_passable _ _ Hpass) as (fs1 & Hm).
        rewrite Hm. exists fs1. split; [reflexivity|]. split.
        + unfold writable in *. now rewrite (@make_directories_below _ n _ _ Hm).
        + destruct segs as [|seg rest] eqn:Es; [now left|]. right.
          apply (@make_directories_walk _ _ _ Hm). discriminate. }
    destruct Hmade as (fs1 & -> & Hw1 & Hd1).
    unfold Fs.writeFileSync.
    assert (E0 : (dir ++ "/" ++ n =? "") = false).
    { apply String.eqb_neq. destruct dir; [contradiction | discriminate]. }
    assert (E1 : JsString.endsWith (dir ++ "/" ++ n) "/" = false).
    { rewrite <- append_assoc. now apply not_endsWith_separator. }
    rewrite E0, E1. cbn [orb].
    assert (Hsegs : Path.normalizeSegments (dir ++ "/" ++ n) false
                    = (segs ++ [n])%list).
    { unfold Path.normalizeSegments.
      change (dir ++ "/" ++ n) with (dir ++ String "/" n).
      rewrite (split_app_char "/").
      rewrite normalize_go_app_clean.
      - f_equal. unfold JsString.split.
        now rewrite (@split_go_char_whole "/" n "" Hnfree).
      - unfold JsString.split.
        rewrite (@split_go_char_whole "/" n "" Hnfree).
        cbn [append forallb]. now rewrite Hclean. }
    rewrite Hsegs.
    destruct (@write_at_succeeds segs n (yaml_dump moduleMap) fs1 Hw1 Hd1)
      as (fs' & ->).
    eauto. }
  destruct Hsave as (fs' & Hsave). exists fs'. split; [exact Hsave|].
  now apply saved_map_read with (fs := fs) (yaml_dump := yaml_dump).
Qed.

End SaveSucceeds.

Lemma normalizeSegments_absolute (segs : list string) :
  segs <> [] -> forallb properName segs = true ->
  Path.normalizeSegments ("/" ++ JsString.join segs "/") false = segs.
Proof.
  intros Hne Hnames. unfold Path.normalizeSegments.
  change ("/" ++ JsString.join segs "/")
    with ("" ++ String "/" (JsString.join segs "/")).
  rewrite (split_app_char "/").
  rewrite (split_join_char "/").
  - change (JsString.split "" "/") with [""]. cbn [app Path.normalize_go].
    change (("" =? "") || ("" =? ".")) with true. cbv iota.
    rewrite normalize_go_clean_run; [reflexivity|].
    apply forallb_forall. intros x Hx. rewrite forallb_forall in Hnames.
    now destruct (properName_spec _ (Hnames x Hx)).
  - exact Hne.
  - apply Forall_forall. intros x Hx. rewrite forallb_forall in Hnames.
    now destruct (properName_spec _ (Hnames x Hx)) as (_ & H & _).
Qed.

Lemma join_snoc (l : list string) (n sep : string) :
  l <> [] ->
  JsString.join (l ++ [n]) sep = JsString.join l sep ++ sep ++ n.
Proof.
  induction l as [|m l IH]; intros Hne; [contradiction|].
  destruct l as [|m' l]; [reflexivity|].
  change (JsString.join ((m :: m' :: l) ++ [n]) sep)
    with (m ++ sep ++ JsString.join ((m' :: l) ++ [n]) sep).
  rewrite IH by discriminate.
  change (JsString.join (m :: m' :: l) sep)
    with (m ++ sep ++ JsString.join (m' :: l) sep).
  now rewrite !append_assoc.
Qed.

Lemma dirname_scan_none (l : list ascii) (i : nat) (matched : bool) :
  Forall (fun x => (x =? "/")%char = false) l ->
  Path.dirname_scan l i matched = None.
Proof.
  intros Hall. revert i matched.
  induction Hall as [|x l Hx _ IH]; intros i matched; [reflexivity|].
  cbn [Path.dirname_scan]. rewrite Hx. apply IH.
Qed.

Lemma dirname_of_root_child (n : string) :
  JsString.includes n "/" = false -> Path.dirname ("/" ++ n) = "/".
Proof.
  intros Hfree. unfold Path.dirname.
  change ("/" ++ n) with (String "/" n).
  change (String "/" n =? "") with false. cbv iota.
  unfold JsString.startsWith. rewrite prefix_char.
  cbn [list_ascii_of_string tl].
  rewrite dirname_scan_none; [reflexivity|].
  apply Forall_rev. now apply (chars_free "/").
Qed.

Section SaveMapSucceeds.
Variable yaml_dump : ModuleMap -> string.

(** [saveMapAsYaml] creates the directories that are missing on the way
    to the output file.  For an absolute output path with proper
    segments: when nothing but directories stands on the way to its
    directory, and the path itself holds a regular file or nothing, the
    map is saved and read back from the output path. *)
Theorem save_creates_missing_directories (fs : Fs.t) (moduleMap : ModuleMap)
    (dirs : list string) (n : string) :
  forallb properName (dirs ++ [n]) = true ->
  passable fs dirs = true ->
  writable fs (dirs ++ [n]) = true ->
  let outputPath := "/" ++ JsString.join (dirs ++ [n]) "/" in
  exists fs',
    saveMapAsYaml yaml_dump fs moduleMap outputPath = Ok fs' /\
    Fs.readFileSync fs' outputPath = Ok (yaml_dump moduleMap).
Proof.
  intros Hnames Hpass Hfree outputPath. subst outputPath.
  rewrite forallb_app in Hnames. apply andb_true_iff in Hnames.
  destruct Hnames as [Hdirs Hn]. cbn [forallb] in Hn. rewrite andb_true_r in Hn.
  destruct (properName_spec _ Hn) as (Hclean & Hnfree & Hnne).
  destruct dirs as [|d dirs].
  - (* a file of the root directory *)
    cbn [app JsString.join] in *.
    assert (Hsave : exists fs',
              saveMapAsYaml yaml_dump fs moduleMap ("/" ++ n) = Ok fs').
    { unfold saveMapAsYaml. cbv zeta. rewrite dirname_of_root_child by exact Hnfree.
      change (Fs.existsSync fs "/") with true. cbn [negb].
      unfold Fs.writeFileSync.
      change ("/" ++ n =? "") with false. cbn [orb].
      rewrite (@not_endsWith_separator "/" n Hnne Hnfree).
      assert (Hs : Path.normalizeSegments ("/" ++ n) false = [n]).
      { apply (@normalizeSegments_absolute [n]); [discriminate|].
        cbn [forallb]. now rewrite Hn. }
      rewrite Hs.
      destruct (@write_at_succeeds [] n (yaml_dump moduleMap) fs Hfree
                  (or_introl eq_refl)) as (fs' & Hw).
      cbn [app] in Hw. rewrite Hw. eauto. }
    destruct Hsave as (fs' & Hsave). exists fs'. split; [exact Hsave|].
    now apply saved_map_read with (fs := fs) (yaml_dump := yaml_dump).
  - rewrite join_snoc by discriminate. rewrite <- append_assoc.
    set (dir := "/" ++ JsString.join (d :: dirs) "/").
    assert (Hsegs : Path.normalizeSegments dir false = d :: dirs).
    { apply normalizeSegments_absolute; [discriminate | exact Hdirs]. }
    apply save_succeeds_below.
    + discriminate.
    + subst dir. intros E. apply (@join_nonempty d dirs "/").
      * cbn [forallb] in Hdirs. apply andb_true_iff in Hdirs.
        destruct Hdirs as [Hd _]. now destruct (properName_spec _ Hd).
      * injection E as E. exact E.
    + exact Hn.
    + now rewrite Hsegs.
    + now rewrite Hsegs.
Qed.

End SaveMapSucceeds.

Lemma save_creates_missing_directories_witness :
  exists fs',
    saveMapAsYaml (fun _ => "modules: {}") (disk Sample.twoFiles)
      {| modules := [] |} "/app/out/maps/map.yml" = Ok fs' /\
    Fs.readFileSync fs' "/app/out/maps/map.yml" = Ok "modules: {}".
Proof.
  apply (@save_creates_missing_directories (fun _ => "modules: {}")
           (disk Sample.twoFiles) {| modules := [] |}
           ["app"; "out"; "maps"] "map.yml").
  - reflexivity.
  - reflexivity.
  - reflexivity.
Defined.

(** ** The earlier extraction helpers of [utils.ts] *)

Lemma dedupe_in (l seen : list string) (x : string) :
  In x (dedupe seen l) <-> In x l /\ ~ In x seen.
Proof.
  revert seen. induction l as [|y l IH]; intros seen; cbn [dedupe].
  - split; [intros [] | intros [[] _]].
  - destruct (existsb (String.eqb y) seen) eqn:E.
    + rewrite IH. apply existsb_exists in E. destruct E as (z & Hz & Ez).
      apply String.eqb_eq in Ez. subst z. split.
      * intros [H1 H2]. split; [now right | exact H2].
      * intros [[-> | H1] H2]; [contradiction | auto].
    + assert (Hy : ~ In y seen).
      { intros H. assert (E' : existsb (String.eqb y) seen = true).
        { apply existsb_exists. exists y. split; [exact H | apply String.eqb_refl]. }
        congruence. }
      cbn [In]. rewrite IH. cbn [In]. split.
      * intros [<- | [H1 H2]]; [split; [now left | exact Hy]|].
        split; [now right | tauto].
      * intros [[<- | H1] H2]; [now left|].
        destruct (String.eqb_spec y x) as [-> | Hne]; [now left|].
        right. split; [exact H1|]. intros [H | H]; [now apply Hne | now apply H2].
Qed.

Lemma dedupe_NoDup (l seen : list string) : NoDup (dedupe seen l).
Proof.
  revert seen. induction l as [|y l IH]; intros seen; cbn [dedupe];
    [constructor|].
  destruct (existsb (String.eqb y) seen); [apply IH|].
  constructor; [|apply IH].
  rewrite dedupe_in. intros [_ H]. apply H. now left.
Qed.

Section ImportExtractionFacts.
Variable match_from : string -> option string.

Let extract := extractCalledModules match_from.

Lemma extractCalledModules_in (fs : Fs.t) (importLines directory filePath r : string) :
  In r (extract fs importLines directory filePath) <->
  importLines <> "" /\
  exists line,
    In line (JsString.split importLines nl) /\
    In r (calledModulesOf match_from fs directory filePath line).
Proof.
  unfold extract, extractCalledModules.
  destruct (String.eqb_spec importLines "") as [-> | Hne].
  - split; [intros [] | intros [H _]; now apply H].
  - rewrite dedupe_in, in_flat_map. split.
    + intros [H _]. auto.
    + intros [_ H]. split; [exact H | intros []].
Qed.

(** [extractCalledModules] reports no module twice. *)
Theorem called_modules_distinct (fs : Fs.t)
    (importLines directory filePath : string) :
  NoDup (extract fs importLines directory filePath).
Proof.
  unfold extract, extractCalledModules.
  destruct (importLines =? ""); [constructor | apply dedupe_NoDup].
Qed.

(** Given the importing file, [extractCalledModules] reports exactly the
    resolutions of the relative specifiers of the lines that differ from
    the specifier itself: an absolute specifier passes the first test and
    is then dropped, as is a relative one that resolves to itself. *)
Theorem called_modules_of_file (fs : Fs.t)
    (importLines directory filePath r : string) :
  filePath <> "" ->
  (In r (extract fs importLines directory filePath) <->
   importLines <> "" /\
   exists line importPath,
     In line (JsString.split importLines nl) /\
     match_from line = Some importPath /\
     JsString.startsWith importPath "." = true /\
     r = resolveImportPath fs importPath filePath directory /\
     r <> importPath).
Proof.
  intros Hfile. rewrite extractCalledModules_in.
  apply String.eqb_neq in Hfile. split.
  - intros (Hne & line & Hline & Hr). split; [exact Hne|]. exists line.
    unfold calledModulesOf in Hr.
    destruct (match_from line) as [importPath|]; [|destruct Hr].
    exists importPath. destruct (importPath =? ""); [destruct Hr|].
    rewrite Hfile in Hr. cbn [negb] in Hr.
    destruct (JsString.startsWith importPath ".") eqn:Hrel; cbn [negb andb] in Hr.
    + cbv zeta in Hr.
      destruct (String.eqb_spec
                  (resolveImportPath fs importPath filePath directory) importPath)
        as [E | Hne']; cbn [negb] in Hr; [destruct Hr|].
      destruct Hr as [<- | []]. auto.
    + destruct (JsString.startsWith importPath "/"); cbn [negb] in Hr;
        [|destruct Hr].
      cbv zeta in Hr. unfold resolveImportPath in Hr. rewrite Hrel in Hr.
      cbn [negb] in Hr. rewrite String.eqb_refl in Hr. destruct Hr.
  - intros (Hne & line & importPath & Hline & Hm & Hrel & -> & Hdiff).
    split; [exact Hne|]. exists line. split; [exact Hline|].
    unfold calledModulesOf. rewrite Hm.
    assert (E0 : (importPath =? "") = false).
    { apply String.eqb_neq. intros ->. discriminate. }
    rewrite E0, Hrel, Hfile. cbn [negb andb]. cbv zeta.
    apply String.eqb_neq in Hdiff. rewrite Hdiff. now left.
Qed.

(** Without the importing file, the specifiers that start with ["."] or
    ["/"] are reported as they are written, absolute ones included. *)
Theorem called_modules_without_file (fs : Fs.t)
    (importLines directory r : string) :
  In r (extract fs importLines directory "") <->
  importLines <> "" /\
  exists line,
    In line (JsString.split importLines nl) /\
    match_from line = Some r /\
    JsString.startsWith r "." || JsString.startsWith r "/" = true.
Proof.
  rewrite extractCalledModules_in. split.
  - intros (Hne & line & Hline & Hr). split; [exact Hne|]. exists line.
    split; [exact Hline|]. unfold calledModulesOf in Hr.
    destruct (match_from line) as [importPath|]; [|destruct Hr].
    destruct (importPath =? ""); [destruct Hr|].
    destruct (JsString.startsWith importPath ".") eqn:H1;
      destruct (JsString.startsWith importPath "/") eqn:H2;
      cbn [negb andb String.eqb] in Hr; try destruct Hr as [<- | []];
      try (split; [reflexivity|]); try (now rewrite H1); try (now rewrite H2, orb_true_r).
    destruct Hr.
  - intros (Hne & line & Hline & Hm & Hrel). split; [exact Hne|].
    exists line. split; [exact Hline|]. unfold calledModulesOf. rewrite Hm.
    assert (E0 : (r =? "") = false).
    { apply String.eqb_neq. intros ->. discriminate. }
    rewrite E0. apply orb_true_iff in Hrel.
    destruct Hrel as [-> | ->]; cbn [negb andb String.eqb];
      [|rewrite andb_false_r]; now left.
Qed.

End ImportExtractionFacts.

Lemma called_modules_of_file_witness :
  In "src/b.ts"
     (extractCalledModules
        (Sample.fromClause [ ("import { b } from './b.ts'", "./b.ts") ])
        Sample.sameStem "import { b } from './b.ts'" "/app" "src/a.ts").
Proof.
  refine (proj2 (@called_modules_of_file
                   (Sample.fromClause [ ("import { b } from './b.ts'", "./b.ts") ])
                   Sample.sameStem "import { b } from './b.ts'" "/app" "src/a.ts"
                   "src/b.ts" _) _).
  - discriminate.
  - split; [discriminate|].
    exists "import { b } from './b.ts'", "./b.ts".
    split; [left; reflexivity|]. split; [reflexivity|].
    split; [reflexivity|]. split; [reflexivity | discriminate].
Defined.

Section DescriptionExtractionFacts.
Variable match_description : string -> option string.
Variable strip_markers : string -> string.

(** [extractDescription] never throws, and its last fallback, the first
    line of the response, is never reached: a response without a
    non-empty description section is answered from its first paragraph. *)
Theorem extractDescription_first_paragraph (response : string) :
  let paragraph := hd "" (JsString.split response (nl ++ nl)) in
  let cleaned := JsString.trim (removeTicks (strip_markers paragraph)) in
  extractDescription match_description strip_markers response
  = Ok (if response =? "" then ""
        else
          match match_description response with
          | Some description =>
              if description =? "" then cleaned else JsString.trim description
          | None => cleaned
          end).
Proof.
  cbv zeta. unfold extractDescription.
  destruct (response =? ""); [reflexivity|]. cbv zeta.
  change (nl ++ nl) with (String (ascii_of_nat 10) (String (ascii_of_nat 10) "")).
  unfold JsString.split. cbv iota.
  destruct (split_go_first
              (String (ascii_of_nat 10) (String (ascii_of_nat 10) "")) 0 ""
              response) as (first & rest & E).
  rewrite E. cbn [hd].
  destruct (match_description response) as [d|]; [|reflexivity].
  now destruct (d =? "").
Qed.

End DescriptionExtractionFacts.
